(** * Streaming reading-progress protocol: client side

    A shallow embedding of the two client-side pieces of the tarot reading
    application that take part in the streaming protocol:

    - [Api]: the server-sent-event line parser of
      [tarotAPI.createReadingStream] (frontend/lib/api.ts), which turns the
      chunks of the streamed response into callback invocations;
    - [HomePage]: the callbacks that [handleSubmit] passes to
      [createReadingStream] and the timers and effects of the [HomePage]
      component (frontend/app/page.tsx), as transitions on the component
      state.

    Around them, the code that these two pieces call or that reacts to
    them:

    - [CardViews]: the click handlers of [ThreeCardSpread] and
      [CelticCrossSpread] and the navigation of [CardModal], which show the
      cards that [HomePage] selects;
    - [Sidebar]: the list of pending readings that follows the events
      dispatched by [handleSubmit], and [formatDate];
    - [ApiUrl] and [Auth]: the address of the server and the request and
      response interceptors of [apiClient] (frontend/lib/api.ts), with the
      session check of [checkAuth].

    JavaScript strings are modelled by [string]; a character stands for one
    code unit (only code units below 256 are represented). *)

From Stdlib Require Import String Ascii List Bool ZArith QArith Lia.
From Stdlib Require Import Permutation Sorted.

Set Warnings "-register-all".
Import ListNotations.

Close Scope Q_scope.
Local Open Scope string_scope.
Local Open Scope list_scope.

(** ** JavaScript string primitives *)

Module Js.

(** The line feed, the separator of [buffer.split('\n')]. *)
Definition LF : ascii := ascii_of_nat 10.

(** [s.split('\n')]: never empty, the last element is the text after the
    last line feed. *)
Fixpoint split (s : string) : list string :=
  match s with
  | EmptyString => [EmptyString]
  | String c s' =>
      if Ascii.eqb c LF then EmptyString :: split s'
      else match split s' with
           | h :: t => String c h :: t
           | [] => [String c EmptyString]
           end
  end.

(** [s.substring(n)]: the text from index [n] on. *)
Fixpoint substring (n : nat) (s : string) : string :=
  match n, s with
  | O, _ => s
  | S n', String _ s' => substring n' s'
  | S _, EmptyString => EmptyString
  end.

(** [s.startsWith(p)]. *)
Fixpoint startsWith (s p : string) : bool :=
  match p, s with
  | EmptyString, _ => true
  | String _ _, EmptyString => false
  | String a p', String b s' => Ascii.eqb a b && startsWith s' p'
  end.

(** White space in the sense of [String.prototype.trim], for code units
    below 256: TAB, LF, VT, FF, CR, SPACE and NBSP. *)
Definition isWhiteSpace (c : ascii) : bool :=
  let n := nat_of_ascii c in
  (Nat.leb 9 n && Nat.leb n 13) || Nat.eqb n 32 || Nat.eqb n 160.

Fixpoint trimStart (s : string) : string :=
  match s with
  | EmptyString => EmptyString
  | String c s' => if isWhiteSpace c then trimStart s' else s
  end.

(** Drops the white space at the end: a character is kept when it is not
    white space or when something kept follows it. *)
Fixpoint trimEnd (s : string) : string :=
  match s with
  | EmptyString => EmptyString
  | String c s' =>
      match trimEnd s' with
      | EmptyString => if isWhiteSpace c then EmptyString else String c EmptyString
      | r => String c r
      end
  end.

Definition trim (s : string) : string := trimEnd (trimStart s).

(** Truthiness of a string: [!s] holds exactly for the empty string. *)
Definition truthy (s : string) : bool :=
  match s with EmptyString => false | _ => true end.

(** [a || b] on strings. *)
Definition or (a b : string) : string := if truthy a then a else b.

(** [s.slice(0, n)]. *)
Fixpoint take (n : nat) (s : string) : string :=
  match n, s with
  | S n', String c s' => String c (take n' s')
  | _, _ => EmptyString
  end.

End Js.

(** ** frontend/lib/api.ts: [tarotAPI.createReadingStream] *)

Module Api.

(** Values that [JSON.parse] returns, and [undefined], which reading a
    missing property gives.  Numbers of the protocol are integers. *)
Inductive Json : Type :=
| JUndefined
| JNull
| JBool (b : bool)
| JNum (z : Z)
| JStr (s : string)
| JArr (items : list Json)
| JObj (fields : list (string * Json)).

(** [!!v]. *)
Definition truthy (v : Json) : bool :=
  match v with
  | JUndefined | JNull => false
  | JBool b => b
  | JNum z => negb (Z.eqb z 0)
  | JStr s => Js.truthy s
  | JArr _ | JObj _ => true
  end.

(** [a || b]. *)
Definition or (a b : Json) : Json := if truthy a then a else b.

Fixpoint lookup (k : string) (fields : list (string * Json)) : Json :=
  match fields with
  | [] => JUndefined
  | (k', v) :: rest => if String.eqb k k' then v else lookup k rest
  end.

(** [v.k] for the property names that the parser reads ([step], [text],
    [error]): [None] stands for the TypeError that reading a property of
    [null] throws; a primitive or an array has no such property. *)
Definition prop (v : Json) (k : string) : option Json :=
  match v with
  | JUndefined | JNull => None
  | JObj fields => Some (lookup k fields)
  | _ => Some JUndefined
  end.

(** One invocation of a callback of [createReadingStream]. *)
Inductive Call : Type :=
| OnProgress (step data : Json)
| OnInterpretation (text : Json)
| OnComplete (result : Json)
| OnError (error : Json).

(** The body of the [try] block after [JSON.parse] succeeded: the callback
    invoked for [data] under the current event name, if any.  An exception
    thrown before the call (a property of [null]) is caught: no call. *)
Definition dispatch (currentEvent : string) (data : Json) : list Call :=
  if String.eqb currentEvent "progress" then
    match prop data "step" with
    | Some step => [OnProgress (or step (JStr "unknown")) data]
    | None => []
    end
  else if String.eqb currentEvent "imagery_chunk" then
    [OnProgress (JStr "imagery_chunk") data]
  else if String.eqb currentEvent "interpretation" then
    match prop data "text" with
    | Some text => [OnInterpretation (or text (JStr ""))]
    | None => []
    end
  else if String.eqb currentEvent "error" then
    match prop data "error" with
    | Some e => [OnError (or e (JStr "Unknown error"))]
    | None => []
    end
  else if String.eqb currentEvent "complete" then
    [OnComplete data]
  else [].

(** An event name for which [dispatch] has no branch. *)
Definition unknownEvent (ev : string) : Prop :=
  ev <> "progress" /\ ev <> "imagery_chunk" /\ ev <> "interpretation"
  /\ ev <> "complete" /\ ev <> "error".

Section Parser.

(** [JSON.parse]: [None] when it throws a SyntaxError. *)
Variable JSON_parse : string -> option Json.

(** [new TextDecoder()] used with [{ stream: true }]: the decoder keeps
    the bytes of an unfinished character between calls. *)
Variable Decoder : Type.
Variable newDecoder : Decoder.
Variable decode : Decoder -> list Byte.byte -> string * Decoder.

(** The two variables of the read loop that outlive an iteration. *)
Record State : Type := mkState {
  buffer : string;
  currentEvent : string
}.

Definition initial : State := mkState "" "".

(** One iteration of the [for] loop over [lines]: the new current event
    name and the callbacks invoked. *)
Definition processLine (ev line : string) : string * list Call :=
  if Js.startsWith line "event: " then
    (Js.trim (Js.substring 7 line), [])
  else if Js.startsWith line "data: " then
    let dataStr := Js.trim (Js.substring 6 line) in
    if negb (Js.truthy dataStr) then (ev, [])
    else
      ("", match JSON_parse dataStr with
           | Some data => dispatch ev data
           | None => []
           end)
  else (ev, []).

Fixpoint processLines (ev : string) (lines : list string)
  : string * list Call :=
  match lines with
  | [] => (ev, [])
  | line :: rest =>
      let '(ev1, calls1) := processLine ev line in
      let '(ev2, calls2) := processLines ev1 rest in
      (ev2, calls1 ++ calls2)
  end.

(** The body of the [while] loop after the text of a chunk has been
    decoded: [buffer += text], split, pop the last piece back into
    [buffer], handle the complete lines. *)
Definition feed (st : State) (text : string) : State * list Call :=
  let lines := Js.split (buffer st ++ text) in
  let '(ev, calls) := processLines (currentEvent st) (removelast lines) in
  (mkState (Js.or (last lines "") "") ev, calls).

(** The read loop over the chunks that [reader.read()] returns, until
    [done]. *)
Fixpoint readLoop (d : Decoder) (st : State) (chunks : list (list Byte.byte))
  : State * list Call :=
  match chunks with
  | [] => (st, [])
  | value :: rest =>
      let '(text, d1) := decode d value in
      let '(st1, calls1) := feed st text in
      let '(st2, calls2) := readLoop d1 st1 rest in
      (st2, calls1 ++ calls2)
  end.

(** The callbacks that [createReadingStream] invokes, in order, for a
    response body delivered as [chunks]. *)
Definition createReadingStream (chunks : list (list Byte.byte)) : list Call :=
  snd (readLoop newDecoder initial chunks).

End Parser.

Arguments readLoop JSON_parse {Decoder} decode d st chunks.
Arguments createReadingStream JSON_parse {Decoder} newDecoder decode chunks.

End Api.

(** ** frontend/app/page.tsx: the [HomePage] component *)

Module HomePage.

(** *** Data *)

(** [spreadType]: ['three_card' | 'celtic_cross']. *)
Inductive SpreadType : Type := three_card | celtic_cross.

(** A card of a [cards_selected] payload as it arrives: every field may be
    missing.  [position_order] is an integer. *)
Record RawCard : Type := mkRawCard {
  raw_card_id : option string;
  raw_id : option string;
  raw_card_name_en : option string;
  raw_name : option string;
  raw_card_name_cn : option string;
  raw_position : option string;
  raw_position_order : option Z;
  raw_is_reversed : option bool;
  raw_image_url : option string
}.

(** [interface CardData]; a field that the mapping may leave [undefined]
    is an [option]. *)
Record CardData : Type := mkCardData {
  card_id : option string;
  card_name_en : option string;
  card_name_cn : option string;
  position : option string;
  position_order : Z;
  is_reversed : bool;
  image_url : option string
}.

(** The payload of a [progress] or [imagery_chunk] event, with the fields
    that [onProgress] reads. *)
Record ProgressData : Type := mkProgressData {
  text : option string;
  selected_cards : option (list RawCard);
  data_cards : option (list RawCard);
  imagery_description : option string
}.

Definition noData : ProgressData := mkProgressData None None None None.

(** The payload of a [complete] event. *)
Record CompleteData : Type := mkCompleteData {
  reading_id : option string;
  result_id : option string
}.

(** The typed events that [createReadingStream] hands to the four
    callbacks.  An [imagery_chunk] event reaches [onProgress] with the
    step name ['imagery_chunk']. *)
Inductive Event : Type :=
| Progress (step : string) (data : ProgressData)
| Interpretation (text : string)
| Complete (result : option CompleteData)
| Error (errorMsg : string).

Definition ImageryChunk (t : string) : Event :=
  Progress "imagery_chunk" (mkProgressData (Some t) None None None).

(** What a pending [setTimeout] does when it fires. *)
Inductive Task : Type :=
| ShowImageryBox
| ShowInterpretationBox
| DispatchReadingCreated.

(** The state of the component that the callbacks, timers and effects
    read or write: the [useState] variables, the two refs of the typing
    queue ([typingIntervalRef] is [true] while the interval is set), and
    the pending [setTimeout] calls with their delay in milliseconds. *)
Record State : Type := mkState {
  currentStep : string;
  error : option string;
  cards : list CardData;
  displayedCards : list CardData;
  spreadType : SpreadType;
  readingId : option string;
  imageryDescription : string;
  interpretationDisplay : string;
  isImageryExpanded : bool;
  isInterpretationExpanded : bool;
  hasUserInteracted : bool;
  showImageryBox : bool;
  showInterpretationBox : bool;
  allCardsDisplayed : bool;
  interpretationBufferRef : string;
  typingIntervalRef : bool;
  timeouts : list (Z * Task)
}.

Definition setCurrentStep (v : string) (s : State) : State :=
  mkState v (error s) (cards s) (displayedCards s) (spreadType s)
    (readingId s) (imageryDescription s) (interpretationDisplay s)
    (isImageryExpanded s) (isInterpretationExpanded s)
    (hasUserInteracted s) (showImageryBox s) (showInterpretationBox s)
    (allCardsDisplayed s) (interpretationBufferRef s)
    (typingIntervalRef s) (timeouts s).

Definition setError (v : option string) (s : State) : State :=
  mkState (currentStep s) v (cards s) (displayedCards s) (spreadType s)
    (readingId s) (imageryDescription s) (interpretationDisplay s)
    (isImageryExpanded s) (isInterpretationExpanded s)
    (hasUserInteracted s) (showImageryBox s) (showInterpretationBox s)
    (allCardsDisplayed s) (interpretationBufferRef s)
    (typingIntervalRef s) (timeouts s).

Definition setCards (v : list CardData) (s : State) : State :=
  mkState (currentStep s) (error s) v (displayedCards s) (spreadType s)
    (readingId s) (imageryDescription s) (interpretationDisplay s)
    (isImageryExpanded s) (isInterpretationExpanded s)
    (hasUserInteracted s) (showImageryBox s) (showInterpretationBox s)
    (allCardsDisplayed s) (interpretationBufferRef s)
    (typingIntervalRef s) (timeouts s).

Definition setDisplayedCards (v : list CardData) (s : State) : State :=
  mkState (currentStep s) (error s) (cards s) v (spreadType s)
    (readingId s) (imageryDescription s) (interpretationDisplay s)
    (isImageryExpanded s) (isInterpretationExpanded s)
    (hasUserInteracted s) (showImageryBox s) (showInterpretationBox s)
    (allCardsDisplayed s) (interpretationBufferRef s)
    (typingIntervalRef s) (timeouts s).

Definition setSpreadType (v : SpreadType) (s : State) : State :=
  mkState (currentStep s) (error s) (cards s) (displayedCards s) v
    (readingId s) (imageryDescription s) (interpretationDisplay s)
    (isImageryExpanded s) (isInterpretationExpanded s)
    (hasUserInteracted s) (showImageryBox s) (showInterpretationBox s)
    (allCardsDisplayed s) (interpretationBufferRef s)
    (typingIntervalRef s) (timeouts s).

Definition setReadingId (v : option string) (s : State) : State :=
  mkState (currentStep s) (error s) (cards s) (displayedCards s)
    (spreadType s) v (imageryDescription s) (interpretationDisplay s)
    (isImageryExpanded s) (isInterpretationExpanded s)
    (hasUserInteracted s) (showImageryBox s) (showInterpretationBox s)
    (allCardsDisplayed s) (interpretationBufferRef s)
    (typingIntervalRef s) (timeouts s).

Definition setImageryDescription (v : string) (s : State) : State :=
  mkState (currentStep s) (error s) (cards s) (displayedCards s)
    (spreadType s) (readingId s) v (interpretationDisplay s)
    (isImageryExpanded s) (isInterpretationExpanded s)
    (hasUserInteracted s) (showImageryBox s) (showInterpretationBox s)
    (allCardsDisplayed s) (interpretationBufferRef s)
    (typingIntervalRef s) (timeouts s).

Definition setInterpretationDisplay (v : string) (s : State) : State :=
  mkState (currentStep s) (error s) (cards s) (displayedCards s)
    (spreadType s) (readingId s) (imageryDescription s) v
    (isImageryExpanded s) (isInterpretationExpanded s)
    (hasUserInteracted s) (showImageryBox s) (showInterpretationBox s)
    (allCardsDisplayed s) (interpretationBufferRef s)
    (typingIntervalRef s) (timeouts s).

Definition setIsImageryExpanded (v : bool) (s : State) : State :=
  mkState (currentStep s) (error s) (cards s) (displayedCards s)
    (spreadType s) (readingId s) (imageryDescription s)
    (interpretationDisplay s) v (isInterpretationExpanded s)
    (hasUserInteracted s) (showImageryBox s) (showInterpretationBox s)
    (allCardsDisplayed s) (interpretationBufferRef s)
    (typingIntervalRef s) (timeouts s).

Definition setIsInterpretationExpanded (v : bool) (s : State) : State :=
  mkState (currentStep s) (error s) (cards s) (displayedCards s)
    (spreadType s) (readingId s) (imageryDescription s)
    (interpretationDisplay s) (isImageryExpanded s) v
    (hasUserInteracted s) (showImageryBox s) (showInterpretationBox s)
    (allCardsDisplayed s) (interpretationBufferRef s)
    (typingIntervalRef s) (timeouts s).

Definition setHasUserInteracted (v : bool) (s : State) : State :=
  mkState (currentStep s) (error s) (cards s) (displayedCards s)
    (spreadType s) (readingId s) (imageryDescription s)
    (interpretationDisplay s) (isImageryExpanded s)
    (isInterpretationExpanded s) v (showImageryBox s)
    (showInterpretationBox s) (allCardsDisplayed s)
    (interpretationBufferRef s) (typingIntervalRef s) (timeouts s).

Definition setShowImageryBox (v : bool) (s : State) : State :=
  mkState (currentStep s) (error s) (cards s) (displayedCards s)
    (spreadType s) (readingId s) (imageryDescription s)
    (interpretationDisplay s) (isImageryExpanded s)
    (isInterpretationExpanded s) (hasUserInteracted s) v
    (showInterpretationBox s) (allCardsDisplayed s)
    (interpretationBufferRef s) (typingIntervalRef s) (timeouts s).

Definition setShowInterpretationBox (v : bool) (s : State) : State :=
  mkState (currentStep s) (error s) (cards s) (displayedCards s)
    (spreadType s) (readingId s) (imageryDescription s)
    (interpretationDisplay s) (isImageryExpanded s)
    (isInterpretationExpanded s) (hasUserInteracted s) (showImageryBox s)
    v (allCardsDisplayed s) (interpretationBufferRef s)
    (typingIntervalRef s) (timeouts s).

Definition setAllCardsDisplayed (v : bool) (s : State) : State :=
  mkState (currentStep s) (error s) (cards s) (displayedCards s)
    (spreadType s) (readingId s) (imageryDescription s)
    (interpretationDisplay s) (isImageryExpanded s)
    (isInterpretationExpanded s) (hasUserInteracted s) (showImageryBox s)
    (showInterpretationBox s) v (interpretationBufferRef s)
    (typingIntervalRef s) (timeouts s).

Definition writeInterpretationBufferRef (v : string) (s : State) : State :=
  mkState (currentStep s) (error s) (cards s) (displayedCards s)
    (spreadType s) (readingId s) (imageryDescription s)
    (interpretationDisplay s) (isImageryExpanded s)
    (isInterpretationExpanded s) (hasUserInteracted s) (showImageryBox s)
    (showInterpretationBox s) (allCardsDisplayed s) v
    (typingIntervalRef s) (timeouts s).

Definition writeTypingIntervalRef (v : bool) (s : State) : State :=
  mkState (currentStep s) (error s) (cards s) (displayedCards s)
    (spreadType s) (readingId s) (imageryDescription s)
    (interpretationDisplay s) (isImageryExpanded s)
    (isInterpretationExpanded s) (hasUserInteracted s) (showImageryBox s)
    (showInterpretationBox s) (allCardsDisplayed s)
    (interpretationBufferRef s) v (timeouts s).

Definition writeTimeouts (v : list (Z * Task)) (s : State) : State :=
  mkState (currentStep s) (error s) (cards s) (displayedCards s)
    (spreadType s) (readingId s) (imageryDescription s)
    (interpretationDisplay s) (isImageryExpanded s)
    (isInterpretationExpanded s) (hasUserInteracted s) (showImageryBox s)
    (showInterpretationBox s) (allCardsDisplayed s)
    (interpretationBufferRef s) (typingIntervalRef s) v.

(** The state variables that the callbacks read through the closure of
    the [handleSubmit] call that created them: the values of the render in
    which the form was submitted, fixed for the whole reading. *)
Record Captured : Type := mkCaptured {
  cap_imageryDescription : string;
  cap_interpretationDisplay : string;
  cap_showInterpretationBox : bool;
  cap_hasUserInteracted : bool;
  cap_isImageryExpanded : bool
}.

Definition capture (s : State) : Captured :=
  mkCaptured (imageryDescription s) (interpretationDisplay s)
    (showInterpretationBox s) (hasUserInteracted s) (isImageryExpanded s).

(** The state after mounting: the initial values of [useState] and
    [useRef]. *)
Definition mounted : State :=
  mkState "idle" None [] [] three_card None "" "" false false false false
    false false "" false [].

(** The reset at the start of [handleSubmit]. *)
Definition reset (s : State) : State :=
  setAllCardsDisplayed false
    (setShowInterpretationBox false
      (setShowImageryBox false
        (setHasUserInteracted false
          (setIsInterpretationExpanded false
            (setIsImageryExpanded false
              (setInterpretationDisplay ""
                (setImageryDescription ""
                  (writeInterpretationBufferRef ""
                    (writeTypingIntervalRef false
                      (setDisplayedCards []
                        (setCards []
                          (setError None
                            (setCurrentStep "question_analysis" s))))))))))))).

(** [setTimeout(task, delay)]. *)
Definition setTimeout (task : Task) (delay : Z) (s : State) : State :=
  writeTimeouts (timeouts s ++ [(delay, task)]) s.

(** *** The callbacks of [handleSubmit] *)

(** [a || b] where both may be [undefined]. *)
Definition orUndefined (a b : option string) : option string :=
  match a with
  | Some x => if Js.truthy x then a else b
  | None => b
  end.

Definition isTruthy (a : option string) : bool :=
  match a with
  | Some x => Js.truthy x
  | None => false
  end.

(** The mapping of one card in the [cards_selected] branch. *)
Definition toCardData (card : RawCard) : CardData :=
  mkCardData
    (orUndefined (raw_card_id card) (raw_id card))
    (orUndefined (raw_card_name_en card) (raw_name card))
    (raw_card_name_cn card)
    (raw_position card)
    (match raw_position_order card with
     | Some z => if Z.eqb z 0 then 0%Z else z
     | None => 0%Z
     end)
    (match raw_is_reversed card with
     | Some b => if b then true else false
     | None => false
     end)
    (raw_image_url card).

(** [data.selected_cards || data.cards] as a condition: an array is
    truthy even when empty. *)
Definition hasCardList (data : ProgressData) : bool :=
  match selected_cards data, data_cards data with
  | None, None => false
  | _, _ => true
  end.

(** [data.selected_cards || data.cards || []]. *)
Definition cardListOf (data : ProgressData) : list RawCard :=
  match selected_cards data with
  | Some l => l
  | None => match data_cards data with
            | Some l => l
            | None => []
            end
  end.

(** [startInterpretationTyping]: sets the interval unless it is set. *)
Definition startInterpretationTyping (s : State) : State :=
  if typingIntervalRef s then s else writeTypingIntervalRef true s.

(** The [onProgress] callback. *)
Definition onProgress (cap : Captured) (step : string) (data : ProgressData)
    (s : State) : State :=
  if String.eqb step "imagery_chunk" && isTruthy (text data) then
    let prev := imageryDescription s in
    let chunk := match text data with Some t => t | None => "" end in
    let s := if Nat.eqb (String.length prev) 0
             then setTimeout ShowImageryBox 0 s else s in
    setImageryDescription (prev ++ chunk) s
  else
    let s := setCurrentStep step s in
    if String.eqb step "cards_selected" && hasCardList data then
      let cardList := cardListOf data in
      let cardData := map toCardData cardList in
      let s := setCards cardData s in
      let s := if Nat.eqb (List.length cardData) 3
               then setSpreadType three_card s
               else if Nat.eqb (List.length cardData) 10
               then setSpreadType celtic_cross s
               else s in
      match cardData with
      | first :: _ => setDisplayedCards [first] s
      | [] => s
      end
    else if String.eqb step "rag_retrieved" then s
    else if String.eqb step "imagery_generated" then
      if isTruthy (imagery_description data)
         && negb (Js.truthy (cap_imageryDescription cap))
      then setImageryDescription
             (match imagery_description data with
              | Some t => t
              | None => ""
              end) s
      else s
    else if String.eqb step "interpretation_started" then
      let s := setCurrentStep "interpretation_started" s in
      if negb (cap_showInterpretationBox cap)
      then setTimeout ShowInterpretationBox 0 s else s
    else s.

(** The [onInterpretation] callback. *)
Definition onInterpretation (cap : Captured) (t : string) (s : State)
    : State :=
  let s := setCurrentStep "interpretation_streaming" s in
  let s := if Nat.eqb (String.length (cap_interpretationDisplay cap)) 0
           then setTimeout ShowInterpretationBox 0 s else s in
  let s := writeInterpretationBufferRef (interpretationBufferRef s ++ t) s in
  let s := startInterpretationTyping s in
  if negb (cap_hasUserInteracted cap) && negb (cap_isImageryExpanded cap)
  then setIsInterpretationExpanded true s else s.

(** The [onComplete] callback; [result] is [None] for [null]. *)
Definition onComplete (result : option CompleteData) (s : State) : State :=
  let s := setCurrentStep "complete" s in
  let id := match result with
            | Some r => orUndefined (reading_id r) (result_id r)
            | None => None
            end in
  let s := if isTruthy id then setReadingId id s else s in
  setTimeout DispatchReadingCreated 0 s.

(** The [onError] callback. *)
Definition onError (errorMsg : string) (s : State) : State :=
  let s := writeTypingIntervalRef false s in
  let s := writeInterpretationBufferRef "" s in
  let s := setInterpretationDisplay "" s in
  let s := setError (Some errorMsg) s in
  setCurrentStep "idle" s.

(** The callback that an event invokes. *)
Definition handle (cap : Captured) (e : Event) (s : State) : State :=
  match e with
  | Progress step data => onProgress cap step data s
  | Interpretation t => onInterpretation cap t s
  | Complete result => onComplete result s
  | Error errorMsg => onError errorMsg s
  end.

(** *** Timers and effects *)

(** The callback of the typing interval (every 50 ms while the interval
    is set): moves up to five characters from the queue to the displayed
    interpretation, and clears the interval when the queue is empty. *)
Definition typingTick (s : State) : State :=
  if typingIntervalRef s then
    if Nat.eqb (String.length (interpretationBufferRef s)) 0 then
      writeTypingIntervalRef false s
    else
      let nextChunk := Js.take 5 (interpretationBufferRef s) in
      let s := writeInterpretationBufferRef
                 (Js.substring (String.length nextChunk)
                    (interpretationBufferRef s)) s in
      setInterpretationDisplay (interpretationDisplay s ++ nextChunk) s
  else s.

Definition runTask (task : Task) (s : State) : State :=
  match task with
  | ShowImageryBox => setShowImageryBox true s
  | ShowInterpretationBox => setShowInterpretationBox true s
  | DispatchReadingCreated => s
  end.

Fixpoint removeAt {A : Type} (k : nat) (l : list A) : list A :=
  match k, l with
  | _, [] => []
  | O, _ :: rest => rest
  | S k', x :: rest => x :: removeAt k' rest
  end.

(** The [k]-th pending [setTimeout] fires. *)
Definition fireTimeout (k : nat) (s : State) : State :=
  match nth_error (timeouts s) k with
  | Some (_, task) => runTask task (writeTimeouts (removeAt k (timeouts s)) s)
  | None => s
  end.

(** [[...cards].sort((a, b) => a.position_order - b.position_order)]:
    the sort is stable, a card goes before the first card whose order is
    not smaller. *)
Fixpoint insertCard (c : CardData) (l : list CardData) : list CardData :=
  match l with
  | [] => [c]
  | d :: rest =>
      if Z.leb (position_order c) (position_order d) then c :: l
      else d :: insertCard c rest
  end.

Fixpoint sortCards (l : list CardData) : list CardData :=
  match l with
  | [] => []
  | c :: rest => insertCard c (sortCards rest)
  end.

(** The order of the comparator [a.position_order - b.position_order]. *)
Definition inOrder (a b : CardData) : Prop :=
  (position_order a <= position_order b)%Z.

(** [totalDisplayTime], in milliseconds. *)
Definition totalDisplayTime (t : SpreadType) : Q :=
  match t with
  | three_card => inject_Z 5000
  | celtic_cross => inject_Z 10000
  end.

(** [intervalPerCard = totalDisplayTime / sortedCards.length]. *)
Definition intervalPerCard (s : State) : Q :=
  Qdiv (totalDisplayTime (spreadType s))
       (inject_Z (Z.of_nat (List.length (sortCards (cards s))))).

(** The card display effect, the part that runs at once: without cards
    the displayed cards are cleared. *)
Definition cardEffect (s : State) : State :=
  if Nat.eqb (List.length (cards s)) 0 then setDisplayedCards [] s else s.

(** The timer that the card display effect leaves pending, with its
    delay: none without cards or when every card is displayed.  The
    effect runs again, and the timer starts anew, only when [cards],
    [displayedCards.length], [spreadType] or [allCardsDisplayed]
    change. *)
Definition cardTimer (s : State) : option Q :=
  if Nat.eqb (List.length (cards s)) 0 then None
  else if Nat.leb (List.length (sortCards (cards s)))
                  (List.length (displayedCards s)) then None
  else Some (intervalPerCard s).

(** The callback of the card display timer. *)
Definition fireCardTimer (s : State) : State :=
  match cardTimer s with
  | None => s
  | Some _ =>
      let sortedCards := sortCards (cards s) in
      let nextIndex := List.length (displayedCards s) in
      if Nat.ltb nextIndex (List.length sortedCards) then
        let newDisplayedCards := firstn (nextIndex + 1) sortedCards in
        let s1 := setDisplayedCards newDisplayedCards s in
        if Nat.eqb (List.length newDisplayedCards) (List.length sortedCards)
           && negb (allCardsDisplayed s)
        then setTimeout ShowImageryBox 1000 (setAllCardsDisplayed true s1)
        else s1
      else s
  end.

(** The interpretation box effect, the part that runs at once. *)
Definition interpretationBoxEffect (s : State) : State :=
  if String.eqb (currentStep s) "interpretation_started"
     && negb (showInterpretationBox s)
  then setShowInterpretationBox true s else s.

(** The one-second timer of the interpretation box effect: pending while
    the step is ['imagery_generated'] and the box is hidden. *)
Definition interpretationBoxTimer (s : State) : bool :=
  String.eqb (currentStep s) "imagery_generated"
  && negb (showInterpretationBox s).

Definition fireInterpretationBoxTimer (s : State) : State :=
  if interpretationBoxTimer s then setShowInterpretationBox true s else s.

(** The effects that run after a render. *)
Definition effects (s : State) : State :=
  interpretationBoxEffect (cardEffect s).

(** *** The component as a transition system *)

(** What can happen after the form was submitted: events arrive from the
    stream, or one of the timers fires.  [createReadingStream] invokes the
    callbacks of all the events that a chunk completes in one synchronous
    loop, and React batches the state updates of the loop: it renders, and
    runs the effects, once when the loop is over.  [ReceiveBatch events]
    is the arrival of the events that are handled between two renders, in
    order; [Receive e] is the arrival of an event that is handled alone. *)
Inductive Action : Type :=
| Receive (e : Event)
| TypingTick
| CardTimer
| InterpretationBoxTimer
| TimeoutFires (k : nat)
| ReceiveBatch (events : list Event).

(** The callbacks alone, folded over a list of events. *)
Definition replay (cap : Captured) (events : list Event) (s : State) : State :=
  fold_left (fun s e => handle cap e s) events s.

(** An action: its callbacks, then the render with its effects. *)
Definition step (cap : Captured) (a : Action) (s : State) : State :=
  effects
    (match a with
     | Receive e => handle cap e s
     | TypingTick => typingTick s
     | CardTimer => fireCardTimer s
     | InterpretationBoxTimer => fireInterpretationBoxTimer s
     | TimeoutFires k => fireTimeout k s
     | ReceiveBatch events => replay cap events s
     end).

Definition run (cap : Captured) (trace : list Action) (s : State) : State :=
  fold_left (fun s a => step cap a s) trace s.

(** The events of a trace, in order. *)
Fixpoint eventsOf (trace : list Action) : list Event :=
  match trace with
  | [] => []
  | Receive e :: rest => e :: eventsOf rest
  | ReceiveBatch events :: rest => events ++ eventsOf rest
  | _ :: rest => eventsOf rest
  end.

(** The reading state of the client: current step, cards, imagery text,
    interpretation text (displayed and still queued) and reading id. *)
Record ClientReadingState : Type := mkClientReadingState {
  crs_currentStep : string;
  crs_cards : list CardData;
  crs_imagery : string;
  crs_interpretation : string;
  crs_readingId : option string
}.

Definition readingState (s : State) : ClientReadingState :=
  mkClientReadingState (currentStep s) (cards s) (imageryDescription s)
    (interpretationDisplay s ++ interpretationBufferRef s) (readingId s).

(** A fresh instance: the component is mounted and the form submitted. *)
Definition fresh : State := reset mounted.
Definition freshCaptured : Captured := capture mounted.

(** *** Vocabulary of the properties *)

(** The text that an event carries as an [imagery_chunk]. *)
Definition chunkText (e : Event) : string :=
  match e with
  | Progress step data =>
      if String.eqb step "imagery_chunk"
      then match text data with Some t => t | None => "" end
      else ""
  | _ => ""
  end.

(** The concatenation of a list of texts, in order. *)
Definition joinText (l : list string) : string :=
  fold_right String.append "" l.

(** Whether [onProgress] adopts the full text of an [imagery_generated]
    event. *)
Definition adoptsFallback (cap : Captured) (e : Event) : bool :=
  match e with
  | Progress step data =>
      String.eqb step "imagery_generated"
      && isTruthy (imagery_description data)
      && negb (Js.truthy (cap_imageryDescription cap))
  | _ => false
  end.

(** Whether an event sets [cards], which makes the card display effect
    run again and start its timer anew. *)
Definition restartsReveal (e : Event) : bool :=
  match e with
  | Progress step data => String.eqb step "cards_selected" && hasCardList data
  | _ => false
  end.

(** An action that leaves the card reveal alone: it does not set [cards],
    which would make the card display effect run again and start its timer
    anew, and it is not a firing of the card display timer. *)
Definition quiet (a : Action) : bool :=
  match a with
  | Receive e => negb (restartsReveal e)
  | ReceiveBatch events => negb (existsb restartsReveal events)
  | CardTimer => false
  | TypingTick | InterpretationBoxTimer | TimeoutFires _ => true
  end.

(** The card-reveal timeline from the state [s] reached at time [t] (in
    milliseconds): before each firing of the card display timer other
    things happen, events arrive from the stream and other timers fire.
    An entry gives the time at which the card display timer fires and the
    cards displayed from then on.  The timer started when the effect last
    ran, at [t]; the timeline ends when no timer is pending or when an
    action restarts the reveal. *)
Fixpoint revealTimeline (cap : Captured) (t : Q) (s : State)
    (between : list (list Action)) : list (Q * list CardData) :=
  match between with
  | [] => []
  | trace :: rest =>
      if forallb quiet trace then
        let s1 := run cap trace s in
        match cardTimer s1 with
        | None => []
        | Some delay =>
            let s2 := step cap CardTimer s1 in
            (Qplus t delay, displayedCards s2)
              :: revealTimeline cap (Qplus t delay) s2 rest
        end
      else []
  end.

End HomePage.

(** ** Sample inputs *)

Module Samples.

Import Api.

(** A decoder for streams of one-byte characters: it keeps no state. *)
Definition byteDecode (d : unit) (value : list Byte.byte) : string * unit :=
  (string_of_list_byte value, d).

(** A parser for a handful of JSON texts. *)
Definition parseSample (s : string) : option Json :=
  if String.eqb s "{}" then Some (JObj [])
  else if String.eqb s "null" then Some JNull
  else if String.eqb s "[]" then Some (JArr [])
  else if String.eqb s "1" then Some (JNum 1)
  else None.

(** A line of the stream, with its line feed. *)
Definition line (s : string) : string := s ++ String Js.LF "".

Definition bytes (s : string) : list Byte.byte := list_byte_of_string s.

Import HomePage.

Definition card (name : string) (order : Z) : RawCard :=
  mkRawCard (Some name) None (Some name) None None None (Some order)
    (Some false) None.

Definition threeCards : ProgressData :=
  mkProgressData None
    (Some [card "The Fool" 0; card "The Moon" 1; card "The Sun" 2])
    None None.

(** A selection that does not arrive in position order. *)
Definition shuffledCards : ProgressData :=
  mkProgressData None
    (Some [card "The Sun" 2; card "The Fool" 0; card "The Moon" 1])
    None None.

(** A selection that arrives in the [cards] field, with a card that has
    neither [position_order] nor [is_reversed]. *)
Definition fallbackCards : ProgressData :=
  mkProgressData None None
    (Some [card "The Star" 1;
           mkRawCard None (Some "c7") None (Some "The Tower") None None None
             None None;
           card "The World" 2])
    None.

End Samples.

(** ** Further vocabulary for the client state machine *)

Module HomePageTerms.

Import HomePage.

(** The text that an event carries as an [interpretation] fragment. *)
Definition fragmentText (e : Event) : string :=
  match e with
  | Interpretation t => t
  | _ => ""
  end.

Definition isError (e : Event) : bool :=
  match e with
  | Error _ => true
  | _ => false
  end.

(** The typing interval fires [n] times in a row. *)
Definition typingTicks (n : nat) : list Action := repeat TypingTick n.

(** The typing queue is only non-empty while the typing interval is set. *)
Definition typingArmed (s : State) : Prop :=
  interpretationBufferRef s = "" \/ typingIntervalRef s = true.

(** The displayed cards are the first card of [cards] or a prefix of the
    cards in position order. *)
Definition displayedFromCards (s : State) : Prop :=
  displayedCards s = firstn 1 (cards s)
  \/ exists k, displayedCards s = firstn k (sortCards (cards s)).

(** The interpretation text of the reading state: displayed plus queued. *)
Definition interpretationText (s : State) : string :=
  crs_interpretation (readingState s).

End HomePageTerms.

(** ** Further vocabulary for the stream parser *)

Module ApiTerms.

Import Api.

(** A text without line feed. *)
Fixpoint noLF (s : string) : bool :=
  match s with
  | EmptyString => true
  | String c s' => negb (Ascii.eqb c Js.LF) && noLF s'
  end.

(** A line that sets the current event name. *)
Definition isEventLine (line : string) : bool :=
  Js.startsWith line "event: ".

(** The three lines that carry one event on the stream: the event line,
    the data line and an empty line. *)
Definition frame (name payload : string) : string :=
  "event: " ++ name ++ String Js.LF ("data: " ++ payload ++ String Js.LF
    (String Js.LF "")).

Fixpoint frames (l : list (string * string)) : string :=
  match l with
  | [] => ""
  | (name, payload) :: rest => frame name payload ++ frames rest
  end.

(** An event that [frame] writes on three lines and whose data line is
    not skipped. *)
Definition wellFormed (f : string * string) : Prop :=
  noLF (fst f) = true /\ noLF (snd f) = true /\ Js.trim (snd f) <> "".

(** The callback that one event of the stream is meant to invoke. *)
Definition frameCalls (JSON_parse : string -> option Json)
    (f : string * string) : list Call :=
  match JSON_parse (Js.trim (snd f)) with
  | Some data => dispatch (Js.trim (fst f)) data
  | None => []
  end.

(** Whether an event name lets the next data line invoke a callback. *)
Definition armed (ev : string) : nat :=
  if String.eqb ev "" then 0 else 1.

(** The decoded text of a whole response body. *)
Definition decoded {Decoder : Type} (newDecoder : Decoder)
    (decode : Decoder -> list Byte.byte -> string * Decoder)
    (chunks : list (list Byte.byte)) : string :=
  fst (decode newDecoder (concat chunks)).

End ApiTerms.

(** ** The card components: [ThreeCardSpread], [CelticCrossSpread],
    [CardModal], and the handlers of [HomePage] that connect them *)

Module CardViews.

Import HomePage.

(** [a.card_id === b.card_id], where a card id may be [undefined]. *)
Definition sameCardId (a b : CardData) : bool :=
  match card_id a, card_id b with
  | Some x, Some y => String.eqb x y
  | None, None => true
  | _, _ => false
  end.

(** [l.findIndex(p)]: the index of the first element that satisfies [p],
    or [-1]. *)
Fixpoint findIndex {A : Type} (p : A -> bool) (l : list A) : Z :=
  match l with
  | [] => (-1)%Z
  | x :: rest =>
      if p x then 0%Z
      else let i := findIndex p rest in
           if Z.ltb i 0 then (-1)%Z else (i + 1)%Z
  end.

(** [l[i]] for an integer [i]: [None] stands for [undefined]. *)
Definition at_ {A : Type} (l : list A) (i : Z) : option A :=
  if Z.ltb i 0 then None else nth_error l (Z.to_nat i).

(** [ThreeCardSpread], [handleCardClick(index)]: the index passed to
    [onCardClick]; [None] when reading [sortedCards[index].card_id]
    throws. *)
Definition threeCardClick (cards : list CardData) (index : Z) : option Z :=
  match at_ (sortCards cards) index with
  | Some sortedCard =>
      let originalIndex := findIndex (fun c => sameCardId c sortedCard) cards in
      Some (if Z.leb 0 originalIndex then originalIndex else index)
  | None => None
  end.

(** [CelticCrossSpread], [handleCardClick(card)]: the index passed to
    [onCardClick], if it is called. *)
Definition celticCrossClick (cards : list CardData) (card : CardData)
    : option Z :=
  let originalIndex := findIndex (fun c => sameCardId c card) cards in
  if Z.leb 0 originalIndex then Some originalIndex else None.

(** [CardModal]: [currentCard = sortedCards[currentIndex]]. *)
Definition currentCard (cards : list CardData) (currentIndex : Z)
    : option CardData :=
  at_ (sortCards cards) currentIndex.

Inductive Key : Type := Escape | ArrowLeft | ArrowRight | OtherKey.

(** What [CardModal] asks of its parent. *)
Inductive ModalCall : Type :=
| OnClose
| OnNavigate (index : Z).

(** [CardModal], [handleKeyDown]. *)
Definition handleKeyDown (cards : list CardData) (currentIndex : Z)
    (key : Key) : list ModalCall :=
  match key with
  | Escape => [OnClose]
  | ArrowLeft =>
      if Z.ltb 0 currentIndex then [OnNavigate (currentIndex - 1)] else []
  | ArrowRight =>
      if Z.ltb currentIndex (Z.of_nat (List.length (sortCards cards)) - 1)
      then [OnNavigate (currentIndex + 1)] else []
  | OtherKey => []
  end.

(** A touch coordinate that was recorded: [null] and [0] are falsy. *)
Definition touched (x : option Q) : bool :=
  match x with
  | Some q => negb (Qeq_bool q (inject_Z 0))
  | None => false
  end.

Definition Qlt_bool (a b : Q) : bool := negb (Qle_bool b a).

(** [CardModal], [onTouchEnd], with [minSwipeDistance = 50]. *)
Definition onTouchEnd (cards : list CardData) (currentIndex : Z)
    (touchStart touchEnd : option Q) : list ModalCall :=
  match touchStart, touchEnd with
  | Some a, Some b =>
      if negb (touched touchStart) || negb (touched touchEnd) then []
      else
        let distance := Qminus a b in
        let isLeftSwipe := Qlt_bool (inject_Z 50) distance in
        let isRightSwipe := Qlt_bool distance (inject_Z (-50)) in
        (if isLeftSwipe
            && Z.ltb currentIndex
                 (Z.of_nat (List.length (sortCards cards)) - 1)
         then [OnNavigate (currentIndex + 1)] else [])
        ++ (if isRightSwipe && Z.ltb 0 currentIndex
            then [OnNavigate (currentIndex - 1)] else [])
  | _, _ => []
  end.

(** What can be clicked in [CardModal]: the backdrop, the close button and
    the two navigation buttons. *)
Inductive Button : Type := Backdrop | CloseButton | PreviousButton | NextButton.

(** [CardModal], the [onClick] handlers.  A click inside the panel does not
    reach the backdrop ([e.stopPropagation()]). *)
Definition onClick (cards : list CardData) (currentIndex : Z) (b : Button)
    : list ModalCall :=
  match b with
  | Backdrop => [OnClose]
  | CloseButton => [OnClose]
  | PreviousButton =>
      if Z.ltb 0 currentIndex then [OnNavigate (currentIndex - 1)] else []
  | NextButton =>
      if Z.ltb currentIndex (Z.of_nat (List.length (sortCards cards)) - 1)
      then [OnNavigate (currentIndex + 1)] else []
  end.

(** [HomePage]: [selectedCardIndex] under [handleCardModalClose] and
    [handleCardModalNavigate]. *)
Definition applyModalCall (selectedCardIndex : option Z) (c : ModalCall)
    : option Z :=
  match c with
  | OnClose => None
  | OnNavigate index => Some index
  end.

(** What the user can do with the cards on the home page. *)
Inductive Gesture : Type :=
| ClickThreeCard (index : Z)
| ClickCelticCross (card : CardData)
| PressKey (key : Key)
| Swipe (touchStart touchEnd : option Q)
| ClickModal (b : Button).

(** The card modal is mounted when a card is selected and there are
    cards. *)
Definition modalMounted (cards : list CardData) (selectedCardIndex : option Z)
    : bool :=
  match selectedCardIndex with
  | Some _ => negb (Nat.eqb (List.length cards) 0)
  | None => false
  end.

(** [selectedCardIndex] after a gesture: a click on a card of the spread
    (the spread shows [displayedCards] and reports to [handleCardClick] of
    [HomePage]), or a key, swipe or click handled by the mounted
    [CardModal] (which shows [cards]; it listens to keys whenever it is
    mounted, to touches and clicks only when it renders a card). *)
Definition gesture (cards displayedCards : list CardData) (g : Gesture)
    (selectedCardIndex : option Z) : option Z :=
  match g with
  | ClickThreeCard index =>
      match threeCardClick displayedCards index with
      | Some i => Some i
      | None => selectedCardIndex
      end
  | ClickCelticCross card =>
      match celticCrossClick displayedCards card with
      | Some i => Some i
      | None => selectedCardIndex
      end
  | PressKey key =>
      match selectedCardIndex with
      | Some currentIndex =>
          if modalMounted cards selectedCardIndex
          then fold_left applyModalCall
                 (handleKeyDown cards currentIndex key) selectedCardIndex
          else selectedCardIndex
      | None => selectedCardIndex
      end
  | Swipe touchStart touchEnd =>
      match selectedCardIndex with
      | Some currentIndex =>
          match currentCard cards currentIndex with
          | Some _ =>
              if modalMounted cards selectedCardIndex
              then fold_left applyModalCall
                     (onTouchEnd cards currentIndex touchStart touchEnd)
                     selectedCardIndex
              else selectedCardIndex
          | None => selectedCardIndex
          end
      | None => selectedCardIndex
      end
  | ClickModal b =>
      match selectedCardIndex with
      | Some currentIndex =>
          match currentCard cards currentIndex with
          | Some _ =>
              if modalMounted cards selectedCardIndex
              then fold_left applyModalCall
                     (onClick cards currentIndex b) selectedCardIndex
              else selectedCardIndex
          | None => selectedCardIndex
          end
      | None => selectedCardIndex
      end
  end.

(** A selected index at which [CardModal] finds a card. *)
Definition validSelection (cards : list CardData) (selectedCardIndex : option Z)
    : Prop :=
  match selectedCardIndex with
  | Some i => (0 <= i < Z.of_nat (List.length cards))%Z
  | None => True
  end.

End CardViews.

(** ** Optional texts *)

Module JsText.

(** A text that may be [undefined] or [null], where it counts as true:
    [given o] is the text if there is one and it is not empty. *)
Definition given (o : option string) : option string :=
  match o with
  | Some s => if Js.truthy s then Some s else None
  | None => None
  end.

(** [s.includes(sub)]. *)
Fixpoint includes (s sub : string) : bool :=
  Js.startsWith s sub
  || match s with
     | EmptyString => false
     | String _ rest => includes rest sub
     end.

End JsText.

(** ** frontend/components/Sidebar.tsx: the pending readings and the dates *)

Module Sidebar.

Import JsText.

Record PendingReadingItem : Type := {
  id : string;
  question : string;
  source_page : option string;
  created_at : string;
  status : option string
}.

(** The detail of a [readingPending] event. *)
Record ReadingPendingEventDetail : Type := {
  pendingId : string;
  pendingQuestion : string;
  createdAt : string;
  sourcePage : option string
}.

(** The detail of a [readingCreated] or [readingFailed] event, as far as
    the handlers read it: both fields are optional. *)
Record ReadingSettledEventDetail : Type := {
  settledPendingId : option string;
  settledQuestion : option string
}.

(** [handleReadingPending]: the update of [pendingReadings]. *)
Definition handleReadingPending (detail : option ReadingPendingEventDetail)
    (prev : list PendingReadingItem) : list PendingReadingItem :=
  match detail with
  | None => prev
  | Some detail =>
      if existsb (fun item => String.eqb (id item) (pendingId detail)) prev
      then prev
      else
        let newItem := {| id := pendingId detail;
                          question := pendingQuestion detail;
                          source_page := sourcePage detail;
                          created_at := createdAt detail;
                          status := Some "pending" |} in
        firstn 10 (newItem :: prev)
  end.

(** [handleReadingCreated] and [handleReadingFailed]: the same update of
    [pendingReadings]. *)
Definition handleReadingSettled (detail : option ReadingSettledEventDetail)
    (prev : list PendingReadingItem) : list PendingReadingItem :=
  match detail with
  | None => []
  | Some detail =>
      match given (settledPendingId detail) with
      | Some pendingId =>
          filter (fun item => negb (String.eqb (id item) pendingId)) prev
      | None =>
          match given (settledQuestion detail) with
          | Some q =>
              filter (fun item => negb (String.eqb (question item) q)) prev
          | None => []
          end
      end
  end.

(** [loadReadings], once [listReadings] has answered: [readings] are the
    questions of [response.readings], [None] when that is not an array. *)
Definition readingsLoaded (readings : option (list string))
    (prev : list PendingReadingItem) : list PendingReadingItem :=
  match readings with
  | Some readings =>
      filter (fun pending =>
                negb (existsb (fun q => String.eqb q (question pending))
                        readings)) prev
  | None => prev
  end.

(** What changes [pendingReadings]. *)
Inductive Event : Type :=
| ReadingPending (detail : option ReadingPendingEventDetail)
| ReadingCreated (detail : option ReadingSettledEventDetail)
| ReadingFailed (detail : option ReadingSettledEventDetail)
| ReadingsLoaded (readings : option (list string))
| UserChanged (user : bool).

Definition handle (prev : list PendingReadingItem) (e : Event)
    : list PendingReadingItem :=
  match e with
  | ReadingPending detail => handleReadingPending detail prev
  | ReadingCreated detail => handleReadingSettled detail prev
  | ReadingFailed detail => handleReadingSettled detail prev
  | ReadingsLoaded readings => readingsLoaded readings prev
  | UserChanged user => if user then prev else []
  end.

Definition run (events : list Event) (prev : list PendingReadingItem)
    : list PendingReadingItem :=
  fold_left handle events prev.

(** What the handlers keep true of [pendingReadings]. *)
Definition pendingInvariant (prev : list PendingReadingItem) : Prop :=
  List.length prev <= 10 /\ NoDup (map id prev).

(** The texts of [formatDate], up to translation. *)
Inductive DateLabel : Type :=
| JustNow
| MinutesAgo (n : Z)
| HoursAgo (n : Z)
| DaysAgo (n : Z)
| LocaleDate.

(** [formatDate]: [date] is [new Date(dateString).getTime()], [None] for
    an invalid date (every comparison with [NaN] fails); [now] is
    [new Date().getTime()]. *)
Definition formatDate (date : option Z) (now : Z) : DateLabel :=
  match date with
  | None => LocaleDate
  | Some date =>
      let diffMs := (now - date)%Z in
      let diffMins := (diffMs / 60000)%Z in
      let diffHours := (diffMs / 3600000)%Z in
      let diffDays := (diffMs / 86400000)%Z in
      if Z.ltb diffMins 1 then JustNow
      else if Z.ltb diffMins 60 then MinutesAgo diffMins
      else if Z.ltb diffHours 24 then HoursAgo diffHours
      else if Z.ltb diffDays 7 then DaysAgo diffDays
      else LocaleDate
  end.

End Sidebar.

(** ** frontend/app/page.tsx: the window events of [handleSubmit] *)

Module ReadingEvents.

Import JsText.

Import Sidebar.

(** [pending-${Date.now()}-${Math.random().toString(36).slice(2, 8)}]:
    [now] and [random] are the two texts. *)
Definition pendingIdOf (now random : string) : string :=
  ("pending-" ++ now ++ "-" ++ random)%string.

(** The [readingPending] event, dispatched before the request. *)
Definition readingPending (pendingId trimmedQuestion pendingCreatedAt : string)
    : Event :=
  ReadingPending
    (Some {| Sidebar.pendingId := pendingId;
             pendingQuestion := trimmedQuestion;
             createdAt := pendingCreatedAt;
             sourcePage := Some "home" |}).

(** The [readingCreated] event, dispatched by the timeout that the
    [complete] callback sets. *)
Definition readingCreated (pendingId trimmedQuestion : string) : Event :=
  ReadingCreated
    (Some {| settledPendingId := Some pendingId;
             settledQuestion := Some trimmedQuestion |}).

(** The [readingFailed] event that the [error] callback dispatches. *)
Definition readingFailed (pendingId trimmedQuestion : string) : Event :=
  ReadingFailed
    (Some {| settledPendingId := Some pendingId;
             settledQuestion := Some trimmedQuestion |}).

(** The [readingFailed] event that is dispatched when the request throws,
    with [pendingId || undefined]. *)
Definition readingThrew (pendingId trimmedQuestion : string) : Event :=
  ReadingFailed
    (Some {| settledPendingId := given (Some pendingId);
             settledQuestion := Some trimmedQuestion |}).

(** An event that announces the pending reading [pendingId]. *)
Definition announces (pendingId : string) (e : Event) : bool :=
  match e with
  | ReadingPending (Some detail) =>
      String.eqb (Sidebar.pendingId detail) pendingId
  | _ => false
  end.

End ReadingEvents.

(** ** frontend/lib/api.ts: the address of the server *)

Module ApiUrl.

Definition slash : ascii := "/"%char.

Fixpoint allSlashes (s : string) : bool :=
  match s with
  | EmptyString => true
  | String c rest => Ascii.eqb c slash && allSlashes rest
  end.

(** [s.replace(/\/+$/, '')]: the expression matches at the first index
    from which slashes, at least one, reach the end of [s]; the match is
    replaced by the empty text. *)
Fixpoint removeTrailingSlashes (s : string) : string :=
  match s with
  | EmptyString => EmptyString
  | String c rest =>
      if Ascii.eqb c slash && allSlashes rest then EmptyString
      else String c (removeTrailingSlashes rest)
  end.

(** [process.env.NEXT_PUBLIC_API_URL || 'http://localhost:8000']. *)
Definition rawApiUrl (env : option string) : string :=
  match env with
  | Some url => Js.or url "http://localhost:8000"
  | None => "http://localhost:8000"
  end.

Definition API_URL (env : option string) : string :=
  removeTrailingSlashes (rawApiUrl env).

(** [streamUrl] of [createReadingStream]. *)
Definition streamUrl (env : option string) : string :=
  let baseUrl := removeTrailingSlashes (API_URL env) in
  let path := "/api/tarot/reading/stream" in
  baseUrl ++ path.

(** [s.endsWith('/')]. *)
Fixpoint endsWithSlash (s : string) : bool :=
  match s with
  | EmptyString => false
  | String c EmptyString => Ascii.eqb c slash
  | String _ rest => endsWithSlash rest
  end.

Fixpoint slashes (n : nat) : string :=
  match n with
  | O => EmptyString
  | S n' => String slash (slashes n')
  end.

End ApiUrl.

(** ** JavaScript numbers as texts *)

Module JsNumber.

(** The value of a digit of [parseInt]: [0-9], [a-z] and [A-Z]. *)
Definition digitValue (c : ascii) : option Z :=
  let n := Z.of_nat (nat_of_ascii c) in
  if Z.leb 48 n && Z.leb n 57 then Some (n - 48)%Z
  else if Z.leb 97 n && Z.leb n 122 then Some (n - 87)%Z
  else if Z.leb 65 n && Z.leb n 90 then Some (n - 55)%Z
  else None.

(** The value of the longest prefix of [s] made of digits of the radix,
    after the digits read so far; [None] as long as no digit was read. *)
Fixpoint parseDigits (radix : Z) (s : string) (acc : option Z) : option Z :=
  match s with
  | EmptyString => acc
  | String c rest =>
      match digitValue c with
      | Some d =>
          if Z.ltb d radix
          then parseDigits radix rest
                 (Some match acc with
                       | Some v => (v * radix + d)%Z
                       | None => d
                       end)
          else acc
      | None => acc
      end
  end.

(** [parseInt(text)] without a radix; [None] stands for [NaN].  The value
    is exact for integers that a number represents exactly. *)
Definition parseInt (text : string) : option Z :=
  let s := Js.trimStart text in
  let '(sign, s) :=
    match s with
    | String c rest =>
        if Ascii.eqb c "-" then ((-1)%Z, rest)
        else if Ascii.eqb c "+" then (1%Z, rest)
        else (1%Z, s)
    | EmptyString => (1%Z, s)
    end in
  let '(radix, s) :=
    if Js.startsWith s "0x" || Js.startsWith s "0X"
    then (16%Z, Js.substring 2 s)
    else (10%Z, s) in
  option_map (Z.mul sign) (parseDigits radix s None).

Definition digitChar (d : Z) : ascii := ascii_of_nat (48 + Z.to_nat d).

(** The decimal digits of [n >= 0] in front of [acc]; [fuel] bounds the
    number of digits. *)
Fixpoint digits (fuel : nat) (n : Z) (acc : string) : string :=
  match fuel with
  | O => acc
  | S fuel' =>
      let acc' := String (digitChar (n mod 10)) acc in
      if Z.ltb n 10 then acc' else digits fuel' (n / 10) acc'
  end.

(** [n.toString()] for an integer [n] (below 10^21 in size, where the
    decimal notation is used). *)
Definition toString (n : Z) : string :=
  if Z.ltb n 0
  then String "-" (digits (S (Z.to_nat (Z.log2 (- n)))) (- n) "")
  else digits (S (Z.to_nat (Z.log2 n))) n "".

(** [a > b] on numbers. *)
Definition gt (a b : Q) : bool := negb (Qle_bool a b).

End JsNumber.

(** ** frontend/lib/api.ts: the interceptors of [apiClient] *)

Module Auth.

Import JsText.

(** [localStorage]. *)
Definition Storage : Type := string -> option string.

Definition getItem (storage : Storage) (key : string) : option string :=
  storage key.

Definition setItem (storage : Storage) (key value : string) : Storage :=
  fun k => if String.eqb k key then Some value else storage k.

Definition removeItem (storage : Storage) (key : string) : Storage :=
  fun k => if String.eqb k key then None else storage k.

(** The part of a request configuration that the interceptors use. *)
Record RequestConfig : Type := {
  url : option string;
  _retry : bool;
  Authorization : option string
}.

Definition setRetry (config : RequestConfig) : RequestConfig :=
  {| url := url config; _retry := true;
     Authorization := Authorization config |}.

Definition setAuthorization (config : RequestConfig) (value : option string)
    : RequestConfig :=
  {| url := url config; _retry := _retry config; Authorization := value |}.

(** [config.url?.includes(sub)], [undefined] counting as [false]. *)
Definition urlIncludes (config : RequestConfig) (sub : string) : bool :=
  match url config with
  | Some u => includes u sub
  | None => false
  end.

(** The request interceptor. *)
Definition requestInterceptor (storage : Storage) (config : RequestConfig)
    : RequestConfig :=
  match given (getItem storage "access_token") with
  | Some token => setAuthorization config (Some ("Bearer " ++ token)%string)
  | None => setAuthorization config None
  end.

(** The five [removeItem] calls that end a session. *)
Definition clearSession (storage : Storage) : Storage :=
  removeItem
    (removeItem
       (removeItem
          (removeItem (removeItem storage "access_token") "refresh_token")
          "user_id")
       "user_email")
    "last_activity".

Definition sessionKeys : list string :=
  ["access_token"; "refresh_token"; "user_id"; "user_email"; "last_activity"].

(** The check for thirty days without activity, of the response
    interceptor and of [checkAuth]. *)
Definition expired (lastActivity : option string) (now : Z) : bool :=
  match given lastActivity with
  | Some lastActivity =>
      match JsNumber.parseInt lastActivity with
      | Some last =>
          let daysSinceLastActivity :=
            Qdiv (inject_Z (now - last)) (inject_Z (1000 * 60 * 60 * 24)) in
          JsNumber.gt daysSinceLastActivity (inject_Z 30)
      | None => false
      end
  | None => false
  end.

(** What a request that went through the response interceptor fails
    with. *)
Inductive Error : Type :=
| AxiosError (status : option Z)
| SessionExpired
| InvalidRefreshResponse
| RefreshRequestFailed
| TokenRefreshFailed.

(** What the interceptor does towards the outside, in the order in which
    it happens: it rejects a request, sends it again through [apiClient],
    or posts to the refresh endpoint. *)
Inductive Outcome : Type :=
| Rejected (config : RequestConfig) (error : Error)
| Retried (config : RequestConfig)
| RefreshPosted (refresh_token : string).

(** The interceptor state: [failedQueue] holds the request of each queued
    promise, [awaiting] the request of each call of the error handler that
    waits for the answer of the refresh endpoint. *)
Record Client : Type := {
  storage : Storage;
  isRefreshing : bool;
  failedQueue : list RequestConfig;
  awaiting : list RequestConfig
}.

Definition initial (storage : Storage) : Client :=
  {| storage := storage; isRefreshing := false; failedQueue := [];
     awaiting := [] |}.

(** A queued promise, once [processQueue] has settled it. *)
Definition settle (error : option Error) (token : option string)
    (originalRequest : RequestConfig) : Outcome :=
  match error with
  | Some e => Rejected originalRequest e
  | None =>
      match given token with
      | Some token =>
          Retried (setAuthorization originalRequest
                     (Some ("Bearer " ++ token)%string))
      | None => Rejected originalRequest TokenRefreshFailed
      end
  end.

Definition processQueue (error : option Error) (token : option string)
    (queue : list RequestConfig) : list Outcome :=
  map (settle error token) queue.

(** The fulfilled handler of the response interceptor. *)
Definition onFulfilled (c : Client) (config : RequestConfig) (now : Z)
    : Client :=
  if negb (urlIncludes config "/refresh")
  then {| storage := setItem (storage c) "last_activity"
                       (JsNumber.toString now);
          isRefreshing := isRefreshing c;
          failedQueue := failedQueue c;
          awaiting := awaiting c |}
  else c.

(** The condition under which the error handler tries to refresh. *)
Definition refreshable (status : option Z) (config : RequestConfig) : bool :=
  match status with Some s => Z.eqb s 401 | None => false end
  && negb (_retry config)
  && negb (urlIncludes config "/refresh")
  && negb (urlIncludes config "/signin").

(** The end of a refresh attempt that fails: the session is cleared, the
    queue is rejected with [queueError], the request with [error]. *)
Definition giveUp (c : Client) (awaiting' : list RequestConfig)
    (originalRequest : RequestConfig) (queueError error : Error)
    : Client * list Outcome :=
  ({| storage := clearSession (storage c);
      isRefreshing := false;
      failedQueue := [];
      awaiting := awaiting' |},
   processQueue (Some queueError) None (failedQueue c)
   ++ [Rejected originalRequest error]).

(** The rejected handler of the response interceptor, up to its
    [await]. *)
Definition onRejected (c : Client) (config : RequestConfig)
    (status : option Z) (now : Z) : Client * list Outcome :=
  let error := AxiosError status in
  if refreshable status config then
    if isRefreshing c then
      ({| storage := storage c;
          isRefreshing := isRefreshing c;
          failedQueue := failedQueue c ++ [config];
          awaiting := awaiting c |}, [])
    else
      let originalRequest := setRetry config in
      match given (getItem (storage c) "refresh_token") with
      | None => giveUp c (awaiting c) originalRequest error error
      | Some refreshToken =>
          if expired (getItem (storage c) "last_activity") now
          then giveUp c (awaiting c) originalRequest SessionExpired error
          else
            ({| storage := storage c;
                isRefreshing := true;
                failedQueue := failedQueue c;
                awaiting := awaiting c ++ [originalRequest] |},
             [RefreshPosted refreshToken])
      end
  else (c, [Rejected config error]).

(** The answer of the refresh endpoint, as far as it is read; [user_id]
    and [email] are the texts that [setItem] stores. *)
Record RefreshData : Type := {
  access_token : option string;
  refresh_token : option string;
  user_id : string;
  email : string
}.

(** The rejected handler after its [await], for the waiting call number
    [i]: [answer] is the data of the response, [None] when the call of the
    refresh endpoint failed.  With both tokens, [processQueue] resolves the
    queued promises first, but the callbacks of these promises, which send
    the queued requests again, only run when the handler has returned:
    the handler sends its own request again before them. *)
Definition afterRefresh (c : Client) (i : nat) (answer : option RefreshData)
    (now : Z) : Client * list Outcome :=
  match nth_error (awaiting c) i with
  | None => (c, [])
  | Some originalRequest =>
      let awaiting' := HomePage.removeAt i (awaiting c) in
      match answer with
      | None =>
          giveUp c awaiting' originalRequest RefreshRequestFailed
            RefreshRequestFailed
      | Some data =>
          match given (access_token data), given (refresh_token data) with
          | Some access_token, Some newRefreshToken =>
              ({| storage :=
                    setItem
                      (setItem
                         (setItem
                            (setItem
                               (setItem (storage c)
                                  "access_token" access_token)
                               "refresh_token" newRefreshToken)
                            "user_id" (user_id data))
                         "user_email" (email data))
                      "last_activity" (JsNumber.toString now);
                  isRefreshing := false;
                  failedQueue := [];
                  awaiting := awaiting' |},
               Retried (setAuthorization originalRequest
                          (Some ("Bearer " ++ access_token)%string))
               :: processQueue None (Some access_token) (failedQueue c))
          | _, _ =>
              giveUp c awaiting' originalRequest InvalidRefreshResponse
                InvalidRefreshResponse
          end
      end
  end.

(** What the interceptor reacts to. *)
Inductive Event : Type :=
| ResponseOk (config : RequestConfig) (now : Z)
| ResponseError (config : RequestConfig) (status : option Z) (now : Z)
| RefreshAnswered (i : nat) (answer : option RefreshData) (now : Z).

Definition handle (c : Client) (e : Event) : Client * list Outcome :=
  match e with
  | ResponseOk config now => (onFulfilled c config now, [])
  | ResponseError config status now => onRejected c config status now
  | RefreshAnswered i answer now => afterRefresh c i answer now
  end.

(** The interceptor over a sequence of events, with everything it did. *)
Fixpoint run (events : list Event) (c : Client) : Client * list Outcome :=
  match events with
  | [] => (c, [])
  | e :: rest =>
      let '(c1, out1) := handle c e in
      let '(c2, out2) := run rest c1 in
      (c2, out1 ++ out2)
  end.

Definition isSettled (o : Outcome) : bool :=
  match o with
  | Rejected _ _ | Retried _ => true
  | RefreshPosted _ => false
  end.

Definition isResponseError (e : Event) : bool :=
  match e with
  | ResponseError _ _ _ => true
  | _ => false
  end.

(** The requests that the outcomes settle, and the error responses among
    the events. *)
Definition settledCount (outcomes : list Outcome) : nat :=
  count_occ Bool.bool_dec (map isSettled outcomes) true.

Definition responseErrors (events : list Event) : nat :=
  count_occ Bool.bool_dec (map isResponseError events) true.

(** The refresh flag is set exactly while one call of the error handler
    waits for the refresh endpoint; nothing is queued otherwise. *)
Definition refreshInvariant (c : Client) : Prop :=
  (isRefreshing c = true -> List.length (awaiting c) = 1)
  /\ (isRefreshing c = false -> failedQueue c = [] /\ awaiting c = []).

(** No session key is stored. *)
Definition signedOut (storage : Storage) : Prop :=
  forall key : string, In key sessionKeys -> getItem storage key = None.

(** [checkAuth] of the [AuthProvider], up to its first [await]. *)
Inductive AuthCheck : Type :=
| SessionEnded
| FetchUser
| NotAuthenticated.

Definition checkAuth (storage : Storage) (now : Z) : Storage * AuthCheck :=
  let token := getItem storage "access_token" in
  let refreshToken := getItem storage "refresh_token" in
  let lastActivity := getItem storage "last_activity" in
  if expired lastActivity now then (clearSession storage, SessionEnded)
  else
    match given token, given refreshToken with
    | None, None => (storage, NotAuthenticated)
    | _, _ => (storage, FetchUser)
    end.

End Auth.

(** ** Properties of the string primitives *)

Module JsProps.

Lemma append_nil_r (s : string) : (s ++ "")%string = s.
Proof. induction s as [|c s IH]; simpl; congruence. Qed.

Lemma append_assoc (a b c : string) :
  ((a ++ b) ++ c)%string = (a ++ (b ++ c))%string.
Proof. induction a as [|x a IH]; simpl; congruence. Qed.

(** [b.slice(0, n) + b.slice(b.slice(0, n).length)] is [b]. *)
Lemma take_substring (n : nat) (b : string) :
  (Js.take n b ++ Js.substring (String.length (Js.take n b)) b)%string = b.
Proof.
  revert b. induction n as [|n IH]; intros [|c b]; simpl; try reflexivity.
  rewrite IH. reflexivity.
Qed.

End JsProps.

(** ** Properties of the stream parser *)

Module ApiProps.

Import Api JsProps.

Lemma or_empty (s : string) : Js.or s "" = s.
Proof. destruct s; reflexivity. Qed.

Lemma split_not_nil (s : string) : Js.split s <> [].
Proof.
  induction s as [|c s IH]; simpl; [discriminate|].
  destruct (Ascii.eqb c Js.LF); [discriminate|].
  destruct (Js.split s); discriminate.
Qed.

(** Splitting a text in two pieces: the complete lines of the first piece,
    then the split of its unfinished last line followed by the second
    piece. *)
Lemma split_app (a b : string) :
  Js.split (a ++ b)
  = removelast (Js.split a) ++ Js.split (last (Js.split a) "" ++ b).
Proof.
  induction a as [|c a IH]; simpl; [reflexivity|].
  pose proof (split_not_nil a) as Hne.
  destruct (Ascii.eqb c Js.LF) eqn:Ec.
  - destruct (Js.split a) as [|h t] eqn:E; [congruence|].
    rewrite IH. reflexivity.
  - rewrite IH.
    destruct (Js.split a) as [|h [|h' t']] eqn:E; [congruence| |reflexivity].
    simpl. rewrite Ec.
    pose proof (split_not_nil (h ++ b)) as Hne'.
    destruct (Js.split (h ++ b)); [congruence|reflexivity].
Qed.

Lemma last_app_not_nil (l1 l2 : list string) :
  l2 <> [] -> last (l1 ++ l2) "" = last l2 "".
Proof.
  intros H. induction l1 as [|x l1 IH]; [reflexivity|].
  simpl. destruct (l1 ++ l2) eqn:E; [|exact IH].
  apply app_eq_nil in E. tauto.
Qed.

Section Parser.

Variable JSON_parse : string -> option Json.

Lemma processLines_app (ev : string) (l1 l2 : list string) :
  processLines JSON_parse ev (l1 ++ l2)
  = let '(ev1, calls1) := processLines JSON_parse ev l1 in
    let '(ev2, calls2) := processLines JSON_parse ev1 l2 in
    (ev2, calls1 ++ calls2).
Proof.
  revert ev. induction l1 as [|x l1 IH]; intros ev; simpl.
  - destruct (processLines JSON_parse ev l2); reflexivity.
  - destruct (processLine JSON_parse ev x) as [ev1 c1].
    rewrite IH.
    destruct (processLines JSON_parse ev1 l1) as [ev2 c2].
    destruct (processLines JSON_parse ev2 l2) as [ev3 c3].
    rewrite app_assoc. reflexivity.
Qed.

(** Feeding a text in two pieces is feeding the pieces one after the
    other. *)
Lemma feed_app (st : State) (a b : string) :
  feed JSON_parse st (a ++ b)
  = let '(st1, calls1) := feed JSON_parse st a in
    let '(st2, calls2) := feed JSON_parse st1 b in
    (st2, calls1 ++ calls2).
Proof.
  unfold feed; cbv zeta.
  rewrite <- append_assoc, split_app.
  set (la := Js.split (buffer st ++ a)).
  assert (Hb : Js.split (last la "" ++ b) <> []) by apply split_not_nil.
  rewrite (removelast_app _ Hb), (last_app_not_nil _ _ Hb).
  rewrite processLines_app.
  destruct (processLines JSON_parse (currentEvent st) (removelast la))
    as [ev1 c1].
  cbn [buffer currentEvent]. rewrite (or_empty (last la "")).
  destruct (processLines JSON_parse ev1
              (removelast (Js.split (last la "" ++ b)))) as [ev2 c2].
  reflexivity.
Qed.

Lemma dispatch_unknown (ev : string) (data : Json) :
  unknownEvent ev -> dispatch ev data = [].
Proof.
  intros (H1 & H2 & H3 & H4 & H5). unfold dispatch.
  apply String.eqb_neq in H1, H2, H3, H4, H5.
  rewrite H1, H2, H3, H5, H4. reflexivity.
Qed.

Lemma data_line_not_event_line (line : string) :
  Js.startsWith line "data: " = true ->
  Js.startsWith line "event: " = false.
Proof.
  destruct line as [|c line]; cbn [Js.startsWith]; intros H;
    [discriminate H|].
  destruct (Ascii.eqb_spec "d" c) as [<-|]; [reflexivity|discriminate H].
Qed.

(** A line that invokes no callback only passes its event name on. *)
Lemma processLines_skip (ev ev' line : string) (rest : list string) :
  processLine JSON_parse ev line = (ev', []) ->
  processLines JSON_parse ev (line :: rest)
  = processLines JSON_parse ev' rest.
Proof.
  intros H. cbn [processLines]. rewrite H.
  destruct (processLines JSON_parse ev' rest); reflexivity.
Qed.

(** C9 (amended). A data line never stops the loop.  With an empty
    payload it is skipped as a whole: no callback, the current event
    name stays, the following lines are handled as if the line was not
    there.  With a payload that is not empty the current event name is
    empty afterwards, and no callback is invoked when the payload does
    not parse or when the current event name is none of [progress],
    [imagery_chunk], [interpretation], [complete], [error]; the
    following lines are handled under the empty name. *)
Theorem data_line_total (ev line : string) (rest : list string) :
  Js.startsWith line "data: " = true ->
  let dataStr := Js.trim (Js.substring 6 line) in
  (dataStr = "" ->
     processLine JSON_parse ev line = (ev, [])
     /\ processLines JSON_parse ev (line :: rest)
        = processLines JSON_parse ev rest)
  /\ (dataStr <> "" ->
        fst (processLine JSON_parse ev line) = ""
        /\ (JSON_parse dataStr = None \/ unknownEvent ev ->
              processLine JSON_parse ev line = ("", [])
              /\ processLines JSON_parse ev (line :: rest)
                 = processLines JSON_parse "" rest)).
Proof.
  intros Hdata dataStr.
  assert (Hunfold :
    processLine JSON_parse ev line
    = if negb (Js.truthy dataStr) then (ev, [])
      else ("", match JSON_parse dataStr with
                | Some data => dispatch ev data
                | None => []
                end)).
  { unfold processLine.
    rewrite (data_line_not_event_line line Hdata), Hdata. reflexivity. }
  clearbody dataStr. split.
  - intros E. rewrite E in Hunfold. cbn in Hunfold.
    split; [exact Hunfold|]. apply processLines_skip. exact Hunfold.
  - intros NE.
    assert (T : negb (Js.truthy dataStr) = false).
    { destruct dataStr; [contradiction NE; reflexivity|reflexivity]. }
    rewrite T in Hunfold. split; [rewrite Hunfold; reflexivity|].
    intros H.
    assert (C : processLine JSON_parse ev line = ("", [])).
    { rewrite Hunfold. f_equal.
      destruct H as [H|H]; [rewrite H; reflexivity|].
      destruct (JSON_parse dataStr); [apply dispatch_unknown; exact H|].
      reflexivity. }
    split; [exact C|]. apply processLines_skip. exact C.
Qed.

Variable Decoder : Type.
Variable newDecoder : Decoder.
Variable decode : Decoder -> list Byte.byte -> string * Decoder.

(** What the streaming decoder guarantees: nothing comes out of an empty
    chunk, and cutting the bytes in two does not change the text. *)
Hypothesis decode_nil : forall d, decode d [] = ("", d).
Hypothesis decode_app : forall d a b,
  decode d (a ++ b)
  = let '(s1, d1) := decode d a in
    let '(s2, d2) := decode d1 b in
    ((s1 ++ s2)%string, d2).

(** A non-empty list of chunks is handled as its concatenation in one
    chunk. *)
Lemma readLoop_concat (rest : list (list Byte.byte)) :
  forall d st value,
    readLoop JSON_parse decode d st (value :: rest)
    = feed JSON_parse st (fst (decode d (concat (value :: rest)))).
Proof.
  induction rest as [|value2 rest IH]; intros d st value.
  - simpl. rewrite app_nil_r.
    destruct (decode d value) as [text d1]; simpl.
    destruct (feed JSON_parse st text) as [st1 c1].
    rewrite app_nil_r. reflexivity.
  - change (concat (value :: value2 :: rest))
      with (value ++ concat (value2 :: rest)).
    rewrite decode_app.
    change (readLoop JSON_parse decode d st (value :: value2 :: rest))
      with (let '(text, d1) := decode d value in
            let '(st1, calls1) := feed JSON_parse st text in
            let '(st2, calls2) :=
              readLoop JSON_parse decode d1 st1 (value2 :: rest) in
            (st2, calls1 ++ calls2)).
    destruct (decode d value) as [text d1].
    destruct (feed JSON_parse st text) as [st1 c1] eqn:Ef.
    rewrite IH.
    destruct (decode d1 (concat (value2 :: rest))) as [text2 d2]; simpl.
    rewrite feed_app, Ef. reflexivity.
Qed.

Lemma createReadingStream_concat (chunks : list (list Byte.byte)) :
  createReadingStream JSON_parse newDecoder decode chunks
  = createReadingStream JSON_parse newDecoder decode [concat chunks].
Proof.
  unfold createReadingStream.
  destruct chunks as [|value rest].
  - simpl. rewrite decode_nil. reflexivity.
  - rewrite (readLoop_concat rest), (readLoop_concat []).
    simpl concat at 2. rewrite app_nil_r. reflexivity.
Qed.

(** C8. Chunk-boundary invariance: two ways of cutting the same bytes
    into chunks make [createReadingStream] invoke the same callbacks,
    with the same arguments, in the same order. *)
Theorem chunk_boundary_invariance (chunks1 chunks2 : list (list Byte.byte)) :
  concat chunks1 = concat chunks2 ->
  createReadingStream JSON_parse newDecoder decode chunks1
  = createReadingStream JSON_parse newDecoder decode chunks2.
Proof.
  intros H.
  rewrite (createReadingStream_concat chunks1).
  rewrite (createReadingStream_concat chunks2).
  rewrite H. reflexivity.
Qed.

End Parser.

Lemma byteDecode_nil (d : unit) : Samples.byteDecode d [] = ("", d).
Proof. reflexivity. Qed.

Lemma string_of_list_byte_app (a b : list Byte.byte) :
  string_of_list_byte (a ++ b)
  = (string_of_list_byte a ++ string_of_list_byte b)%string.
Proof.
  unfold string_of_list_byte.
  induction a as [|x a IH]; [reflexivity|].
  cbn [map app string_of_list_ascii String.append]. rewrite IH. reflexivity.
Qed.

Lemma byteDecode_app (d : unit) (a b : list Byte.byte) :
  Samples.byteDecode d (a ++ b)
  = let '(s1, d1) := Samples.byteDecode d a in
    let '(s2, d2) := Samples.byteDecode d1 b in
    ((s1 ++ s2)%string, d2).
Proof. unfold Samples.byteDecode. rewrite string_of_list_byte_app. reflexivity. Qed.

(** A [complete] event cut in the middle of its first line. *)
Example stream_cut_mid_line :
  createReadingStream Samples.parseSample tt Samples.byteDecode
    [Samples.bytes "event: comp";
     Samples.bytes (Samples.line "lete" ++ Samples.line "data: {}")]
  = [OnComplete (JObj [])].
Proof. vm_compute. reflexivity. Qed.

Lemma chunk_boundary_invariance_witness :
  createReadingStream Samples.parseSample tt Samples.byteDecode
    [Samples.bytes "event: comp";
     Samples.bytes (Samples.line "lete" ++ Samples.line "data: {}")]
  = createReadingStream Samples.parseSample tt Samples.byteDecode
      [Samples.bytes (Samples.line "event: complete");
       Samples.bytes (Samples.line "data: {}")].
Proof.
  apply (chunk_boundary_invariance Samples.parseSample unit tt
           Samples.byteDecode byteDecode_nil byteDecode_app).
  vm_compute. reflexivity.
Defined.

Lemma data_line_total_witness :
  processLine Samples.parseSample "progress" "data: oops" = ("", [])
  /\ processLines Samples.parseSample "progress"
       ["data: oops"; "event: complete"; "data: {}"]
     = ("", [OnComplete (JObj [])]).
Proof.
  destruct (data_line_total Samples.parseSample "progress" "data: oops"
              ["event: complete"; "data: {}"] eq_refl) as [_ H].
  destruct H as [_ H]; [discriminate|].
  destruct H as [H1 H2]; [left; reflexivity|].
  split; [exact H1|]. rewrite H2. reflexivity.
Defined.

(** C9 as stated fails on a data line with an empty payload: the current
    event name is not reset, and the next data line is dispatched under
    it. *)
Lemma data_line_empty_payload_keeps_event :
  processLine Samples.parseSample "progress" "data: " = ("progress", [])
  /\ fst (processLine Samples.parseSample "progress" "data: ") <> ""
  /\ createReadingStream Samples.parseSample tt Samples.byteDecode
       [Samples.bytes (Samples.line "event: progress" ++ Samples.line "data: "
                       ++ Samples.line "data: {}")]
     = [OnProgress (JStr "unknown") (JObj [])].
Proof.
  split; [reflexivity|]. split; [discriminate|]. vm_compute. reflexivity.
Qed.

End ApiProps.

(** ** Properties of the client state machine *)

Module HomePageProps.

Import HomePage JsProps.

(** *** The [error] event *)

(** C6 (amended). On an error the current step goes back to ['idle'], the
    message is stored in [error], the typing interval is cleared and the
    interpretation text, displayed or still queued, is discarded; the
    imagery text, the cards and the displayed cards stay as they are. *)
Theorem error_resets_interpretation (errorMsg : string) (s : State) :
  let s' := onError errorMsg s in
  currentStep s' = "idle"
  /\ error s' = Some errorMsg
  /\ typingIntervalRef s' = false
  /\ interpretationBufferRef s' = ""
  /\ interpretationDisplay s' = ""
  /\ imageryDescription s' = imageryDescription s
  /\ cards s' = cards s
  /\ displayedCards s' = displayedCards s.
Proof. repeat split. Qed.

(** C6 as stated fails: the imagery text streamed before the error is
    still in the imagery buffer after it, and so are the cards. *)
Lemma error_keeps_imagery_buffer :
  let s := run freshCaptured
             [Receive (Progress "cards_selected" Samples.threeCards);
              Receive (ImageryChunk "Three cards lie ")] fresh in
  let s' := step freshCaptured (Receive (Error "Unknown error")) s in
  imageryDescription s' = "Three cards lie "
  /\ imageryDescription s' <> ""
  /\ List.length (cards s') = 3
  /\ List.length (displayedCards s') = 1.
Proof. vm_compute. repeat split; discriminate. Qed.

(** C7 (amended). On an error the imagery text and the visibility of the
    imagery box are left as they are, while the interpretation text,
    displayed or still queued, is erased. *)
Theorem error_keeps_imagery_only (errorMsg : string) (s : State) :
  let s' := onError errorMsg s in
  imageryDescription s' = imageryDescription s
  /\ showImageryBox s' = showImageryBox s
  /\ interpretationDisplay s' = ""
  /\ interpretationBufferRef s' = "".
Proof. repeat split. Qed.

(** C7 as stated fails: interpretation text on display before the error
    is erased by it. *)
Lemma error_erases_interpretation :
  let s := run freshCaptured
             [Receive (Interpretation "The "); TypingTick] fresh in
  let s' := step freshCaptured (Receive (Error "Unknown error")) s in
  interpretationDisplay s = "The "
  /\ interpretationDisplay s' = ""
  /\ interpretationBufferRef s' = "".
Proof. vm_compute. repeat split. Qed.

(** *** Progress events *)

(** C3, evaluated on the code.  [onProgress] passes every step name other
    than that of a text chunk to [setCurrentStep]: after ['started'],
    ['rag_card_progress'] or ['rag_first_card_ready'] the current step is
    that name and no longer the step before the event. *)
Theorem informational_progress_sets_step (cap : Captured)
    (data : ProgressData) (s : State) (name : string) :
  In name ["started"; "rag_card_progress"; "rag_first_card_ready"] ->
  currentStep (step cap (Receive (Progress name data)) s) = name.
Proof.
  intros H. simpl in H.
  destruct H as [<-|[<-|[<-|[]]]]; unfold step, handle, onProgress; simpl;
    unfold effects, interpretationBoxEffect, cardEffect; simpl;
    destruct (Nat.eqb (List.length (cards s)) 0); reflexivity.
Qed.

Lemma informational_progress_sets_step_witness :
  currentStep fresh = "question_analysis"
  /\ currentStep (step freshCaptured (Receive (Progress "started" noData))
                    fresh) = "started".
Proof.
  split; [reflexivity|].
  apply (informational_progress_sets_step freshCaptured noData fresh).
  simpl. left. reflexivity.
Defined.

(** *** The [cards_selected] event *)

Lemma onProgress_cards_selected (cap : Captured) (data : ProgressData)
    (s : State) :
  hasCardList data = true ->
  onProgress cap "cards_selected" data s
  = let cardData := map toCardData (cardListOf data) in
    let s := setCards cardData (setCurrentStep "cards_selected" s) in
    let s := if Nat.eqb (List.length cardData) 3
             then setSpreadType three_card s
             else if Nat.eqb (List.length cardData) 10
             then setSpreadType celtic_cross s
             else s in
    match cardData with
    | first :: _ => setDisplayedCards [first] s
    | [] => s
    end.
Proof. intros H. unfold onProgress. simpl. rewrite H. reflexivity. Qed.

Lemma onProgress_cards_selected_none (cap : Captured) (data : ProgressData)
    (s : State) :
  hasCardList data = false ->
  onProgress cap "cards_selected" data s = setCurrentStep "cards_selected" s.
Proof. intros H. unfold onProgress. simpl. rewrite H. reflexivity. Qed.

(** The card list that [onProgress] reads from a payload: the
    [selected_cards] field, or the [cards] field when [selected_cards] is
    missing. *)
Lemma payload_cardList (data : ProgressData) (cardList : list RawCard) :
  selected_cards data = Some cardList
  \/ (selected_cards data = None /\ data_cards data = Some cardList) ->
  hasCardList data = true /\ cardListOf data = cardList.
Proof.
  unfold hasCardList, cardListOf.
  intros [E|[E1 E2]]; [rewrite E|rewrite E1, E2]; split; reflexivity.
Qed.

(** The cards of the state after a [cards_selected] event with a card
    list. *)
Lemma cards_onProgress_cards_selected (cap : Captured) (data : ProgressData)
    (s : State) :
  hasCardList data = true ->
  cards (onProgress cap "cards_selected" data s)
  = map toCardData (cardListOf data).
Proof.
  intros H. rewrite (onProgress_cards_selected cap data s H). cbv zeta.
  set (cardData := map toCardData (cardListOf data)).
  destruct (Nat.eqb (List.length cardData) 3);
    destruct (Nat.eqb (List.length cardData) 10);
    destruct cardData; reflexivity.
Qed.

(** C10. On a [cards_selected] event that carries a card list (the
    [selected_cards] field, or the [cards] field when [selected_cards] is
    missing) the spread type becomes [three_card] when the list has
    exactly 3 cards, [celtic_cross] when it has exactly 10 cards, and
    stays what it was for any other number of cards; the cards of the
    state are the cards of the list, one for one and in its order, where a
    card without [position_order] gets order 0, a card without
    [is_reversed] is not reversed, and values that are present are kept.
    A [cards_selected] event without card list changes neither the spread
    type nor the cards.  The spread type is [three_card] after mounting,
    and a submission does not reset it. *)
Theorem spread_type_inference (cap : Captured) (data : ProgressData)
    (cardList : list RawCard) (s : State) :
  selected_cards data = Some cardList
  \/ (selected_cards data = None /\ data_cards data = Some cardList) ->
  let n := List.length cardList in
  let s' := onProgress cap "cards_selected" data s in
  spreadType s' = (if Nat.eqb n 3 then three_card
                   else if Nat.eqb n 10 then celtic_cross
                   else spreadType s)
  /\ (spreadType s = celtic_cross -> (spreadType s' = three_card <-> n = 3))
  /\ (spreadType s = three_card -> (spreadType s' = celtic_cross <-> n = 10))
  /\ List.length (cards s') = n
  /\ (forall (i : nat) (card : RawCard),
        nth_error cardList i = Some card ->
        exists c : CardData,
          nth_error (cards s') i = Some c
          /\ position_order c
             = match raw_position_order card with
               | Some z => z
               | None => 0%Z
               end
          /\ is_reversed c
             = match raw_is_reversed card with
               | Some b => b
               | None => false
               end)
  /\ (forall noList : ProgressData,
        selected_cards noList = None ->
        data_cards noList = None ->
        spreadType (onProgress cap "cards_selected" noList s) = spreadType s
        /\ cards (onProgress cap "cards_selected" noList s) = cards s)
  /\ spreadType mounted = three_card
  /\ spreadType (reset s) = spreadType s.
Proof.
  intros P n s'.
  destruct (payload_cardList data cardList P) as [H L].
  assert (C : cards s' = map toCardData cardList).
  { unfold s'. rewrite (cards_onProgress_cards_selected cap data s H), L.
    reflexivity. }
  assert (E : spreadType s' = (if Nat.eqb n 3 then three_card
                               else if Nat.eqb n 10 then celtic_cross
                               else spreadType s)).
  { unfold s', n. rewrite (onProgress_cards_selected cap data s H), L.
    cbv zeta. rewrite <- (length_map toCardData cardList).
    set (cardData := map toCardData cardList).
    destruct (Nat.eqb (List.length cardData) 3);
      destruct (Nat.eqb (List.length cardData) 10);
      destruct cardData; reflexivity. }
  split; [exact E|].
  split; [|split; [|split; [|split; [|split; [|split; reflexivity]]]]].
  - intros Hs. rewrite E, Hs.
    destruct (Nat.eqb_spec n 3) as [->|N3]; [tauto|].
    destruct (Nat.eqb n 10); split; intros; congruence.
  - intros Hs. rewrite E, Hs.
    destruct (Nat.eqb_spec n 3) as [->|N3]; [split; [discriminate|lia]|].
    destruct (Nat.eqb_spec n 10); split; intros; congruence.
  - rewrite C. apply length_map.
  - intros i card Hi. exists (toCardData card). rewrite C.
    split; [apply map_nth_error; exact Hi|].
    unfold toCardData. cbn [position_order is_reversed]. split.
    + destruct (raw_position_order card) as [z|]; [|reflexivity].
      destruct (Z.eqb_spec z 0); congruence.
    + destruct (raw_is_reversed card) as [[|]|]; reflexivity.
  - intros noList N1 N2.
    rewrite (onProgress_cards_selected_none cap noList s)
      by (unfold hasCardList; rewrite N1, N2; reflexivity).
    split; reflexivity.
Qed.

Lemma spread_type_inference_witness :
  let s := setSpreadType celtic_cross fresh in
  let s' := onProgress freshCaptured "cards_selected" Samples.fallbackCards s in
  spreadType s' = three_card
  /\ (spreadType s = celtic_cross -> (spreadType s' = three_card <-> 3 = 3))
  /\ (spreadType s = three_card -> (spreadType s' = celtic_cross <-> 3 = 10))
  /\ List.length (cards s') = 3.
Proof.
  pose proof (spread_type_inference freshCaptured Samples.fallbackCards
                [Samples.card "The Star" 1;
                 mkRawCard None (Some "c7") None (Some "The Tower") None None
                   None None None;
                 Samples.card "The World" 2]
                (setSpreadType celtic_cross fresh)
                (or_intror (conj eq_refl eq_refl))) as W.
  cbv zeta in W.
  destruct W as (W1 & W2 & W3 & W4 & _).
  split; [exact W1|]. split; [exact W2|]. split; [exact W3|exact W4].
Defined.

(** A ten-card selection after a three-card one, and the other way
    round. *)
Example spread_type_follows_card_count :
  let ten := mkProgressData None
               (Some (map (fun k => Samples.card "card" (Z.of_nat k))
                        (seq 0 10))) None None in
  let s1 := onProgress freshCaptured "cards_selected" ten fresh in
  let s2 := onProgress freshCaptured "cards_selected" Samples.threeCards s1 in
  spreadType fresh = three_card
  /\ spreadType s1 = celtic_cross
  /\ spreadType s2 = three_card
  /\ spreadType (onProgress freshCaptured "cards_selected" noData s1)
     = celtic_cross.
Proof. vm_compute. repeat split. Qed.

(** *** Replay *)

(** The timers and the effects do not touch the reading state. *)
Lemma readingState_typingTick (s : State) :
  readingState (typingTick s) = readingState s.
Proof.
  unfold typingTick.
  destruct (typingIntervalRef s); [|reflexivity].
  destruct (Nat.eqb (String.length (interpretationBufferRef s)) 0);
    [reflexivity|].
  unfold readingState, setInterpretationDisplay,
    writeInterpretationBufferRef.
  cbn [currentStep cards imageryDescription interpretationDisplay
       interpretationBufferRef readingId].
  rewrite append_assoc, take_substring. reflexivity.
Qed.

Lemma readingState_fireCardTimer (s : State) :
  readingState (fireCardTimer s) = readingState s.
Proof.
  unfold fireCardTimer.
  destruct (cardTimer s); [|reflexivity]. cbv zeta.
  destruct (Nat.ltb _ _); [|reflexivity].
  destruct (_ && _); reflexivity.
Qed.

Lemma readingState_fireInterpretationBoxTimer (s : State) :
  readingState (fireInterpretationBoxTimer s) = readingState s.
Proof.
  unfold fireInterpretationBoxTimer.
  destruct (interpretationBoxTimer s); reflexivity.
Qed.

Lemma readingState_fireTimeout (k : nat) (s : State) :
  readingState (fireTimeout k s) = readingState s.
Proof.
  unfold fireTimeout.
  destruct (nth_error (timeouts s) k) as [[delay []]|]; reflexivity.
Qed.

Lemma readingState_effects (s : State) :
  readingState (effects s) = readingState s.
Proof.
  unfold effects, interpretationBoxEffect, cardEffect.
  destruct (Nat.eqb (List.length (cards s)) 0); simpl;
    destruct (_ && _); reflexivity.
Qed.

(** The reading state after a callback depends on the state before it
    only through the reading state. *)
Lemma readingState_onProgress (cap : Captured) (name : string)
    (data : ProgressData) (s1 s2 : State) :
  readingState s1 = readingState s2 ->
  readingState (onProgress cap name data s1)
  = readingState (onProgress cap name data s2).
Proof.
  unfold readingState. intros H. injection H as H1 H2 H3 H4 H5.
  unfold onProgress. rewrite H3.
  destruct (_ && _).
  - destruct (Nat.eqb _ 0); simpl; congruence.
  - destruct (_ && _).
    + cbv zeta. set (cardData := map toCardData (cardListOf data)).
      destruct (Nat.eqb (List.length cardData) 3);
        destruct (Nat.eqb (List.length cardData) 10);
        destruct cardData; simpl; congruence.
    + destruct (String.eqb name "rag_retrieved"); [simpl; congruence|].
      destruct (String.eqb name "imagery_generated").
      { destruct (_ && _); simpl; congruence. }
      destruct (String.eqb name "interpretation_started");
        [|simpl; congruence].
      destruct (negb _); simpl; congruence.
Qed.

Lemma readingState_onInterpretation (cap : Captured) (t : string)
    (s1 s2 : State) :
  readingState s1 = readingState s2 ->
  readingState (onInterpretation cap t s1)
  = readingState (onInterpretation cap t s2).
Proof.
  unfold readingState. intros H. injection H as H1 H2 H3 H4 H5.
  unfold onInterpretation, startInterpretationTyping.
  destruct (Nat.eqb _ 0); destruct (_ && _); simpl;
    destruct (typingIntervalRef s1); destruct (typingIntervalRef s2); simpl;
    rewrite <- !append_assoc, H4; congruence.
Qed.

Lemma readingState_onComplete (result : option CompleteData)
    (s1 s2 : State) :
  readingState s1 = readingState s2 ->
  readingState (onComplete result s1) = readingState (onComplete result s2).
Proof.
  unfold readingState. intros H. injection H as H1 H2 H3 H4 H5.
  unfold onComplete. cbv zeta.
  destruct (isTruthy _); simpl; congruence.
Qed.

Lemma readingState_onError (errorMsg : string) (s1 s2 : State) :
  readingState s1 = readingState s2 ->
  readingState (onError errorMsg s1) = readingState (onError errorMsg s2).
Proof.
  unfold readingState. intros H. injection H as H1 H2 H3 H4 H5.
  unfold onError. simpl. congruence.
Qed.

Lemma readingState_handle (cap : Captured) (e : Event) (s1 s2 : State) :
  readingState s1 = readingState s2 ->
  readingState (handle cap e s1) = readingState (handle cap e s2).
Proof.
  destruct e; simpl.
  - apply readingState_onProgress.
  - apply readingState_onInterpretation.
  - apply readingState_onComplete.
  - apply readingState_onError.
Qed.

Lemma replay_app (cap : Captured) (l1 l2 : list Event) (s : State) :
  replay cap (l1 ++ l2) s = replay cap l2 (replay cap l1 s).
Proof. apply fold_left_app. Qed.

Lemma run_app (cap : Captured) (t1 t2 : list Action) (s : State) :
  run cap (t1 ++ t2) s = run cap t2 (run cap t1 s).
Proof. apply fold_left_app. Qed.

Lemma eventsOf_app (t1 t2 : list Action) :
  eventsOf (t1 ++ t2) = eventsOf t1 ++ eventsOf t2.
Proof.
  induction t1 as [|a t1 IH]; [reflexivity|].
  destruct a; cbn [app eventsOf]; rewrite IH; try reflexivity.
  apply app_assoc.
Qed.

Lemma joinText_app (l1 l2 : list string) :
  joinText (l1 ++ l2) = (joinText l1 ++ joinText l2)%string.
Proof.
  unfold joinText. induction l1 as [|x l1 IH]; [reflexivity|].
  cbn [app fold_right]. rewrite IH, append_assoc. reflexivity.
Qed.

Lemma readingState_replay (cap : Captured) (events : list Event) :
  forall s1 s2 : State,
    readingState s1 = readingState s2 ->
    readingState (replay cap events s1) = readingState (replay cap events s2).
Proof.
  induction events as [|e events IH]; intros s1 s2 H; [exact H|].
  change (replay cap (e :: events) s1)
    with (replay cap events (handle cap e s1)).
  change (replay cap (e :: events) s2)
    with (replay cap events (handle cap e s2)).
  apply IH, readingState_handle, H.
Qed.

(** The reading state after an action is that of the callbacks of its
    events. *)
Lemma readingState_step (cap : Captured) (a : Action) (s1 s2 : State) :
  readingState s1 = readingState s2 ->
  readingState (step cap a s1) = readingState (replay cap (eventsOf [a]) s2).
Proof.
  intros H. unfold step. rewrite readingState_effects.
  destruct a as [e| | | |k|events]; cbn [eventsOf].
  - apply readingState_handle. exact H.
  - rewrite readingState_typingTick. exact H.
  - rewrite readingState_fireCardTimer. exact H.
  - rewrite readingState_fireInterpretationBoxTimer. exact H.
  - rewrite readingState_fireTimeout. exact H.
  - rewrite app_nil_r. apply readingState_replay. exact H.
Qed.

(** The reading state after a trace is that of the callbacks folded over
    its events: the timers and the renders play no part. *)
Lemma readingState_run (cap : Captured) (trace : list Action) :
  forall s1 s2 : State,
    readingState s1 = readingState s2 ->
    readingState (run cap trace s1)
    = readingState (replay cap (eventsOf trace) s2).
Proof.
  induction trace as [|a trace IH]; intros s1 s2 H; [exact H|].
  change (run cap (a :: trace) s1) with (run cap trace (step cap a s1)).
  change (a :: trace) with ([a] ++ trace).
  rewrite eventsOf_app, replay_app.
  apply IH, readingState_step, H.
Qed.

(** C1. Replay determinism: two fresh instances that receive the same
    list of events end in the same reading state (current step, cards,
    imagery text, interpretation text, reading id), whatever timers fire
    in between and whenever they fire; the reading state is the left fold
    of the callbacks over the events. *)
Theorem replay_determinism (events : list Event)
    (trace1 trace2 : list Action) :
  eventsOf trace1 = events ->
  eventsOf trace2 = events ->
  readingState (run freshCaptured trace1 fresh)
  = readingState (run freshCaptured trace2 fresh)
  /\ readingState (run freshCaptured trace1 fresh)
     = readingState (fold_left (fun s e => handle freshCaptured e s)
                       events fresh).
Proof.
  intros <- H2.
  assert (R : forall trace,
             readingState (run freshCaptured trace fresh)
             = readingState (replay freshCaptured (eventsOf trace) fresh)).
  { intros trace. apply readingState_run. reflexivity. }
  split; [|apply R].
  rewrite (R trace1), (R trace2), H2. reflexivity.
Qed.

Lemma replay_determinism_witness :
  readingState
    (run freshCaptured
       [Receive (Interpretation "The Fool walks on."); TypingTick;
        TimeoutFires 0; Receive (Complete (Some (mkCompleteData (Some "r1") None)))]
       fresh)
  = readingState
      (run freshCaptured
         [Receive (Interpretation "The Fool walks on.");
          Receive (Complete (Some (mkCompleteData (Some "r1") None)));
          TypingTick; TypingTick; TypingTick; TypingTick; TypingTick]
         fresh).
Proof.
  exact (proj1 (replay_determinism
                  [Interpretation "The Fool walks on.";
                   Complete (Some (mkCompleteData (Some "r1") None))]
                  [Receive (Interpretation "The Fool walks on.");
                   TypingTick; TimeoutFires 0;
                   Receive (Complete (Some (mkCompleteData (Some "r1") None)))]
                  [Receive (Interpretation "The Fool walks on.");
                   Receive (Complete (Some (mkCompleteData (Some "r1") None)));
                   TypingTick; TypingTick; TypingTick; TypingTick;
                   TypingTick]
                  eq_refl eq_refl)).
Defined.

(** *** The imagery buffer *)

Lemma imageryDescription_readingState (s1 s2 : State) :
  readingState s1 = readingState s2 ->
  imageryDescription s1 = imageryDescription s2.
Proof. unfold readingState. intros H. injection H. auto. Qed.

(** An event appends its chunk text to the imagery buffer, unless it is
    an [imagery_generated] event whose full text is adopted. *)
Lemma imageryDescription_handle (cap : Captured) (e : Event) (s : State) :
  adoptsFallback cap e = false ->
  imageryDescription (handle cap e s)
  = (imageryDescription s ++ chunkText e)%string.
Proof.
  destruct e as [name data|t|result|errorMsg]; simpl; intros H;
    try (rewrite append_nil_r).
  - unfold onProgress.
    destruct (String.eqb_spec name "imagery_chunk") as [->|N].
    + simpl. destruct (text data) as [[|c t]|]; simpl;
        rewrite ?append_nil_r; reflexivity.
    + rewrite append_nil_r. simpl.
      destruct (String.eqb name "cards_selected" && hasCardList data).
      { cbv zeta. set (cardData := map toCardData (cardListOf data)).
        destruct (Nat.eqb (List.length cardData) 3);
          destruct (Nat.eqb (List.length cardData) 10);
          destruct cardData; reflexivity. }
      destruct (String.eqb name "rag_retrieved"); [reflexivity|].
      destruct (String.eqb name "imagery_generated").
      { simpl in H. rewrite H. reflexivity. }
      destruct (String.eqb name "interpretation_started"); [|reflexivity].
      destruct (negb (cap_showInterpretationBox cap)); reflexivity.
  - unfold onInterpretation, startInterpretationTyping.
    destruct (Nat.eqb _ 0); destruct (_ && _); simpl;
      destruct (typingIntervalRef s); reflexivity.
  - unfold onComplete. cbv zeta. destruct (isTruthy _); reflexivity.
  - reflexivity.
Qed.

Lemma imageryDescription_replay (cap : Captured) (events : list Event) :
  forall s : State,
    Forall (fun e => adoptsFallback cap e = false) events ->
    imageryDescription (replay cap events s)
    = (imageryDescription s ++ joinText (map chunkText events))%string.
Proof.
  induction events as [|e events IH]; intros s H.
  - cbn. rewrite append_nil_r. reflexivity.
  - apply Forall_cons_iff in H. destruct H as [He Hr].
    change (replay cap (e :: events) s)
      with (replay cap events (handle cap e s)).
    rewrite (IH _ Hr), (imageryDescription_handle cap e s He).
    cbn [map joinText fold_right]. apply append_assoc.
Qed.

Lemma imageryDescription_step (cap : Captured) (a : Action) (s : State) :
  Forall (fun e => adoptsFallback cap e = false) (eventsOf [a]) ->
  imageryDescription (step cap a s)
  = (imageryDescription s ++ joinText (map chunkText (eventsOf [a])))%string.
Proof.
  intros H.
  rewrite (imageryDescription_readingState _ _
             (readingState_step cap a s s eq_refl)).
  apply imageryDescription_replay. exact H.
Qed.

Lemma imageryDescription_run (cap : Captured) (trace : list Action) :
  forall s : State,
    Forall (fun e => adoptsFallback cap e = false) (eventsOf trace) ->
    imageryDescription (run cap trace s)
    = (imageryDescription s
       ++ joinText (map chunkText (eventsOf trace)))%string.
Proof.
  induction trace as [|a trace IH]; intros s H.
  - simpl. rewrite append_nil_r. reflexivity.
  - change (a :: trace) with ([a] ++ trace) in H |- *.
    rewrite eventsOf_app in H. apply Forall_app in H. destruct H as [Ha Ht].
    rewrite run_app, (IH _ Ht).
    change (run cap [a] s) with (step cap a s).
    rewrite (imageryDescription_step cap a s Ha).
    rewrite eventsOf_app, map_app, joinText_app, append_assoc. reflexivity.
Qed.

(** C2 (amended). Fragment concatenation on the imagery buffer: when no
    full text of an [imagery_generated] event is adopted, the imagery
    buffer after a run is the buffer before it (empty in a fresh
    instance) followed by the texts of the [imagery_chunk] events in
    arrival order, whatever timers fire in between.  An [imagery_chunk]
    whose text is not empty appends its text, and when the buffer was
    empty it schedules, with no delay, the timeout that makes the imagery
    box visible. *)
Theorem imagery_concatenation (cap : Captured) (trace : list Action)
    (s : State) :
  Forall (fun e => adoptsFallback cap e = false) (eventsOf trace) ->
  imageryDescription (run cap trace s)
  = (imageryDescription s
     ++ joinText (map chunkText (eventsOf trace)))%string
  /\ imageryDescription fresh = ""
  /\ (forall (t : string) (s0 : State),
        t <> "" ->
        let s1 := handle cap (ImageryChunk t) s0 in
        imageryDescription s1 = (imageryDescription s0 ++ t)%string
        /\ (imageryDescription s0 = "" ->
              timeouts s1 = timeouts s0 ++ [(0%Z, ShowImageryBox)]
              /\ showImageryBox
                   (fireTimeout (List.length (timeouts s0)) s1) = true)).
Proof.
  intros H. split; [apply imageryDescription_run; exact H|].
  split; [reflexivity|].
  intros t s0 Ht s1.
  assert (E1 : s1 = setImageryDescription (imageryDescription s0 ++ t)
                      (if Nat.eqb (String.length (imageryDescription s0)) 0
                       then setTimeout ShowImageryBox 0 s0 else s0)).
  { unfold s1, handle, ImageryChunk, onProgress.
    change (String.eqb "imagery_chunk" "imagery_chunk") with true.
    destruct t as [|c t]; [congruence|reflexivity]. }
  rewrite E1. clear E1 s1. split.
  - reflexivity.
  - intros E. rewrite E. change (Nat.eqb (String.length "") 0) with true.
    cbv iota. split; [reflexivity|].
    unfold fireTimeout, setTimeout, setImageryDescription, writeTimeouts.
    cbn [timeouts].
    rewrite nth_error_app2 by lia. rewrite Nat.sub_diag. reflexivity.
Qed.

Lemma imagery_concatenation_witness :
  imageryDescription
    (run freshCaptured
       [Receive (ImageryChunk "Three cards "); TimeoutFires 0;
        Receive (Progress "rag_retrieved" noData);
        Receive (ImageryChunk "lie in a row.");
        Receive (Progress "imagery_generated" noData)] fresh)
  = "Three cards lie in a row.".
Proof.
  refine (proj1 (imagery_concatenation freshCaptured
                   [Receive (ImageryChunk "Three cards "); TimeoutFires 0;
                    Receive (Progress "rag_retrieved" noData);
                    Receive (ImageryChunk "lie in a row.");
                    Receive (Progress "imagery_generated" noData)]
                   fresh _)).
  simpl. repeat constructor.
Defined.

(** C2 as stated fails on a chunk with an empty text: the buffer was
    empty, and nothing makes the imagery box visible. *)
Lemma empty_chunk_leaves_box_hidden :
  let s1 := step freshCaptured (Receive (ImageryChunk "")) fresh in
  imageryDescription fresh = ""
  /\ imageryDescription s1 = ""
  /\ timeouts s1 = []
  /\ showImageryBox s1 = false.
Proof. vm_compute. repeat split. Qed.

(** *** The card reveal *)

Lemma length_insertCard (c : CardData) (l : list CardData) :
  List.length (insertCard c l) = S (List.length l).
Proof.
  induction l as [|d l IH]; simpl; [reflexivity|].
  destruct (Z.leb _ _); simpl; congruence.
Qed.

Lemma length_sortCards (l : list CardData) :
  List.length (sortCards l) = List.length l.
Proof.
  induction l as [|c l IH]; simpl; [reflexivity|].
  rewrite length_insertCard. congruence.
Qed.

Lemma insertCard_perm (c : CardData) (l : list CardData) :
  Permutation (insertCard c l) (c :: l).
Proof.
  induction l as [|d l IH]; simpl; [reflexivity|].
  destruct (Z.leb _ _); [reflexivity|].
  rewrite IH. apply perm_swap.
Qed.

Lemma sortCards_perm (l : list CardData) : Permutation (sortCards l) l.
Proof.
  induction l as [|c l IH]; simpl; [reflexivity|].
  rewrite insertCard_perm. apply perm_skip. exact IH.
Qed.

Lemma insertCard_sorted (c : CardData) (l : list CardData) :
  StronglySorted inOrder l -> StronglySorted inOrder (insertCard c l).
Proof.
  induction 1 as [|d l Hl IH Hd]; simpl.
  - repeat constructor.
  - destruct (Z.leb_spec (position_order c) (position_order d)) as [L|L].
    + constructor; [constructor; assumption|].
      constructor; [exact L|].
      eapply Forall_impl; [|exact Hd].
      unfold inOrder. intros; lia.
    + constructor; [exact IH|].
      apply (Permutation_Forall (Permutation_sym (insertCard_perm c l))).
      constructor; [unfold inOrder; lia|exact Hd].
Qed.

Lemma sortCards_sorted (l : list CardData) :
  StronglySorted inOrder (sortCards l).
Proof.
  induction l as [|c l IH]; simpl; [constructor|].
  apply insertCard_sorted. exact IH.
Qed.

(** What the effects leave alone. *)
Lemma effects_frame (s : State) :
  currentStep (effects s) = currentStep s
  /\ cards (effects s) = cards s
  /\ spreadType (effects s) = spreadType s
  /\ allCardsDisplayed (effects s) = allCardsDisplayed s
  /\ displayedCards (effects s)
     = if Nat.eqb (List.length (cards s)) 0 then [] else displayedCards s.
Proof.
  unfold effects, interpretationBoxEffect, cardEffect.
  destruct (Nat.eqb (List.length (cards s)) 0);
    match goal with |- context [if ?c then _ else _] => destruct c end;
    repeat split.
Qed.

(** The card display timer reveals the next card of the sorted
    selection. *)
Lemma step_CardTimer (cap : Captured) (s : State) :
  List.length (displayedCards s) < List.length (cards s) ->
  let s2 := step cap CardTimer s in
  cards s2 = cards s
  /\ spreadType s2 = spreadType s
  /\ displayedCards s2
     = firstn (List.length (displayedCards s) + 1) (sortCards (cards s)).
Proof.
  intros L s2.
  assert (N0 : Nat.eqb (List.length (cards s)) 0 = false)
    by (apply Nat.eqb_neq; lia).
  assert (F : let s1 := fireCardTimer s in
              cards s1 = cards s /\ spreadType s1 = spreadType s
              /\ displayedCards s1
                 = firstn (List.length (displayedCards s) + 1)
                     (sortCards (cards s))).
  { unfold fireCardTimer, cardTimer. rewrite N0, length_sortCards.
    replace (Nat.leb (List.length (cards s))
                     (List.length (displayedCards s))) with false
      by (symmetry; apply Nat.leb_gt; exact L).
    replace (Nat.ltb (List.length (displayedCards s))
                     (List.length (cards s))) with true
      by (symmetry; apply Nat.ltb_lt; exact L).
    cbv zeta.
    match goal with |- context [if ?c then _ else _] => destruct c end;
      repeat split. }
  destruct F as (F1 & F2 & F3).
  destruct (effects_frame (fireCardTimer s)) as (_ & E1 & E2 & _ & E3).
  unfold s2, step. rewrite E1, E2, E3, F1, F2, F3, N0. repeat split.
Qed.

(** An event that carries no card list leaves the reveal alone. *)
Lemma handle_reveal_frame (cap : Captured) (e : Event) (s : State) :
  restartsReveal e = false ->
  cards (handle cap e s) = cards s
  /\ spreadType (handle cap e s) = spreadType s
  /\ displayedCards (handle cap e s) = displayedCards s.
Proof.
  destruct e as [name data|t|result|errorMsg]; simpl; intros H.
  - unfold onProgress. rewrite H.
    destruct (String.eqb name "imagery_chunk" && isTruthy (text data)).
    { destruct (Nat.eqb _ 0); repeat split. }
    destruct (String.eqb name "rag_retrieved"); [repeat split|].
    destruct (String.eqb name "imagery_generated").
    { match goal with |- context [if ?c then _ else _] => destruct c end;
        repeat split. }
    destruct (String.eqb name "interpretation_started"); [|repeat split].
    destruct (negb (cap_showInterpretationBox cap)); repeat split.
  - unfold onInterpretation, startInterpretationTyping.
    destruct (Nat.eqb _ 0);
      destruct (negb (cap_hasUserInteracted cap)
                && negb (cap_isImageryExpanded cap)); simpl;
      destruct (typingIntervalRef s); repeat split.
  - unfold onComplete. cbv zeta. destruct (isTruthy _); repeat split.
  - repeat split.
Qed.

(** Nor do the other timers. *)
Lemma timers_reveal_frame (k : nat) (s : State) :
  (cards (typingTick s) = cards s
   /\ spreadType (typingTick s) = spreadType s
   /\ displayedCards (typingTick s) = displayedCards s)
  /\ (cards (fireInterpretationBoxTimer s) = cards s
      /\ spreadType (fireInterpretationBoxTimer s) = spreadType s
      /\ displayedCards (fireInterpretationBoxTimer s) = displayedCards s)
  /\ (cards (fireTimeout k s) = cards s
      /\ spreadType (fireTimeout k s) = spreadType s
      /\ displayedCards (fireTimeout k s) = displayedCards s).
Proof.
  split; [|split].
  - unfold typingTick. destruct (typingIntervalRef s); [|repeat split].
    destruct (Nat.eqb _ 0); repeat split.
  - unfold fireInterpretationBoxTimer.
    destruct (interpretationBoxTimer s); repeat split.
  - unfold fireTimeout.
    destruct (nth_error (timeouts s) k) as [[delay []]|]; repeat split.
Qed.

Lemma replay_reveal_frame (cap : Captured) (events : list Event) :
  forall s : State,
    existsb restartsReveal events = false ->
    cards (replay cap events s) = cards s
    /\ spreadType (replay cap events s) = spreadType s
    /\ displayedCards (replay cap events s) = displayedCards s.
Proof.
  induction events as [|e events IH]; intros s H; [repeat split|].
  simpl in H. apply orb_false_elim in H. destruct H as [He Hr].
  destruct (handle_reveal_frame cap e s He) as (H1 & H2 & H3).
  change (replay cap (e :: events) s)
    with (replay cap events (handle cap e s)).
  destruct (IH (handle cap e s) Hr) as (I1 & I2 & I3).
  rewrite I1, I2, I3, H1, H2, H3. repeat split.
Qed.

(** A quiet action leaves the reveal alone. *)
Lemma step_quiet_frame (cap : Captured) (a : Action) (s : State) :
  quiet a = true ->
  cards s <> [] ->
  cards (step cap a s) = cards s
  /\ spreadType (step cap a s) = spreadType s
  /\ displayedCards (step cap a s) = displayedCards s.
Proof.
  intros Q Hc.
  assert (F : forall x : State,
             cards x = cards s /\ spreadType x = spreadType s
             /\ displayedCards x = displayedCards s ->
             cards (effects x) = cards s
             /\ spreadType (effects x) = spreadType s
             /\ displayedCards (effects x) = displayedCards s).
  { intros x (X1 & X2 & X3).
    destruct (effects_frame x) as (_ & E1 & E2 & _ & E3).
    rewrite E1, E2, E3, X1, X2, X3.
    replace (Nat.eqb (List.length (cards s)) 0) with false
      by (destruct (cards s); [congruence|reflexivity]).
    repeat split. }
  destruct (timers_reveal_frame 0 s) as (T1 & T2 & _).
  unfold step. apply F.
  destruct a as [e| | | |k|events]; cbn [quiet] in Q.
  - apply handle_reveal_frame. apply negb_true_iff. exact Q.
  - exact T1.
  - discriminate Q.
  - exact T2.
  - apply (timers_reveal_frame k s).
  - apply replay_reveal_frame. apply negb_true_iff. exact Q.
Qed.

Lemma run_quiet_frame (cap : Captured) (trace : list Action) :
  forall s : State,
    forallb quiet trace = true ->
    cards s <> [] ->
    let s1 := run cap trace s in
    cards s1 = cards s
    /\ spreadType s1 = spreadType s
    /\ displayedCards s1 = displayedCards s.
Proof.
  induction trace as [|a trace IH]; intros s H Hc; [repeat split|].
  cbn [forallb] in H. apply andb_prop in H. destruct H as [Ha Hr].
  destruct (step_quiet_frame cap a s Ha Hc) as (H1 & H2 & H3).
  change (run cap (a :: trace) s) with (run cap trace (step cap a s)).
  assert (Hc' : cards (step cap a s) <> []) by (rewrite H1; exact Hc).
  destruct (IH (step cap a s) Hr Hc') as (I1 & I2 & I3).
  cbv zeta. rewrite I1, I2, I3, H1, H2, H3. repeat split.
Qed.

(** The state after a [cards_selected] event with a card list. *)
Lemma step_cards_selected (cap : Captured) (data : ProgressData)
    (s : State) :
  hasCardList data = true ->
  let selection := map toCardData (cardListOf data) in
  let s1 := step cap (Receive (Progress "cards_selected" data)) s in
  currentStep s1 = "cards_selected"
  /\ cards s1 = selection
  /\ displayedCards s1 = firstn 1 selection
  /\ spreadType s1
     = (if Nat.eqb (List.length selection) 3 then three_card
        else if Nat.eqb (List.length selection) 10 then celtic_cross
        else spreadType s).
Proof.
  intros H selection s1.
  destruct (effects_frame (onProgress cap "cards_selected" data s))
    as (E0 & E1 & E2 & _ & E3).
  unfold s1, step, handle. rewrite E0, E1, E2, E3. clear E0 E1 E2 E3.
  rewrite (onProgress_cards_selected cap data s H). cbv zeta.
  fold selection.
  destruct (Nat.eqb (List.length selection) 3);
    destruct (Nat.eqb (List.length selection) 10);
    destruct selection; repeat split.
Qed.

(** After [k] firings of the card display timer the first [j + k] cards
    of the sorted selection are displayed. *)
Lemma run_CardTimer (cap : Captured) (k : nat) :
  forall (j : nat) (s : State),
    List.length (displayedCards s) = j ->
    j + S k <= List.length (cards s) ->
    let s2 := run cap (repeat CardTimer (S k)) s in
    cards s2 = cards s
    /\ displayedCards s2 = firstn (j + S k) (sortCards (cards s)).
Proof.
  induction k as [|k IH]; intros j s Hj Hle.
  - destruct (step_CardTimer cap s) as (C1 & _ & C3); [lia|].
    simpl. rewrite C1, C3, Hj. repeat split.
  - change (run cap (repeat CardTimer (S (S k))) s)
      with (run cap (repeat CardTimer (S k)) (step cap CardTimer s)).
    destruct (step_CardTimer cap s) as (C1 & _ & C3); [lia|].
    assert (Hj' : List.length (displayedCards (step cap CardTimer s)) = S j).
    { rewrite C3, firstn_length_le; [lia|]. rewrite length_sortCards. lia. }
    destruct (IH (S j) (step cap CardTimer s) Hj') as (I1 & I2).
    { rewrite C1. lia. }
    cbv zeta. rewrite I1, I2, C1.
    replace (S j + S k) with (j + S (S k)) by lia. repeat split.
Qed.

(** The mapping of one card, field by field. *)
Lemma toCardData_fields (card : RawCard) :
  toCardData card
  = mkCardData
      (match raw_card_id card with
       | Some (String _ _) => raw_card_id card
       | _ => raw_id card
       end)
      (match raw_card_name_en card with
       | Some (String _ _) => raw_card_name_en card
       | _ => raw_name card
       end)
      (raw_card_name_cn card)
      (raw_position card)
      (match raw_position_order card with Some z => z | None => 0%Z end)
      (match raw_is_reversed card with Some b => b | None => false end)
      (raw_image_url card).
Proof.
  unfold toCardData, orUndefined. f_equal.
  - destruct (raw_card_id card) as [[|c x]|]; reflexivity.
  - destruct (raw_card_name_en card) as [[|c x]|]; reflexivity.
  - destruct (raw_position_order card) as [z|]; [|reflexivity].
    destruct (Z.eqb_spec z 0); congruence.
  - destruct (raw_is_reversed card) as [[|]|]; reflexivity.
Qed.

(** A list in position order is its own sorted list. *)
Lemma sortCards_fixed (l : list CardData) :
  StronglySorted inOrder l -> sortCards l = l.
Proof.
  induction 1 as [|c l Hl IH Hc]; [reflexivity|].
  cbn [sortCards]. rewrite IH.
  destruct l as [|d l]; [reflexivity|]. cbn [insertCard].
  inversion Hc as [|? ? Hd _]; subst. unfold inOrder in Hd.
  replace (Z.leb (position_order c) (position_order d)) with true
    by (symmetry; apply Z.leb_le; exact Hd).
  reflexivity.
Qed.

Lemma sorted_positions (l : list CardData) :
  StronglySorted Z.le (map position_order l) -> StronglySorted inOrder l.
Proof.
  induction l as [|c l IH]; cbn [map]; intros H; [constructor|].
  inversion H as [|? ? Hl Hc]; subst. constructor; [apply IH, Hl|].
  apply Forall_forall. intros d Hd. unfold inOrder.
  apply (proj1 (Forall_forall _ _) Hc). apply in_map. exact Hd.
Qed.

(** C4 (amended). A [cards_selected] event with a card list (the
    [selected_cards] field, or the [cards] field when [selected_cards] is
    missing) sets the current step to ['cards_selected'] and replaces the
    cards by the whole selection, card for card in the order of the
    payload.  The revealed cards are not the whole selection at once: the
    first card of the payload alone is displayed, and the card display
    timer is started; its k-th firing sets the displayed cards to the
    first k + 1 cards of the selection in the order of [position_order],
    so that after N - 1 firings the displayed cards are the whole
    selection in position order. *)
Theorem cards_selected_reveals_selection (cap : Captured)
    (data : ProgressData) (cardList : list RawCard) (s : State) :
  selected_cards data = Some cardList
  \/ (selected_cards data = None /\ data_cards data = Some cardList) ->
  let cardOf := fun card : RawCard =>
    mkCardData
      (match raw_card_id card with
       | Some (String _ _) => raw_card_id card
       | _ => raw_id card
       end)
      (match raw_card_name_en card with
       | Some (String _ _) => raw_card_name_en card
       | _ => raw_name card
       end)
      (raw_card_name_cn card)
      (raw_position card)
      (match raw_position_order card with Some z => z | None => 0%Z end)
      (match raw_is_reversed card with Some b => b | None => false end)
      (raw_image_url card) in
  let selection := map cardOf cardList in
  let n := List.length cardList in
  let s1 := step cap (Receive (Progress "cards_selected" data)) s in
  let shown := fun k : nat =>
    displayedCards (run cap (repeat CardTimer k) s1) in
  currentStep s1 = "cards_selected"
  /\ cards s1 = selection
  /\ displayedCards s1 = firstn 1 selection
  /\ (1 < n -> cardTimer s1 = Some (intervalPerCard s1))
  /\ (forall k : nat,
        1 <= k -> k < n -> shown k = firstn (k + 1) (sortCards selection))
  /\ shown (n - 1) = sortCards selection
  /\ Permutation (sortCards selection) selection
  /\ StronglySorted inOrder (sortCards selection).
Proof.
  intros P cardOf selection n s1 shown.
  destruct (payload_cardList data cardList P) as [H L].
  destruct (step_cards_selected cap data s H) as (S0 & S1 & S2 & _).
  cbv zeta in S0, S1, S2. rewrite L in S1, S2.
  assert (M : map toCardData cardList = selection).
  { apply map_ext. intros card. apply toCardData_fields. }
  rewrite M in S1, S2. fold s1 in S0, S1, S2.
  assert (Ln : List.length selection = n) by apply length_map.
  assert (K : forall k : nat,
             1 <= k -> k < n -> shown k = firstn (k + 1) (sortCards selection)).
  { intros k K1 K2. unfold shown.
    destruct k as [|k]; [lia|].
    destruct (run_CardTimer cap k 1 s1) as (_ & R2).
    - rewrite S2. destruct selection; [simpl in Ln; lia|reflexivity].
    - rewrite S1, Ln. lia.
    - cbv zeta in R2. rewrite R2, S1. f_equal. lia. }
  split; [exact S0|]. split; [exact S1|]. split; [exact S2|].
  split; [|split; [exact K|split; [|split]]].
  - intros Hn. unfold cardTimer. rewrite S1, S2, length_sortCards, Ln.
    destruct selection as [|c [|d l]]; simpl in Ln; try lia.
    rewrite <- Ln. reflexivity.
  - destruct n as [|[|m]] eqn:En.
    + unfold shown. cbn [Nat.sub repeat run fold_left]. rewrite S2.
      destruct selection; [reflexivity|discriminate Ln].
    + unfold shown. cbn [Nat.sub repeat run fold_left]. rewrite S2.
      destruct selection as [|c [|d l]]; try discriminate Ln. reflexivity.
    + replace (S (S m) - 1) with (S m) by lia.
      rewrite (K (S m)) by lia.
      apply firstn_all2. rewrite length_sortCards. lia.
  - apply sortCards_perm.
  - apply sortCards_sorted.
Qed.

Lemma cards_selected_reveals_selection_witness :
  let s1 := step freshCaptured
              (Receive (Progress "cards_selected" Samples.fallbackCards))
              fresh in
  map card_id (cards s1) = [Some "The Star"; Some "c7"; Some "The World"]
  /\ map card_id (displayedCards s1) = [Some "The Star"]
  /\ map card_id
       (displayedCards (run freshCaptured (repeat CardTimer 2) s1))
     = [Some "c7"; Some "The Star"; Some "The World"].
Proof.
  pose proof (cards_selected_reveals_selection freshCaptured
                Samples.fallbackCards
                [Samples.card "The Star" 1;
                 mkRawCard None (Some "c7") None (Some "The Tower") None None
                   None None None;
                 Samples.card "The World" 2]
                fresh (or_intror (conj eq_refl eq_refl))) as W.
  cbv zeta in W. destruct W as (_ & W1 & W2 & _ & _ & W3 & _).
  change (List.length _ - 1) with 2 in W3.
  cbv zeta. rewrite W1, W2, W3. vm_compute. repeat split.
Defined.

(** C4 as stated fails: when the event has been handled the revealed
    cards are not the whole selection in position order but one card, the
    first of the payload, here the last one in position order. *)
Lemma one_card_revealed_at_once :
  let s1 := step freshCaptured
              (Receive (Progress "cards_selected" Samples.shuffledCards))
              fresh in
  map card_id (cards s1) = [Some "The Sun"; Some "The Fool"; Some "The Moon"]
  /\ map card_id (displayedCards s1) = [Some "The Sun"]
  /\ map card_id (sortCards (cards s1))
     = [Some "The Fool"; Some "The Moon"; Some "The Sun"]
  /\ displayedCards s1 <> sortCards (cards s1).
Proof.
  split; [vm_compute; reflexivity|].
  split; [vm_compute; reflexivity|].
  split; [vm_compute; reflexivity|].
  intros E. apply (f_equal (@List.length CardData)) in E.
  vm_compute in E. discriminate E.
Qed.

(** A selection that arrives out of order: the first card of the payload
    is displayed first, the timer then reveals the cards in position
    order. *)
Example shuffled_selection_reveal :
  map (fun s => map card_id (displayedCards s))
    [run freshCaptured
       [Receive (Progress "cards_selected" Samples.shuffledCards)] fresh;
     run freshCaptured
       [Receive (Progress "cards_selected" Samples.shuffledCards);
        CardTimer] fresh;
     run freshCaptured
       [Receive (Progress "cards_selected" Samples.shuffledCards);
        CardTimer; CardTimer] fresh]
  = [[Some "The Sun"];
     [Some "The Fool"; Some "The Moon"];
     [Some "The Fool"; Some "The Moon"; Some "The Sun"]].
Proof. vm_compute. reflexivity. Qed.

(** *** Reveal pacing *)

Lemma intervalPerCard_eq (s1 s2 : State) :
  cards s1 = cards s2 -> spreadType s1 = spreadType s2 ->
  intervalPerCard s1 = intervalPerCard s2.
Proof. unfold intervalPerCard. intros -> ->. reflexivity. Qed.

(** From a state that displays [j] cards at time [(j - 1) * interval],
    whatever quiet actions happen, the timer fires one interval later and
    reveals the next card of the sorted selection. *)
Lemma revealTimeline_spec (cap : Captured) (selection : list CardData)
    (interval : Q) (between : list (list Action)) :
  forall (j : nat) (t : Q) (s : State),
    cards s = selection ->
    intervalPerCard s = interval ->
    List.length (displayedCards s) = j ->
    j + List.length between <= List.length selection ->
    Qeq t (Qmult (inject_Z (Z.of_nat j - 1)) interval) ->
    Forall (fun trace => forallb quiet trace = true) between ->
    Forall2
      (fun entry k =>
         Qeq (fst entry) (Qmult (inject_Z (Z.of_nat k)) interval)
         /\ snd entry = firstn (k + 1) (sortCards selection))
      (revealTimeline cap t s between) (seq j (List.length between)).
Proof.
  induction between as [|trace between IH];
    intros j t s Hc Hi Hj Hle Ht Hb; [constructor|].
  apply Forall_cons_iff in Hb. destruct Hb as [Hev Hrest].
  cbn [revealTimeline]. rewrite Hev.
  simpl List.length in Hle.
  assert (Hne : cards s <> []).
  { intros E. rewrite <- Hc, E in Hle. simpl in Hle. lia. }
  destruct (run_quiet_frame cap trace s Hev Hne) as (R1 & R2 & R3).
  cbv zeta in R1, R2, R3.
  set (s1 := run cap trace s) in *.
  assert (Hi1 : intervalPerCard s1 = interval).
  { rewrite <- Hi. apply intervalPerCard_eq; assumption. }
  assert (L : List.length (displayedCards s1) < List.length (cards s1)).
  { rewrite R1, R3, Hc. lia. }
  assert (T : cardTimer s1 = Some interval).
  { unfold cardTimer. rewrite length_sortCards, Hi1.
    replace (Nat.eqb (List.length (cards s1)) 0) with false
      by (symmetry; apply Nat.eqb_neq; lia).
    replace (Nat.leb (List.length (cards s1))
                     (List.length (displayedCards s1))) with false
      by (symmetry; apply Nat.leb_gt; exact L).
    reflexivity. }
  rewrite T.
  destruct (step_CardTimer cap s1 L) as (C1 & C2 & C3).
  cbv zeta in C1, C2, C3.
  set (s2 := step cap CardTimer s1) in *.
  assert (Tj : Qeq (Qplus t interval)
                   (Qmult (inject_Z (Z.of_nat j)) interval)).
  { rewrite Ht. unfold Z.sub. rewrite inject_Z_plus. simpl inject_Z. ring. }
  simpl seq. constructor.
  - cbn [fst snd]. split; [exact Tj|].
    rewrite C3, R3, R1, Hc, Hj. reflexivity.
  - apply IH.
    + rewrite C1, R1. exact Hc.
    + rewrite <- Hi1. apply intervalPerCard_eq; assumption.
    + rewrite C3, firstn_length_le; rewrite R3, ?length_sortCards, ?R1, ?Hc;
        lia.
    + lia.
    + rewrite Tj. replace (Z.of_nat (S j) - 1)%Z with (Z.of_nat j) by lia.
      reflexivity.
    + exact Hrest.
Qed.

(** C5 (amended). Reveal pacing: a [cards_selected] event with a list of
    N cards displays the first card of the payload at once and starts the
    card display timer, whose interval is the total display time of the
    spread type divided by N (5000 ms over 3 cards, 10000 ms over 10
    cards).  Whatever events without card list arrive from the stream and
    whatever other timers fire in between, the timer fires one interval
    after the other, and its k-th firing, k intervals after
    [cards_selected], sets the displayed cards to the first k + 1 cards in
    the order of [position_order].  When the payload is in position order
    the card displayed at once is the first of them, so the cards appear
    one at a time, card k + 1 after k intervals; when it is not, the first
    firing replaces the card displayed at once by the first two cards in
    position order. *)
Theorem reveal_pacing (cap : Captured) (data : ProgressData)
    (cardList : list RawCard) (s : State) (between : list (list Action)) :
  selected_cards data = Some cardList
  \/ (selected_cards data = None /\ data_cards data = Some cardList) ->
  let position := fun card : RawCard =>
    match raw_position_order card with Some z => z | None => 0%Z end in
  let n := List.length cardList in
  let s1 := step cap (Receive (Progress "cards_selected" data)) s in
  let totalDisplayTime :=
    match spreadType s1 with
    | three_card => inject_Z 5000
    | celtic_cross => inject_Z 10000
    end in
  let interval := Qdiv totalDisplayTime (inject_Z (Z.of_nat n)) in
  let sorted := sortCards (cards s1) in
  1 <= n ->
  List.length between = n - 1 ->
  Forall (fun trace => forallb quiet trace = true) between ->
  map position_order (cards s1) = map position cardList
  /\ Permutation sorted (cards s1)
  /\ StronglySorted inOrder sorted
  /\ displayedCards s1 = firstn 1 (cards s1)
  /\ (n = 3 -> Qeq interval (Qmake 5000 3))
  /\ (n = 10 -> Qeq interval (Qmake 1000 1))
  /\ Forall2
       (fun entry k =>
          Qeq (fst entry) (Qmult (inject_Z (Z.of_nat k)) interval)
          /\ snd entry = firstn (k + 1) sorted)
       (revealTimeline cap (inject_Z 0) s1 between) (seq 1 (n - 1))
  /\ (StronglySorted Z.le (map position cardList) ->
      displayedCards s1 = firstn 1 sorted).
Proof.
  intros P position n s1 totalDisplayTime interval sorted Hn Hlen Hb.
  destruct (payload_cardList data cardList P) as [H L].
  destruct (step_cards_selected cap data s H) as (_ & S1 & S2 & S3).
  cbv zeta in S1, S2, S3. rewrite L in S1, S2, S3. fold s1 in S1, S2, S3.
  rewrite length_map in S3. fold n in S3.
  assert (Ln : List.length (cards s1) = n) by (rewrite S1; apply length_map).
  assert (Mp : map position_order (cards s1) = map position cardList).
  { rewrite S1, map_map. apply map_ext. intros card.
    rewrite toCardData_fields. reflexivity. }
  assert (I : intervalPerCard s1 = interval).
  { unfold interval, intervalPerCard, totalDisplayTime, HomePage.totalDisplayTime.
    rewrite length_sortCards, Ln. destruct (spreadType s1); reflexivity. }
  split; [exact Mp|].
  split; [apply sortCards_perm|]. split; [apply sortCards_sorted|].
  split; [rewrite S2, S1; reflexivity|].
  split; [|split; [|split]].
  - intros E. unfold interval, totalDisplayTime. rewrite S3, E. reflexivity.
  - intros E. unfold interval, totalDisplayTime. rewrite S3, E. reflexivity.
  - rewrite <- Hlen.
    apply revealTimeline_spec; try assumption; try reflexivity.
    + rewrite S2, <- S1. destruct (cards s1); [simpl in Ln; lia|reflexivity].
    + rewrite Ln. lia.
  - intros Hs. unfold sorted. rewrite sortCards_fixed.
    + rewrite S2, S1. reflexivity.
    + apply sorted_positions. rewrite Mp. exact Hs.
Qed.

Lemma reveal_pacing_witness :
  let s1 := step freshCaptured
              (Receive (Progress "cards_selected" Samples.threeCards))
              fresh in
  Forall2
    (fun entry k =>
       Qeq (fst entry)
           (Qmult (inject_Z (Z.of_nat k))
              (Qdiv (inject_Z 5000) (inject_Z (Z.of_nat 3))))
       /\ snd entry = firstn (k + 1) (sortCards (cards s1)))
    (revealTimeline freshCaptured (inject_Z 0) s1
       [[Receive (Progress "pattern_analyzed" noData); TypingTick];
        [ReceiveBatch [ImageryChunk "Three cards ";
                       Progress "rag_retrieved" noData];
         TimeoutFires 0]])
    (seq 1 2).
Proof.
  refine (proj1 (proj2 (proj2 (proj2 (proj2 (proj2 (proj2
            (reveal_pacing freshCaptured Samples.threeCards
               [Samples.card "The Fool" 0; Samples.card "The Moon" 1;
                Samples.card "The Sun" 2]
               fresh
               [[Receive (Progress "pattern_analyzed" noData); TypingTick];
                [ReceiveBatch [ImageryChunk "Three cards ";
                               Progress "rag_retrieved" noData];
                 TimeoutFires 0]]
               (or_introl eq_refl) _ eq_refl _)))))))).
  - simpl. lia.
  - repeat constructor.
Defined.

(** C5 as stated fails: in the three-card spread the first card is on
    display when [cards_selected] has been handled, the second appears
    after 5000/3 ms and the third after 10000/3 ms, not after 5000 ms. *)
Lemma third_card_before_five_seconds :
  let s1 := step freshCaptured
              (Receive (Progress "cards_selected" Samples.threeCards))
              fresh in
  List.length (displayedCards s1) = 1
  /\ map (fun entry => (Qred (fst entry), List.length (snd entry)))
       (revealTimeline freshCaptured (inject_Z 0) s1 [[]; []])
     = [(Qmake 5000 3, 2); (Qmake 10000 3, 3)]
  /\ ~ Qeq (Qmake 10000 3) (Qmult (inject_Z 3) (Qmake 5000 3)).
Proof.
  split; [reflexivity|]. split; [vm_compute; reflexivity|].
  intros E. vm_compute in E. discriminate E.
Qed.

End HomePageProps.

(** ** Properties of lists *)

Module ListProps.

Lemma firstn_In {A : Type} (k : nat) (l : list A) (x : A) :
  In x (firstn k l) -> In x l.
Proof.
  revert l. induction k as [|k IH]; intros [|y l] H; cbn in *; try tauto.
  destruct H as [H|H]; [left; exact H|right; apply IH; exact H].
Qed.

Lemma NoDup_firstn {A : Type} (k : nat) (l : list A) :
  NoDup l -> NoDup (firstn k l).
Proof.
  intros H. revert k. induction H as [|x l Hx Hl IH]; intros [|k];
    cbn [firstn]; try constructor.
  - intros Hin. apply Hx. apply (firstn_In k l x Hin).
  - apply IH.
Qed.

End ListProps.

(** ** More on the string primitives *)

Module JsMore.

Import JsProps.

Lemma substring_length_take (n : nat) (b : string) :
  Js.substring (String.length (Js.take n b)) b = Js.substring n b.
Proof.
  revert b. induction n as [|n IH]; intros [|c b]; cbn; try reflexivity.
  apply IH.
Qed.

Lemma take_add (n m : nat) (b : string) :
  Js.take (n + m) b = (Js.take n b ++ Js.take m (Js.substring n b))%string.
Proof.
  revert b. induction n as [|n IH]; intros b; [reflexivity|].
  destruct b as [|c b]; cbn.
  - destruct m; reflexivity.
  - rewrite IH. reflexivity.
Qed.

Lemma substring_add (n m : nat) (b : string) :
  Js.substring m (Js.substring n b) = Js.substring (n + m) b.
Proof.
  revert b. induction n as [|n IH]; intros b; [reflexivity|].
  destruct b as [|c b]; cbn; [destruct m; reflexivity|apply IH].
Qed.

Lemma take_all (n : nat) (b : string) :
  String.length b <= n -> Js.take n b = b.
Proof.
  revert b. induction n as [|n IH]; intros [|c b] H; cbn in *;
    try reflexivity; try lia.
  rewrite IH by lia. reflexivity.
Qed.

Lemma substring_all (n : nat) (b : string) :
  String.length b <= n -> Js.substring n b = "".
Proof.
  revert b. induction n as [|n IH]; intros [|c b] H; cbn in *;
    try reflexivity; try lia.
  apply IH. lia.
Qed.

Lemma length_take (n : nat) (b : string) :
  String.length (Js.take n b) <= n.
Proof.
  revert b. induction n as [|n IH]; intros [|c b]; cbn; try lia.
  specialize (IH b). lia.
Qed.

Lemma length_append (a b : string) :
  String.length (a ++ b) = String.length a + String.length b.
Proof. induction a as [|c a IH]; cbn; congruence. Qed.

End JsMore.

(** ** More on the client state machine *)

Module HomePageMore.

Import HomePage HomePageTerms JsProps JsMore HomePageProps.

(** *** The typing queue *)

(** What a firing of the typing interval does to the typing queue when the
    queue is armed. *)
Lemma step_TypingTick (cap : Captured) (s : State) :
  typingArmed s ->
  let s' := step cap TypingTick s in
  interpretationDisplay s'
  = (interpretationDisplay s ++ Js.take 5 (interpretationBufferRef s))%string
  /\ interpretationBufferRef s' = Js.substring 5 (interpretationBufferRef s)
  /\ typingArmed s'.
Proof.
  intros A s'.
  assert (E : interpretationDisplay s' = interpretationDisplay (typingTick s)
              /\ interpretationBufferRef s'
                 = interpretationBufferRef (typingTick s)
              /\ typingIntervalRef s' = typingIntervalRef (typingTick s)).
  { unfold s', step, effects, interpretationBoxEffect, cardEffect.
    destruct (Nat.eqb (List.length (cards (typingTick s))) 0);
      match goal with |- context [if ?c then _ else _] => destruct c end;
      repeat split. }
  destruct E as (E1 & E2 & E3). unfold typingArmed. rewrite E1, E2, E3.
  clear E1 E2 E3 s'. unfold typingTick.
  destruct (typingIntervalRef s) eqn:T.
  - destruct (interpretationBufferRef s) as [|c b] eqn:B.
    + cbn [String.length Nat.eqb]. unfold writeTypingIntervalRef.
      cbn [interpretationDisplay interpretationBufferRef typingIntervalRef].
      rewrite B. cbn [Js.take Js.substring]. rewrite append_nil_r.
      split; [reflexivity|]. split; [reflexivity|]. left. reflexivity.
    + cbn [String.length Nat.eqb].
      unfold setInterpretationDisplay, writeInterpretationBufferRef.
      cbn [interpretationDisplay interpretationBufferRef typingIntervalRef].
      rewrite substring_length_take, T.
      split; [reflexivity|]. split; [reflexivity|]. right. reflexivity.
  - destruct A as [A|A]; [|congruence]. rewrite A.
    cbn [Js.take Js.substring]. rewrite append_nil_r.
    split; [reflexivity|]. split; [reflexivity|]. left. reflexivity.
Qed.

Lemma run_typingTicks (cap : Captured) (n : nat) :
  forall s : State,
    typingArmed s ->
    let s' := run cap (typingTicks n) s in
    interpretationDisplay s'
    = (interpretationDisplay s
       ++ Js.take (5 * n) (interpretationBufferRef s))%string
    /\ interpretationBufferRef s'
       = Js.substring (5 * n) (interpretationBufferRef s)
    /\ typingArmed s'.
Proof.
  induction n as [|n IH]; intros s A.
  - cbn. rewrite append_nil_r.
    split; [reflexivity|]. split; [reflexivity|]. exact A.
  - destruct (step_TypingTick cap s A) as (S1 & S2 & S3).
    destruct (IH (step cap TypingTick s) S3) as (I1 & I2 & I3).
    change (run cap (typingTicks (S n)) s)
      with (run cap (typingTicks n) (step cap TypingTick s)).
    cbv zeta in *. rewrite I1, I2, S1, S2.
    replace (5 * S n) with (5 + 5 * n) by lia.
    rewrite take_add, substring_add, append_assoc.
    split; [reflexivity|]. split; [reflexivity|]. exact I3.
Qed.

(** Every callback keeps the typing queue armed. *)
Lemma handle_typingArmed (cap : Captured) (e : Event) (s : State) :
  typingArmed s -> typingArmed (handle cap e s).
Proof.
  intros A. unfold typingArmed.
  destruct e as [name data|t|result|errorMsg]; simpl.
  - unfold onProgress.
    destruct (String.eqb name "imagery_chunk" && isTruthy (text data)).
    { destruct (Nat.eqb _ 0); exact A. }
    destruct (String.eqb name "cards_selected" && hasCardList data).
    { cbv zeta. set (cardData := map toCardData (cardListOf data)).
      destruct (Nat.eqb (List.length cardData) 3);
        destruct (Nat.eqb (List.length cardData) 10);
        destruct cardData; exact A. }
    destruct (String.eqb name "rag_retrieved"); [exact A|].
    destruct (String.eqb name "imagery_generated").
    { match goal with |- context [if ?c then _ else _] => destruct c end;
        exact A. }
    destruct (String.eqb name "interpretation_started"); [|exact A].
    destruct (negb (cap_showInterpretationBox cap)); exact A.
  - right. unfold onInterpretation, startInterpretationTyping.
    destruct (Nat.eqb _ 0);
      destruct (negb (cap_hasUserInteracted cap)
                && negb (cap_isImageryExpanded cap)); simpl;
      destruct (typingIntervalRef s) eqn:T; simpl; auto.
  - unfold onComplete. cbv zeta. destruct (isTruthy _); exact A.
  - left. reflexivity.
Qed.

Lemma replay_typingArmed (cap : Captured) (events : list Event) :
  forall s : State, typingArmed s -> typingArmed (replay cap events s).
Proof.
  induction events as [|e events IH]; intros s A; [exact A|].
  change (replay cap (e :: events) s)
    with (replay cap events (handle cap e s)).
  apply IH, handle_typingArmed, A.
Qed.

Lemma effects_typingArmed (s : State) :
  typingArmed s -> typingArmed (effects s).
Proof.
  unfold typingArmed, effects, interpretationBoxEffect, cardEffect.
  destruct (Nat.eqb (List.length (cards s)) 0);
    match goal with |- context [if ?c then _ else _] => destruct c end;
    auto.
Qed.

(** Every action keeps the typing queue armed. *)
Lemma step_typingArmed (cap : Captured) (a : Action) (s : State) :
  typingArmed s -> typingArmed (step cap a s).
Proof.
  intros A.
  destruct a as [e| | | |k|events].
  - apply effects_typingArmed, handle_typingArmed, A.
  - apply (step_TypingTick cap s A).
  - unfold step, typingArmed, effects, interpretationBoxEffect, cardEffect,
      fireCardTimer.
    destruct (cardTimer s); cbv zeta;
      repeat match goal with
             | |- context [if ?c then _ else _] => destruct c
             end; exact A.
  - unfold step, typingArmed, effects, interpretationBoxEffect, cardEffect,
      fireInterpretationBoxTimer.
    repeat match goal with
           | |- context [if ?c then _ else _] => destruct c
           end; exact A.
  - unfold step, typingArmed, effects, interpretationBoxEffect, cardEffect,
      fireTimeout.
    destruct (nth_error (timeouts s) k) as [[delay []]|];
      repeat match goal with
             | |- context [if ?c then _ else _] => destruct c
             end; exact A.
  - apply effects_typingArmed, replay_typingArmed, A.
Qed.

Lemma run_typingArmed (cap : Captured) (trace : list Action) :
  forall s : State, typingArmed s -> typingArmed (run cap trace s).
Proof.
  induction trace as [|a trace IH]; intros s A; [exact A|].
  apply IH, step_typingArmed, A.
Qed.

(** X1. The typing queue drains in order, five characters at a time: in
    any state reached from a fresh instance, after [n] firings of the
    typing interval the displayed interpretation has grown by the first
    [5 * n] characters of the queue and the queue has lost them; once
    [5 * n] covers the queue, the whole queue is on display, the queue is
    empty, and the next firing clears the interval. *)
Theorem typing_queue_drains (cap : Captured) (trace : list Action) (n : nat) :
  let s := run cap trace fresh in
  let s' := run cap (typingTicks n) s in
  interpretationDisplay s'
  = (interpretationDisplay s
     ++ Js.take (5 * n) (interpretationBufferRef s))%string
  /\ interpretationBufferRef s'
     = Js.substring (5 * n) (interpretationBufferRef s)
  /\ (String.length (interpretationBufferRef s) <= 5 * n ->
        interpretationDisplay s'
        = (interpretationDisplay s ++ interpretationBufferRef s)%string
        /\ interpretationBufferRef s' = ""
        /\ typingIntervalRef (step cap TypingTick s') = false).
Proof.
  intros s s'.
  assert (A : typingArmed s).
  { apply run_typingArmed. left. reflexivity. }
  destruct (run_typingTicks cap n s A) as (R1 & R2 & R3).
  fold s' in R1, R2, R3.
  split; [exact R1|]. split; [exact R2|].
  intros L. rewrite R1, R2, take_all, substring_all by exact L.
  split; [reflexivity|]. split; [reflexivity|].
  assert (B : interpretationBufferRef s' = "").
  { rewrite R2. apply substring_all. exact L. }
  unfold step, effects, interpretationBoxEffect, cardEffect, typingTick.
  rewrite B. cbn [String.length Nat.eqb].
  destruct (typingIntervalRef s') eqn:T;
    repeat match goal with
           | |- context [if ?c then _ else _] => destruct c
           end; cbn; try reflexivity; exact T.
Qed.

End HomePageMore.

(** ** More on the client state machine: texts, boxes and cards *)

Module HomePageTexts.

Import HomePage HomePageTerms JsProps JsMore HomePageProps HomePageMore.

(** *** The interpretation text *)

Lemma interpretationText_handle (cap : Captured) (e : Event) (s : State) :
  isError e = false ->
  interpretationText (handle cap e s)
  = (interpretationText s ++ fragmentText e)%string.
Proof.
  unfold interpretationText, readingState. cbn [crs_interpretation].
  destruct e as [name data|t|result|errorMsg]; cbn [handle fragmentText isError];
    intros H; try discriminate H; rewrite ?append_nil_r.
  - unfold onProgress.
    destruct (String.eqb name "imagery_chunk" && isTruthy (text data)).
    { destruct (Nat.eqb _ 0); reflexivity. }
    destruct (String.eqb name "cards_selected" && hasCardList data).
    { cbv zeta. set (cardData := map toCardData (cardListOf data)).
      destruct (Nat.eqb (List.length cardData) 3);
        destruct (Nat.eqb (List.length cardData) 10);
        destruct cardData; reflexivity. }
    destruct (String.eqb name "rag_retrieved"); [reflexivity|].
    destruct (String.eqb name "imagery_generated").
    { match goal with |- context [if ?c then _ else _] => destruct c end;
        reflexivity. }
    destruct (String.eqb name "interpretation_started"); [|reflexivity].
    destruct (negb (cap_showInterpretationBox cap)); reflexivity.
  - unfold onInterpretation, startInterpretationTyping.
    destruct (Nat.eqb _ 0);
      destruct (negb (cap_hasUserInteracted cap)
                && negb (cap_isImageryExpanded cap)); simpl;
      destruct (typingIntervalRef s); simpl;
      rewrite append_assoc; reflexivity.
  - unfold onComplete. cbv zeta. destruct (isTruthy _); reflexivity.
Qed.

Lemma interpretationText_replay (cap : Captured) (events : list Event) :
  forall s : State,
    Forall (fun e => isError e = false) events ->
    interpretationText (replay cap events s)
    = (interpretationText s ++ joinText (map fragmentText events))%string.
Proof.
  induction events as [|e events IH]; intros s H.
  - cbn. rewrite append_nil_r. reflexivity.
  - apply Forall_cons_iff in H. destruct H as [He Hr].
    change (replay cap (e :: events) s)
      with (replay cap events (handle cap e s)).
    rewrite (IH _ Hr), (interpretationText_handle cap e s He).
    cbn [map joinText fold_right]. apply append_assoc.
Qed.

Lemma interpretationText_step (cap : Captured) (a : Action) (s : State) :
  Forall (fun e => isError e = false) (eventsOf [a]) ->
  interpretationText (step cap a s)
  = (interpretationText s
     ++ joinText (map fragmentText (eventsOf [a])))%string.
Proof.
  intros H. unfold interpretationText at 1.
  rewrite (readingState_step cap a s s eq_refl).
  apply interpretationText_replay. exact H.
Qed.

Lemma interpretationText_run (cap : Captured) (trace : list Action) :
  forall s : State,
    Forall (fun e => isError e = false) (eventsOf trace) ->
    interpretationText (run cap trace s)
    = (interpretationText s
       ++ joinText (map fragmentText (eventsOf trace)))%string.
Proof.
  induction trace as [|a trace IH]; intros s H.
  - cbn. rewrite append_nil_r. reflexivity.
  - change (a :: trace) with ([a] ++ trace) in H |- *.
    rewrite eventsOf_app in H. apply Forall_app in H. destruct H as [Ha Ht].
    rewrite run_app, (IH _ Ht).
    change (run cap [a] s) with (step cap a s).
    rewrite (interpretationText_step cap a s Ha).
    rewrite eventsOf_app, map_app, joinText_app, append_assoc. reflexivity.
Qed.

(** X2. Fragment concatenation on the interpretation text: over a run
    without [error] event, whatever timers fire, the interpretation text
    (displayed plus still queued) grows by the texts of the
    [interpretation] events in arrival order; an [error] event empties
    it. *)
Theorem interpretation_concatenation (cap : Captured) (trace : list Action)
    (s : State) :
  Forall (fun e => isError e = false) (eventsOf trace) ->
  interpretationText (run cap trace s)
  = (interpretationText s
     ++ joinText (map fragmentText (eventsOf trace)))%string
  /\ interpretationText fresh = ""
  /\ forall errorMsg : string,
       interpretationText (step cap (Receive (Error errorMsg)) (run cap trace s))
       = "".
Proof.
  intros H. split; [apply interpretationText_run; exact H|].
  split; [reflexivity|].
  intros errorMsg. unfold interpretationText, step.
  rewrite readingState_effects. reflexivity.
Qed.

Lemma interpretation_concatenation_witness :
  interpretationText
    (run freshCaptured
       [Receive (Interpretation "The Fool "); TypingTick;
        Receive (Progress "interpretation_started" noData);
        Receive (Interpretation "walks on.")] fresh)
  = "The Fool walks on.".
Proof.
  refine (proj1 (interpretation_concatenation freshCaptured
                   [Receive (Interpretation "The Fool "); TypingTick;
                    Receive (Progress "interpretation_started" noData);
                    Receive (Interpretation "walks on.")] fresh _)).
  simpl. repeat constructor.
Defined.

(** X3. Without [error] event the whole interpretation ends up on display:
    in a fresh instance, when the events of a run are followed by enough
    firings of the typing interval (five characters each), the displayed
    interpretation is exactly the concatenation of the [interpretation]
    fragments, and the typing queue is empty. *)
Theorem interpretation_fully_displayed (cap : Captured)
    (trace : list Action) (n : nat) :
  Forall (fun e => isError e = false) (eventsOf trace) ->
  let full := joinText (map fragmentText (eventsOf trace)) in
  String.length full <= 5 * n ->
  let s' := run cap (trace ++ typingTicks n) fresh in
  interpretationDisplay s' = full /\ interpretationBufferRef s' = "".
Proof.
  intros H full L s'.
  pose proof (interpretationText_run cap trace fresh H) as T.
  fold full in T. change (interpretationText fresh) with "" in T.
  cbn [String.append] in T.
  set (s := run cap trace fresh) in *.
  assert (A : typingArmed s).
  { apply run_typingArmed. left. reflexivity. }
  destruct (run_typingTicks cap n s A) as (R1 & R2 & _).
  unfold s', s. rewrite run_app. fold s.
  cbv zeta in R1, R2.
  assert (Lb : String.length (interpretationBufferRef s) <= 5 * n).
  { unfold interpretationText, readingState in T. cbn in T.
    rewrite <- T, length_append in L. lia. }
  rewrite R1, R2, take_all, substring_all by exact Lb.
  split; [exact T|reflexivity].
Qed.

Lemma interpretation_fully_displayed_witness :
  interpretationDisplay
    (run freshCaptured
       ([Receive (Interpretation "The Fool "); TypingTick;
         Receive (Interpretation "walks on.")] ++ typingTicks 4) fresh)
  = "The Fool walks on.".
Proof.
  refine (proj1 (interpretation_fully_displayed freshCaptured
                   [Receive (Interpretation "The Fool "); TypingTick;
                    Receive (Interpretation "walks on.")] 4 _ _)).
  - simpl. repeat constructor.
  - simpl. lia.
Defined.

(** *** The imagery text *)

(** X4. The full text of an [imagery_generated] event is adopted on the
    imagery text as it was when the form was submitted, not as it is when
    the event arrives: when that text was empty, a non-empty full text
    replaces whatever chunks were streamed before the event, and the
    chunks after it are appended to it; when it was not empty, the event
    leaves the imagery buffer alone. *)
Theorem imagery_fallback_on_submitted_text (cap : Captured)
    (data : ProgressData) (full : string) (before after : list Action)
    (s : State) :
  imagery_description data = Some full ->
  full <> "" ->
  Forall (fun e => adoptsFallback cap e = false) (eventsOf after) ->
  let trace := before ++ Receive (Progress "imagery_generated" data) :: after in
  (cap_imageryDescription cap = "" ->
     imageryDescription (run cap trace s)
     = (full ++ joinText (map chunkText (eventsOf after)))%string)
  /\ (cap_imageryDescription cap <> "" ->
        imageryDescription (run cap trace s)
        = (imageryDescription (run cap before s)
           ++ joinText (map chunkText (eventsOf after)))%string).
Proof.
  intros D F H trace. unfold trace.
  rewrite run_app.
  change (run cap (Receive (Progress "imagery_generated" data) :: after)
            (run cap before s))
    with (run cap after
            (step cap (Receive (Progress "imagery_generated" data))
               (run cap before s))).
  rewrite (imageryDescription_run cap after _ H).
  set (s0 := run cap before s).
  assert (E : imageryDescription
                (step cap (Receive (Progress "imagery_generated" data)) s0)
              = if Js.truthy (cap_imageryDescription cap)
                then imageryDescription s0 else full).
  { unfold step.
    rewrite (imageryDescription_readingState _ _ (readingState_effects _)).
    unfold handle, onProgress.
    change (String.eqb "imagery_generated" "imagery_chunk") with false.
    change (String.eqb "imagery_generated" "cards_selected") with false.
    change (String.eqb "imagery_generated" "rag_retrieved") with false.
    change (String.eqb "imagery_generated" "imagery_generated") with true.
    cbn [andb]. rewrite D. destruct full as [|c full]; [congruence|].
    cbn [isTruthy Js.truthy andb].
    destruct (Js.truthy (cap_imageryDescription cap)); reflexivity. }
  rewrite E. split; intros C.
  - rewrite C. reflexivity.
  - destruct (cap_imageryDescription cap); [congruence|reflexivity].
Qed.

Lemma imagery_fallback_on_submitted_text_witness :
  imageryDescription
    (run freshCaptured
       ([Receive (ImageryChunk "Three cards ")]
        ++ Receive (Progress "imagery_generated"
                      (mkProgressData None None None (Some "A quiet row.")))
           :: [Receive (ImageryChunk " The end.")]) fresh)
  = "A quiet row. The end.".
Proof.
  refine (proj1 (imagery_fallback_on_submitted_text freshCaptured
                   (mkProgressData None None None (Some "A quiet row."))
                   "A quiet row."
                   [Receive (ImageryChunk "Three cards ")]
                   [Receive (ImageryChunk " The end.")] fresh
                   eq_refl _ _) eq_refl).
  - discriminate.
  - simpl. repeat constructor.
Defined.

End HomePageTexts.

(** ** More on the client state machine: boxes and cards *)

Module HomePageCards.

Import HomePage HomePageTerms JsProps JsMore HomePageProps HomePageMore.
Import ListProps.

Ltac split_cases :=
  repeat match goal with
         | |- context [if ?c then _ else _] => destruct c
         | |- context [match ?l with [] => _ | _ :: _ => _ end] => destruct l
         end.

(** *** The boxes *)

(** No callback and no effect hides a box or takes back that all cards
    are displayed. *)
Lemma handle_boxes_stay (cap : Captured) (e : Event) (s : State) :
  (showImageryBox s = true -> showImageryBox (handle cap e s) = true)
  /\ (showInterpretationBox s = true ->
        showInterpretationBox (handle cap e s) = true)
  /\ (allCardsDisplayed s = true -> allCardsDisplayed (handle cap e s) = true).
Proof.
  destruct e as [name data|t|result|errorMsg]; cbn [handle].
  - unfold onProgress. cbv zeta.
    set (cardData := map toCardData (cardListOf data)).
    split_cases; cbn; auto.
  - unfold onInterpretation, startInterpretationTyping. cbv zeta.
    split_cases; cbn; split_cases; cbn; auto.
  - unfold onComplete. cbv zeta. split_cases; cbn; auto.
  - unfold onError. cbv zeta. cbn. auto.
Qed.

Lemma replay_boxes_stay (cap : Captured) (events : list Event) :
  forall s : State,
    (showImageryBox s = true -> showImageryBox (replay cap events s) = true)
    /\ (showInterpretationBox s = true ->
          showInterpretationBox (replay cap events s) = true)
    /\ (allCardsDisplayed s = true ->
          allCardsDisplayed (replay cap events s) = true).
Proof.
  induction events as [|e events IH]; intros s; [auto|].
  destruct (handle_boxes_stay cap e s) as (H1 & H2 & H3).
  destruct (IH (handle cap e s)) as (I1 & I2 & I3).
  change (replay cap (e :: events) s)
    with (replay cap events (handle cap e s)).
  auto.
Qed.

Lemma effects_boxes_stay (s : State) :
  (showImageryBox s = true -> showImageryBox (effects s) = true)
  /\ (showInterpretationBox s = true ->
        showInterpretationBox (effects s) = true)
  /\ (allCardsDisplayed s = true -> allCardsDisplayed (effects s) = true).
Proof.
  unfold effects, interpretationBoxEffect, cardEffect.
  split_cases; cbn; auto.
Qed.

(** No action hides a box or takes back that all cards are displayed. *)
Lemma step_boxes_stay (cap : Captured) (a : Action) (s : State) :
  (showImageryBox s = true -> showImageryBox (step cap a s) = true)
  /\ (showInterpretationBox s = true ->
        showInterpretationBox (step cap a s) = true)
  /\ (allCardsDisplayed s = true -> allCardsDisplayed (step cap a s) = true).
Proof.
  assert (F : forall x : State,
             (showImageryBox s = true -> showImageryBox x = true)
             /\ (showInterpretationBox s = true ->
                   showInterpretationBox x = true)
             /\ (allCardsDisplayed s = true -> allCardsDisplayed x = true) ->
             (showImageryBox s = true -> showImageryBox (effects x) = true)
             /\ (showInterpretationBox s = true ->
                   showInterpretationBox (effects x) = true)
             /\ (allCardsDisplayed s = true ->
                   allCardsDisplayed (effects x) = true)).
  { intros x (X1 & X2 & X3).
    destruct (effects_boxes_stay x) as (E1 & E2 & E3). auto. }
  unfold step. apply F. clear F.
  destruct a as [e| | | |k|events].
  - apply handle_boxes_stay.
  - unfold typingTick. cbv zeta. split_cases; cbn; auto.
  - unfold fireCardTimer. destruct (cardTimer s); cbv zeta;
      split_cases; cbn; auto.
  - unfold fireInterpretationBoxTimer. split_cases; cbn; auto.
  - unfold fireTimeout.
    destruct (nth_error (timeouts s) k) as [[delay []]|];
      split_cases; cbn; auto.
  - apply replay_boxes_stay.
Qed.

(** X5. During a reading nothing hides a box again: once the imagery box
    or the interpretation box is visible it stays visible over every
    further event, [error] included, and every timer firing; likewise
    [allCardsDisplayed] is never taken back. *)
Theorem boxes_stay_visible (cap : Captured) (trace : list Action) (s : State) :
  (showImageryBox s = true -> showImageryBox (run cap trace s) = true)
  /\ (showInterpretationBox s = true ->
        showInterpretationBox (run cap trace s) = true)
  /\ (allCardsDisplayed s = true ->
        allCardsDisplayed (run cap trace s) = true).
Proof.
  revert s. induction trace as [|a trace IH]; intros s; [auto|].
  destruct (step_boxes_stay cap a s) as (H1 & H2 & H3).
  destruct (IH (step cap a s)) as (I1 & I2 & I3).
  change (run cap (a :: trace) s) with (run cap trace (step cap a s)).
  auto.
Qed.

Lemma showInterpretationBox_effects (x : State) :
  showInterpretationBox (effects x)
  = (String.eqb (currentStep x) "interpretation_started"
     || showInterpretationBox x).
Proof.
  unfold effects, interpretationBoxEffect, cardEffect.
  destruct x as [cs er ca dc st ri im idp ie ix hu si sb ac br ti tm].
  cbn [cards]. destruct (Nat.eqb (List.length ca) 0);
    cbn [currentStep showInterpretationBox setDisplayedCards];
    destruct (String.eqb cs "interpretation_started"); destruct sb;
    reflexivity.
Qed.

(** Callbacks only add pending timeouts, and effects leave them alone. *)
Lemma handle_timeouts (cap : Captured) (e : Event) (s : State) :
  exists added : list (Z * Task),
    timeouts (handle cap e s) = timeouts s ++ added.
Proof.
  destruct e as [name data|t|result|errorMsg]; cbn [handle].
  - unfold onProgress. cbv zeta.
    set (cardData := map toCardData (cardListOf data)).
    split_cases; cbn [timeouts setTimeout writeTimeouts setCurrentStep
                      setImageryDescription setCards setSpreadType
                      setDisplayedCards];
      first [exists []; rewrite app_nil_r; reflexivity
            |eexists; reflexivity].
  - unfold onInterpretation, startInterpretationTyping. cbv zeta.
    split_cases;
      cbn [timeouts setTimeout writeTimeouts setCurrentStep
           writeInterpretationBufferRef writeTypingIntervalRef
           setIsInterpretationExpanded];
      first [exists []; rewrite app_nil_r; reflexivity
            |eexists; reflexivity].
  - unfold onComplete. cbv zeta.
    split_cases; cbn [timeouts setTimeout writeTimeouts setCurrentStep
                      setReadingId]; eexists; reflexivity.
  - exists []. rewrite app_nil_r. reflexivity.
Qed.

Lemma replay_timeouts (cap : Captured) (events : list Event) :
  forall s : State,
    exists added : list (Z * Task),
      timeouts (replay cap events s) = timeouts s ++ added.
Proof.
  induction events as [|e events IH]; intros s.
  - exists []. rewrite app_nil_r. reflexivity.
  - change (replay cap (e :: events) s)
      with (replay cap events (handle cap e s)).
    destruct (handle_timeouts cap e s) as [a1 E1].
    destruct (IH (handle cap e s)) as [a2 E2].
    exists (a1 ++ a2). rewrite E2, E1, app_assoc. reflexivity.
Qed.

Lemma timeouts_effects (x : State) : timeouts (effects x) = timeouts x.
Proof.
  unfold effects, interpretationBoxEffect, cardEffect.
  split_cases; reflexivity.
Qed.

Lemma currentStep_started (cap : Captured) (data : ProgressData) (s : State) :
  currentStep (handle cap (Progress "interpretation_started" data) s)
  = "interpretation_started"
  /\ timeouts (handle cap (Progress "interpretation_started" data) s)
     = timeouts s
       ++ (if cap_showInterpretationBox cap then []
           else [(0%Z, ShowInterpretationBox)]).
Proof.
  unfold handle, onProgress.
  change (String.eqb "interpretation_started" "imagery_chunk") with false.
  change (String.eqb "interpretation_started" "cards_selected") with false.
  change (String.eqb "interpretation_started" "rag_retrieved") with false.
  change (String.eqb "interpretation_started" "imagery_generated") with false.
  change (String.eqb "interpretation_started" "interpretation_started")
    with true.
  cbn [andb]. cbv zeta.
  destruct (cap_showInterpretationBox cap); cbn; rewrite ?app_nil_r;
    split; reflexivity.
Qed.

Lemma currentStep_generated (cap : Captured) (data : ProgressData)
    (s : State) :
  currentStep (handle cap (Progress "imagery_generated" data) s)
  = "imagery_generated".
Proof.
  unfold handle, onProgress.
  change (String.eqb "imagery_generated" "imagery_chunk") with false.
  change (String.eqb "imagery_generated" "cards_selected") with false.
  change (String.eqb "imagery_generated" "rag_retrieved") with false.
  change (String.eqb "imagery_generated" "imagery_generated") with true.
  cbn [andb]. split_cases; reflexivity.
Qed.

(** X6. When the interpretation box becomes visible.  If React renders
    when an [interpretation_started] event was the last one handled, the
    box is visible after that render, whatever was handled before it in
    the same batch.  If other events of the batch follow it, the render
    does not see the step: then, provided the box was hidden in the render
    that the callbacks captured, a timeout without delay that shows the
    box is pending after the batch, and its firing makes the box visible.
    If React renders when an [imagery_generated] event was the last one
    handled, the box is visible or its one-second timer is pending, and
    the firing of that timer makes it visible. *)
Theorem interpretation_box_shows (cap : Captured) (data : ProgressData)
    (before after : list Event) (s : State) :
  let started := Progress "interpretation_started" data in
  let generated := Progress "imagery_generated" data in
  showInterpretationBox (step cap (ReceiveBatch (before ++ [started])) s)
  = true
  /\ (cap_showInterpretationBox cap = false ->
      let s1 := step cap (ReceiveBatch (before ++ started :: after)) s in
      exists k : nat,
        nth_error (timeouts s1) k = Some (0%Z, ShowInterpretationBox)
        /\ showInterpretationBox (step cap (TimeoutFires k) s1) = true)
  /\ let s1 := step cap (ReceiveBatch (before ++ [generated])) s in
     (showInterpretationBox s1 = true \/ interpretationBoxTimer s1 = true)
     /\ showInterpretationBox (step cap InterpretationBoxTimer s1) = true.
Proof.
  intros started generated. subst started generated. split; [|split].
  - unfold step. rewrite showInterpretationBox_effects, replay_app.
    cbn [replay fold_left].
    rewrite (proj1 (currentStep_started cap data (replay cap before s))).
    reflexivity.
  - intros C s1.
    destruct (currentStep_started cap data (replay cap before s)) as [_ T].
    rewrite C in T.
    set (started := Progress "interpretation_started" data) in *.
    destruct (replay_timeouts cap after
                (handle cap started (replay cap before s))) as [added A].
    assert (E : timeouts s1
                = timeouts (replay cap before s)
                  ++ (0%Z, ShowInterpretationBox) :: added).
    { unfold s1, step. rewrite timeouts_effects, replay_app.
      change (replay cap (started :: after) (replay cap before s))
        with (replay cap after (handle cap started (replay cap before s))).
      rewrite A, T, <- app_assoc. reflexivity. }
    exists (List.length (timeouts (replay cap before s))).
    assert (N : nth_error (timeouts s1)
                  (List.length (timeouts (replay cap before s)))
                = Some (0%Z, ShowInterpretationBox)).
    { rewrite E, nth_error_app2 by lia. rewrite Nat.sub_diag. reflexivity. }
    split; [exact N|].
    unfold step. rewrite showInterpretationBox_effects.
    unfold fireTimeout. rewrite N. cbn. apply orb_true_r.
  - cbv zeta.
    set (generated := Progress "imagery_generated" data).
    set (s1 := step cap (ReceiveBatch (before ++ [generated])) s).
    assert (C : currentStep s1 = "imagery_generated").
    { unfold s1, step.
      destruct (effects_frame (replay cap (before ++ [generated]) s))
        as (E & _).
      rewrite E, replay_app. cbn [replay fold_left].
      apply currentStep_generated. }
    split.
    + unfold interpretationBoxTimer. rewrite C.
      destruct (showInterpretationBox s1); [left|right]; reflexivity.
    + unfold step. rewrite showInterpretationBox_effects.
      unfold fireInterpretationBoxTimer, interpretationBoxTimer.
      rewrite C. change (String.eqb "imagery_generated" "imagery_generated")
        with true.
      destruct (showInterpretationBox s1) eqn:B; cbn [andb negb].
      * rewrite B. apply orb_true_r.
      * apply orb_true_r.
Qed.

Lemma interpretation_box_shows_witness :
  let s1 := step freshCaptured
              (ReceiveBatch
                 ([Progress "imagery_generated" noData]
                  ++ Progress "interpretation_started" noData
                     :: [Interpretation "The Fool "])) fresh in
  showInterpretationBox s1 = false
  /\ exists k : nat,
       nth_error (timeouts s1) k = Some (0%Z, ShowInterpretationBox)
       /\ showInterpretationBox (step freshCaptured (TimeoutFires k) s1)
          = true.
Proof.
  split; [reflexivity|].
  exact (proj1 (proj2 (interpretation_box_shows freshCaptured noData
                         [Progress "imagery_generated" noData]
                         [Interpretation "The Fool "] fresh)) eq_refl).
Defined.

(** *** The end of the card reveal *)

Lemma step_cards_selected_rest (cap : Captured) (data : ProgressData)
    (s : State) :
  hasCardList data = true ->
  let s1 := step cap (Receive (Progress "cards_selected" data)) s in
  allCardsDisplayed s1 = allCardsDisplayed s /\ timeouts s1 = timeouts s.
Proof.
  intros H. unfold step, handle.
  rewrite (onProgress_cards_selected cap data s H). cbv zeta.
  set (cardData := map toCardData (cardListOf data)).
  unfold effects, interpretationBoxEffect, cardEffect.
  split_cases; cbn; split_cases; split; reflexivity.
Qed.

(** One firing of the card display timer: the completion logic runs with
    the last card, once. *)
Lemma step_CardTimer_done (cap : Captured) (s : State) :
  List.length (displayedCards s) < List.length (cards s) ->
  let s2 := step cap CardTimer s in
  let last := Nat.eqb (List.length (displayedCards s) + 1)
                      (List.length (cards s))
              && negb (allCardsDisplayed s) in
  allCardsDisplayed s2 = (if last then true else allCardsDisplayed s)
  /\ timeouts s2
     = timeouts s ++ (if last then [(1000%Z, ShowImageryBox)] else []).
Proof.
  intros L.
  assert (N0 : Nat.eqb (List.length (cards s)) 0 = false)
    by (apply Nat.eqb_neq; lia).
  unfold step, fireCardTimer, cardTimer.
  rewrite N0, length_sortCards.
  replace (Nat.leb (List.length (cards s)) (List.length (displayedCards s)))
    with false by (symmetry; apply Nat.leb_gt; exact L).
  replace (Nat.ltb (List.length (displayedCards s)) (List.length (cards s)))
    with true by (symmetry; apply Nat.ltb_lt; exact L).
  cbv zeta.
  rewrite firstn_length_le by (rewrite length_sortCards; lia).
  unfold effects, interpretationBoxEffect, cardEffect.
  destruct (Nat.eqb (List.length (displayedCards s) + 1)
                    (List.length (cards s)) && negb (allCardsDisplayed s));
    cbn; split_cases; cbn; rewrite ?app_nil_r; split; reflexivity.
Qed.

Lemma run_CardTimer_done (cap : Captured) (k : nat) :
  forall (j : nat) (s : State),
    List.length (displayedCards s) = j ->
    allCardsDisplayed s = false ->
    j < List.length (cards s) ->
    j + k <= List.length (cards s) ->
    let s' := run cap (repeat CardTimer k) s in
    let done := Nat.eqb (j + k) (List.length (cards s)) in
    allCardsDisplayed s' = done
    /\ timeouts s'
       = timeouts s ++ (if done then [(1000%Z, ShowImageryBox)] else [])
    /\ List.length (displayedCards s') = j + k
    /\ cards s' = cards s.
Proof.
  induction k as [|k IH]; intros j s Hj Ha Hlt Hle.
  - cbn [repeat run fold_left]. rewrite Nat.add_0_r.
    replace (Nat.eqb j (List.length (cards s))) with false
      by (symmetry; apply Nat.eqb_neq; lia).
    rewrite app_nil_r. auto.
  - change (run cap (repeat CardTimer (S k)) s)
      with (run cap (repeat CardTimer k) (step cap CardTimer s)).
    destruct (step_CardTimer cap s) as (C1 & _ & C3); [lia|].
    destruct (step_CardTimer_done cap s) as (D1 & D2); [lia|].
    cbv zeta in C1, C3, D1, D2. rewrite Hj, Ha in D1, D2.
    cbn [negb] in D1, D2. rewrite andb_true_r in D1, D2.
    assert (Hj' : List.length (displayedCards (step cap CardTimer s)) = S j).
    { rewrite C3, firstn_length_le; [lia|]. rewrite length_sortCards. lia. }
    destruct (Nat.eqb_spec (j + 1) (List.length (cards s))) as [E|NE].
    + assert (k = 0) by lia. subst k. cbn [repeat run fold_left].
      cbv zeta.
      replace (Nat.eqb (j + 1) (List.length (cards s))) with true
        by (symmetry; apply Nat.eqb_eq; exact E).
      split; [exact D1|]. split; [exact D2|]. split; [lia|exact C1].
    + destruct (IH (S j) (step cap CardTimer s) Hj' D1) as (I1 & I2 & I3 & I4);
        rewrite ?C1; try lia.
      cbv zeta in I1, I2, I3, I4 |- *. rewrite C1 in I1, I2.
      replace (j + S k) with (S j + k) by lia.
      rewrite I1, I2, I3, I4, D2, app_nil_r, C1. repeat split.
Qed.

(** X7. The completion of the card reveal: after a [cards_selected] event
    with N >= 2 cards in a state where not all cards were displayed, the
    firing of the card display timer that reveals the last card, and no
    earlier one, sets [allCardsDisplayed] and schedules once, one second
    later, the timeout that shows the imagery box; from then on no card
    display timer is pending.  With a single card no timer is ever
    started, so this completion never runs. *)
Theorem reveal_completion (cap : Captured) (data : ProgressData) (s : State) :
  hasCardList data = true ->
  allCardsDisplayed s = false ->
  let n := List.length (cardListOf data) in
  let s1 := step cap (Receive (Progress "cards_selected" data)) s in
  (forall k : nat,
      2 <= n -> k <= n - 1 ->
      let s' := run cap (repeat CardTimer k) s1 in
      allCardsDisplayed s' = Nat.eqb k (n - 1)
      /\ timeouts s'
         = timeouts s
           ++ (if Nat.eqb k (n - 1) then [(1000%Z, ShowImageryBox)] else [])
      /\ (k = n - 1 -> cardTimer s' = None))
  /\ (n = 1 -> cardTimer s1 = None /\ allCardsDisplayed s1 = false
               /\ timeouts s1 = timeouts s).
Proof.
  intros H Ha n s1.
  destruct (step_cards_selected cap data s H) as (_ & S1 & S2 & _).
  destruct (step_cards_selected_rest cap data s H) as (R1 & R2).
  cbv zeta in S1, S2, R1, R2. fold s1 in S1, S2, R1, R2.
  assert (Ln : List.length (cards s1) = n).
  { rewrite S1. apply length_map. }
  assert (Ld : 1 <= n -> List.length (displayedCards s1) = 1).
  { intros Hn. rewrite S2, <- S1.
    destruct (cards s1); [simpl in Ln; lia|reflexivity]. }
  split.
  - intros k Hn Hk s'.
    destruct (run_CardTimer_done cap k 1 s1) as (D1 & D2 & D3 & D4);
      rewrite ?Ln; try lia.
    + rewrite R1. exact Ha.
    + cbv zeta in D1, D2, D3, D4. fold s' in D1, D2, D3, D4.
      rewrite Ln in D1, D2. rewrite R2 in D2.
      replace (Nat.eqb (1 + k) n) with (Nat.eqb k (n - 1)) in D1, D2
        by (destruct (Nat.eqb_spec k (n - 1)), (Nat.eqb_spec (1 + k) n);
            try reflexivity; lia).
      split; [exact D1|]. split; [exact D2|].
      intros Ek. unfold cardTimer. rewrite length_sortCards, D4, D3, Ln.
      replace (Nat.eqb n 0) with false by (symmetry; apply Nat.eqb_neq; lia).
      replace (Nat.leb n (1 + k)) with true
        by (symmetry; apply Nat.leb_le; lia).
      reflexivity.
  - intros Hn. split; [|split; [rewrite R1; exact Ha|exact R2]].
    unfold cardTimer. rewrite length_sortCards, Ln, (Ld ltac:(lia)), Hn.
    reflexivity.
Qed.

Lemma reveal_completion_witness :
  let s1 := step freshCaptured
              (Receive (Progress "cards_selected" Samples.threeCards)) fresh in
  let s' := run freshCaptured (repeat CardTimer 2) s1 in
  allCardsDisplayed s' = true
  /\ timeouts s' = [(1000%Z, ShowImageryBox)]
  /\ (2 = 2 -> cardTimer s' = None).
Proof.
  refine (proj1 (reveal_completion freshCaptured Samples.threeCards fresh
                   eq_refl eq_refl) 2 _ _); simpl; lia.
Defined.

(** *** The displayed cards *)

Lemma displayedFromCards_effects (x s : State) :
  cards x = cards s -> displayedCards x = displayedCards s ->
  displayedFromCards s -> displayedFromCards (effects x).
Proof.
  intros Hc Hd I. unfold displayedFromCards.
  destruct (effects_frame x) as (_ & E1 & _ & _ & E3). rewrite E1, E3.
  destruct (Nat.eqb_spec (List.length (cards x)) 0) as [Z|NZ].
  - left. destruct (cards x); [reflexivity|discriminate Z].
  - rewrite Hc, Hd. exact I.
Qed.

(** Between two renders the displayed cards come from the cards or there
    are no cards, in which case the next render clears the displayed
    cards. *)
Lemma handle_displayedFromCards (cap : Captured) (e : Event) (s : State) :
  cards s = [] \/ displayedFromCards s ->
  cards (handle cap e s) = [] \/ displayedFromCards (handle cap e s).
Proof.
  intros I. destruct (restartsReveal e) eqn:R.
  - destruct e as [name data|t|result|errorMsg]; try discriminate R.
    cbn in R. apply andb_prop in R. destruct R as [Rn Rl].
    apply String.eqb_eq in Rn. subst name. cbn [handle].
    rewrite (onProgress_cards_selected cap data s Rl). cbv zeta.
    set (cardData := map toCardData (cardListOf data)).
    destruct cardData as [|first rest]; [left|right; left];
      destruct (Nat.eqb _ 3); try destruct (Nat.eqb _ 10); reflexivity.
  - destruct (handle_reveal_frame cap e s R) as (H1 & _ & H3).
    unfold displayedFromCards. rewrite H1, H3. exact I.
Qed.

Lemma replay_displayedFromCards (cap : Captured) (events : list Event) :
  forall s : State,
    cards s = [] \/ displayedFromCards s ->
    cards (replay cap events s) = []
    \/ displayedFromCards (replay cap events s).
Proof.
  induction events as [|e events IH]; intros s I; [exact I|].
  change (replay cap (e :: events) s)
    with (replay cap events (handle cap e s)).
  apply IH, handle_displayedFromCards, I.
Qed.

Lemma effects_displayedFromCards (x : State) :
  cards x = [] \/ displayedFromCards x -> displayedFromCards (effects x).
Proof.
  intros I. unfold displayedFromCards.
  destruct (effects_frame x) as (_ & E1 & _ & _ & E3). rewrite E1, E3.
  destruct (Nat.eqb_spec (List.length (cards x)) 0) as [Z|NZ].
  - left. destruct (cards x); [reflexivity|discriminate Z].
  - destruct I as [I|I]; [rewrite I in NZ; cbn in NZ; congruence|exact I].
Qed.

Lemma step_displayedFromCards (cap : Captured) (a : Action) (s : State) :
  displayedFromCards s -> displayedFromCards (step cap a s).
Proof.
  intros I. destruct a as [e| | | |k|events].
  - apply effects_displayedFromCards, handle_displayedFromCards.
    right. exact I.
  - apply (displayedFromCards_effects _ s); [| |exact I];
      unfold typingTick; split_cases; reflexivity.
  - destruct (Nat.ltb_spec (List.length (displayedCards s))
                           (List.length (cards s))) as [L|G].
    + destruct (step_CardTimer cap s L) as (C1 & _ & C3).
      cbv zeta in C1, C3. right. exists (List.length (displayedCards s) + 1).
      rewrite C3, C1. reflexivity.
    + assert (T : cardTimer s = None).
      { unfold cardTimer. rewrite length_sortCards.
        destruct (Nat.eqb (List.length (cards s)) 0); [reflexivity|].
        replace (Nat.leb (List.length (cards s))
                         (List.length (displayedCards s))) with true
          by (symmetry; apply Nat.leb_le; exact G).
        reflexivity. }
      apply (displayedFromCards_effects _ s); [| |exact I];
        unfold fireCardTimer; rewrite T; reflexivity.
  - apply (displayedFromCards_effects _ s); [| |exact I];
      unfold fireInterpretationBoxTimer; split_cases; reflexivity.
  - apply (displayedFromCards_effects _ s); [| |exact I];
      unfold fireTimeout;
      destruct (nth_error (timeouts s) k) as [[delay []]|]; reflexivity.
  - apply effects_displayedFromCards, replay_displayedFromCards.
    right. exact I.
Qed.

(** X8. The displayed cards always come from the current selection: in
    every state reached from a fresh instance, whatever events arrive and
    whatever timers fire, the displayed cards are the first card of
    [cards] or a prefix of [cards] in position order, so every displayed
    card is one of [cards] and no more cards are displayed than were
    selected. *)
Theorem displayed_cards_from_selection (cap : Captured) (trace : list Action) :
  let s := run cap trace fresh in
  displayedFromCards s
  /\ List.length (displayedCards s) <= List.length (cards s)
  /\ forall c : CardData, In c (displayedCards s) -> In c (cards s).
Proof.
  intros s.
  assert (I : displayedFromCards s).
  { unfold s. generalize fresh, (or_introl eq_refl : displayedFromCards fresh).
    induction trace as [|a trace IH]; intros s0 I0; [exact I0|].
    apply IH, step_displayedFromCards, I0. }
  split; [exact I|].
  destruct I as [I|[k I]]; rewrite I.
  - split; [rewrite length_firstn; lia|]. intros c. apply firstn_In.
  - split.
    + rewrite length_firstn, length_sortCards. lia.
    + intros c Hc. apply firstn_In in Hc.
      apply (Permutation_in _ (sortCards_perm (cards s))). exact Hc.
Qed.

End HomePageCards.

(** ** More on the stream parser *)

Module ApiMore.

Import Api ApiTerms JsProps ApiProps.

(** *** Lines *)

Lemma split_line (l rest : string) :
  noLF l = true ->
  Js.split (l ++ String Js.LF rest) = l :: Js.split rest.
Proof.
  induction l as [|c l IH]; cbn [noLF String.append Js.split]; intros H.
  - rewrite Ascii.eqb_refl. reflexivity.
  - apply andb_prop in H. destruct H as [Hc Hl].
    destruct (Ascii.eqb c Js.LF); [discriminate Hc|].
    rewrite (IH Hl). reflexivity.
Qed.

Lemma split_noLF (b : string) : noLF b = true -> Js.split b = [b].
Proof.
  induction b as [|c b IH]; cbn [noLF Js.split]; intros H; [reflexivity|].
  apply andb_prop in H. destruct H as [Hc Hb].
  destruct (Ascii.eqb c Js.LF); [discriminate Hc|].
  rewrite (IH Hb). reflexivity.
Qed.

Lemma split_pieces_noLF (s : string) :
  Forall (fun l => noLF l = true) (Js.split s).
Proof.
  induction s as [|c s IH]; cbn [Js.split]; [repeat constructor|].
  destruct (Ascii.eqb c Js.LF) eqn:E; [constructor; [reflexivity|exact IH]|].
  destruct (Js.split s) as [|h t].
  - constructor; [cbn [noLF]; rewrite E; reflexivity|constructor].
  - inversion IH as [|? ? Hh Ht]; subst. constructor; [|exact Ht].
    cbn [noLF]. rewrite E. exact Hh.
Qed.

(** The text after the last line feed is the last piece. *)
Lemma split_LF_tail (x tail : string) :
  noLF tail = true ->
  Js.split (x ++ String Js.LF tail) = Js.split x ++ [tail].
Proof.
  intros H. rewrite split_app.
  assert (L : noLF (last (Js.split x) "") = true).
  { pose proof (split_pieces_noLF x) as F.
    pose proof (split_not_nil x) as N.
    rewrite (app_removelast_last "" N) in F.
    apply Forall_app in F. destruct F as [_ F]. inversion F. assumption. }
  rewrite (split_line _ _ L), (split_noLF _ H).
  rewrite (app_removelast_last "" (split_not_nil x)) at 3.
  rewrite <- app_assoc. reflexivity.
Qed.

Lemma startsWith_append (p s : string) : Js.startsWith (p ++ s) p = true.
Proof.
  induction p as [|c p IH]; [destruct s; reflexivity|].
  cbn [String.append Js.startsWith]. rewrite Ascii.eqb_refl. exact IH.
Qed.

Lemma substring_append (p s : string) :
  Js.substring (String.length p) (p ++ s) = s.
Proof. induction p as [|c p IH]; [reflexivity|exact IH]. Qed.

Section Parser.

Variable JSON_parse : string -> option Json.

(** Feeding a text that ends in a line feed followed by an unfinished
    line: the complete lines are handled, the unfinished line waits in the
    buffer. *)
Lemma feed_LF_tail (st : State) (text tail : string) :
  noLF tail = true ->
  feed JSON_parse st (text ++ String Js.LF tail)
  = let '(ev, calls) :=
      processLines JSON_parse (currentEvent st) (Js.split (buffer st ++ text))
    in (mkState tail ev, calls).
Proof.
  intros H. unfold feed. cbv zeta.
  rewrite <- append_assoc, (split_LF_tail _ _ H).
  rewrite removelast_last, last_last, or_empty. reflexivity.
Qed.

Lemma dispatch_length (ev : string) (data : Json) :
  List.length (dispatch ev data) <= armed ev.
Proof.
  unfold dispatch, armed.
  destruct (String.eqb_spec ev "") as [->|N]; [cbn; lia|].
  repeat match goal with
         | |- context [if ?c then _ else _] => destruct c
         | |- context [match prop ?d ?k with _ => _ end] => destruct (prop d k)
         end; cbn; lia.
Qed.

Lemma armed_le_1 (ev : string) : armed ev <= 1.
Proof. unfold armed. destruct (String.eqb ev ""); lia. Qed.

(** A line invokes a callback only by using up the current event name. *)
Lemma processLine_budget (ev line : string) :
  List.length (snd (processLine JSON_parse ev line))
  + armed (fst (processLine JSON_parse ev line))
  <= armed ev + (if isEventLine line then 1 else 0).
Proof.
  unfold processLine, isEventLine.
  destruct (Js.startsWith line "event: ").
  - cbn [fst snd List.length]. pose proof (armed_le_1 (Js.trim (Js.substring 7 line))). lia.
  - destruct (Js.startsWith line "data: "); [|cbn; lia].
    cbv zeta. destruct (negb (Js.truthy (Js.trim (Js.substring 6 line))));
      [cbn; lia|].
    cbn [fst snd]. change (armed "") with 0.
    destruct (JSON_parse (Js.trim (Js.substring 6 line))) as [data|];
      [pose proof (dispatch_length ev data); lia|cbn; lia].
Qed.

Lemma processLines_budget (lines : list string) :
  forall ev : string,
    List.length (snd (processLines JSON_parse ev lines))
    + armed (fst (processLines JSON_parse ev lines))
    <= armed ev + List.length (filter isEventLine lines).
Proof.
  induction lines as [|line lines IH]; intros ev; [cbn; lia|].
  cbn [processLines filter].
  pose proof (processLine_budget ev line) as B.
  destruct (processLine JSON_parse ev line) as [ev1 c1].
  specialize (IH ev1).
  destruct (processLines JSON_parse ev1 lines) as [ev2 c2].
  cbn [fst snd] in *. rewrite length_app.
  destruct (isEventLine line); cbn [List.length]; lia.
Qed.

(** The lines of a well-formed event. *)
Lemma processLines_frame (ev name payload : string) (rest : list string) :
  Js.trim payload <> "" ->
  processLines JSON_parse ev
    (("event: " ++ name)%string :: ("data: " ++ payload)%string :: "" :: rest)
  = let '(ev', calls) := processLines JSON_parse "" rest in
    (ev', frameCalls JSON_parse (name, payload) ++ calls).
Proof.
  intros H. cbn [processLines].
  assert (E1 : processLine JSON_parse ev ("event: " ++ name)
               = (Js.trim name, [])).
  { unfold processLine. rewrite startsWith_append.
    change 7 with (String.length "event: ").
    rewrite substring_append. reflexivity. }
  assert (E2 : processLine JSON_parse (Js.trim name) ("data: " ++ payload)
               = ("", frameCalls JSON_parse (name, payload))).
  { unfold processLine.
    change (Js.startsWith ("data: " ++ payload) "event: ") with false.
    rewrite startsWith_append. change 6 with (String.length "data: ").
    rewrite substring_append. cbv zeta.
    destruct (Js.trim payload) eqn:T; [congruence|]. cbn [Js.truthy negb].
    unfold frameCalls. cbn [fst snd]. rewrite T. reflexivity. }
  assert (E3 : forall e, processLine JSON_parse e "" = (e, [])).
  { reflexivity. }
  rewrite E1, E2, E3.
  destruct (processLines JSON_parse "" rest) as [ev' calls].
  rewrite app_nil_l. reflexivity.
Qed.

Lemma split_frame (name payload rest : string) :
  noLF name = true -> noLF payload = true ->
  Js.split (frame name payload ++ rest)
  = ("event: " ++ name)%string :: ("data: " ++ payload)%string :: ""
      :: Js.split rest.
Proof.
  intros Hn Hp.
  assert (E : (frame name payload ++ rest)%string
              = (("event: " ++ name)
                 ++ String Js.LF (("data: " ++ payload)
                                  ++ String Js.LF ("" ++ String Js.LF rest)))%string).
  { unfold frame.
    repeat first [rewrite append_assoc | progress cbn [String.append]].
    reflexivity. }
  rewrite E.
  rewrite split_line by (cbn; exact Hn).
  rewrite split_line by (cbn; exact Hp).
  rewrite split_line by reflexivity. reflexivity.
Qed.

Lemma processLines_frames (fs : list (string * string)) :
  Forall wellFormed fs ->
  forall ev,
    processLines JSON_parse ev (removelast (Js.split (frames fs)))
    = (match fs with [] => ev | _ :: _ => "" end,
       flat_map (frameCalls JSON_parse) fs)
    /\ last (Js.split (frames fs)) "" = "".
Proof.
  induction 1 as [|[name payload] fs (Hn & Hp & Ht) Hfs IH]; intros ev.
  - split; reflexivity.
  - cbn [frames fst snd] in *. rewrite (split_frame _ _ _ Hn Hp).
    pose proof (split_not_nil (frames fs)) as N.
    destruct (Js.split (frames fs)) as [|h t] eqn:E; [congruence|].
    change (removelast (("event: " ++ name)%string
                        :: ("data: " ++ payload)%string :: "" :: h :: t))
      with (("event: " ++ name)%string :: ("data: " ++ payload)%string
            :: "" :: removelast (h :: t)).
    rewrite (processLines_frame _ _ _ _ Ht).
    destruct (IH "") as [I1 I2]. rewrite I1.
    split; [|exact I2].
    cbn [flat_map]. destruct fs; reflexivity.
Qed.

Variable Decoder : Type.
Variable newDecoder : Decoder.
Variable decode : Decoder -> list Byte.byte -> string * Decoder.
Hypothesis decode_nil : forall d, decode d [] = ("", d).
Hypothesis decode_app : forall d a b,
  decode d (a ++ b)
  = let '(s1, d1) := decode d a in
    let '(s2, d2) := decode d1 b in
    ((s1 ++ s2)%string, d2).

(** The callbacks are those of the decoded text fed in one piece. *)
Lemma createReadingStream_decoded (chunks : list (list Byte.byte)) :
  createReadingStream JSON_parse newDecoder decode chunks
  = snd (feed JSON_parse initial (decoded newDecoder decode chunks)).
Proof.
  rewrite (createReadingStream_concat JSON_parse Decoder newDecoder decode
             decode_nil decode_app).
  unfold createReadingStream, decoded. cbn [readLoop].
  destruct (decode newDecoder (concat chunks)) as [text d].
  cbn [fst]. destruct (feed JSON_parse initial text) as [st calls].
  cbn. apply app_nil_r.
Qed.

(** X9. The last line of the stream is handled only if a line feed ends
    it: a response body whose text ends in an unfinished line invokes the
    same callbacks as the body cut after its last line feed, namely those
    of the complete lines. *)
Theorem unfinished_last_line_dropped (chunks : list (list Byte.byte))
    (text tail : string) :
  decoded newDecoder decode chunks = (text ++ String Js.LF tail)%string ->
  noLF tail = true ->
  createReadingStream JSON_parse newDecoder decode chunks
  = snd (processLines JSON_parse "" (Js.split text)).
Proof.
  intros D H.
  rewrite createReadingStream_decoded, D, (feed_LF_tail initial text tail H).
  cbn [initial buffer currentEvent String.append].
  destruct (processLines JSON_parse "" (Js.split text)); reflexivity.
Qed.

(** X10. At most one callback per event line: the number of callbacks
    that a response body invokes never exceeds the number of its lines
    that start with ['event: ']. *)
Theorem one_callback_per_event_line (chunks : list (list Byte.byte)) :
  List.length (createReadingStream JSON_parse newDecoder decode chunks)
  <= List.length
       (filter isEventLine (Js.split (decoded newDecoder decode chunks))).
Proof.
  rewrite createReadingStream_decoded. unfold feed. cbv zeta.
  cbn [initial buffer currentEvent String.append].
  set (lines := Js.split (decoded newDecoder decode chunks)).
  pose proof (processLines_budget (removelast lines) "") as B.
  destruct (processLines JSON_parse "" (removelast lines)) as [ev calls].
  cbn [fst snd] in *. change (armed "") with 0 in B.
  assert (N : lines <> []) by apply split_not_nil.
  rewrite (app_removelast_last "" N).
  rewrite filter_app, length_app. lia.
Qed.

(** X11. Well-formed streams are read back event by event: when the text
    of the response body is a sequence of events, each written as an
    event line, a data line with a non-blank payload and an empty line,
    the callbacks invoked are, in order, those that [dispatch] yields for
    each event's trimmed name and parsed payload, however the body is cut
    into chunks. *)
Theorem well_formed_stream_dispatch (chunks : list (list Byte.byte))
    (fs : list (string * string)) :
  decoded newDecoder decode chunks = frames fs ->
  Forall wellFormed fs ->
  createReadingStream JSON_parse newDecoder decode chunks
  = flat_map (frameCalls JSON_parse) fs.
Proof.
  intros D W. rewrite createReadingStream_decoded, D.
  unfold feed. cbv zeta. cbn [initial buffer currentEvent String.append].
  destruct (processLines_frames fs W "") as [P _]. rewrite P. reflexivity.
Qed.

End Parser.

Lemma unfinished_last_line_dropped_witness :
  createReadingStream Samples.parseSample tt Samples.byteDecode
    [Samples.bytes (Samples.line "event: complete");
     Samples.bytes (Samples.line "data: {}" ++ "event: error");
     Samples.bytes (Samples.line "" ++ "data: {}")]
  = [OnComplete (JObj [])].
Proof.
  refine (unfinished_last_line_dropped Samples.parseSample unit tt
            Samples.byteDecode byteDecode_nil byteDecode_app _
            (Samples.line "event: complete" ++ Samples.line "data: {}"
             ++ "event: error")%string
            "data: {}" _ _); vm_compute; reflexivity.
Defined.

Lemma one_callback_per_event_line_witness :
  List.length
    (createReadingStream Samples.parseSample tt Samples.byteDecode
       [Samples.bytes (Samples.line "event: complete" ++ Samples.line "data: {}"
                       ++ Samples.line "data: {}")])
  <= 1.
Proof.
  exact (one_callback_per_event_line Samples.parseSample unit tt
           Samples.byteDecode byteDecode_nil byteDecode_app
           [Samples.bytes (Samples.line "event: complete"
                           ++ Samples.line "data: {}"
                           ++ Samples.line "data: {}")]).
Defined.

Lemma well_formed_stream_dispatch_witness :
  createReadingStream Samples.parseSample tt Samples.byteDecode
    [Samples.bytes "event: prog";
     Samples.bytes (Samples.line "ress" ++ Samples.line "data:  {} "
                    ++ Samples.line "" ++ "event: comp");
     Samples.bytes (Samples.line "lete" ++ Samples.line "data: {}"
                    ++ Samples.line "")]
  = [OnProgress (JStr "unknown") (JObj []); OnComplete (JObj [])].
Proof.
  refine (well_formed_stream_dispatch Samples.parseSample unit tt
            Samples.byteDecode byteDecode_nil byteDecode_app _
            [("progress", " {} "); ("complete", "{}")] _ _).
  - vm_compute. reflexivity.
  - repeat constructor; discriminate.
Defined.

End ApiMore.

(** ** The card components *)

Module CardViewsProps.

Import HomePage CardViews HomePageProps ListProps.

Lemma sameCardId_eq (a b : CardData) :
  sameCardId a b = true <-> card_id a = card_id b.
Proof.
  unfold sameCardId.
  destruct (card_id a) as [x|], (card_id b) as [y|]; split; intros H;
    try discriminate H; try reflexivity.
  - apply String.eqb_eq in H. congruence.
  - injection H as ->. apply String.eqb_refl.
Qed.

Lemma findIndex_range {A : Type} (p : A -> bool) (l : list A) :
  (-1 <= findIndex p l < Z.of_nat (List.length l))%Z.
Proof.
  induction l as [|x l IH]; cbn [findIndex List.length]; [lia|].
  destruct (p x); [lia|]. cbv zeta.
  destruct (Z.ltb_spec (findIndex p l) 0); lia.
Qed.

(** With pairwise distinct card ids, the search by id finds a card where
    it is. *)
Lemma findIndex_distinct (l : list CardData) :
  NoDup (map card_id l) ->
  forall (i : nat) (x : CardData),
    nth_error l i = Some x ->
    findIndex (fun c => sameCardId c x) l = Z.of_nat i.
Proof.
  induction l as [|y l IH]; intros N i x H; [destruct i; discriminate H|].
  cbn [map] in N. inversion N as [|? ? Hy Hl]; subst.
  destruct i as [|i]; cbn [nth_error findIndex] in *.
  - injection H as ->.
    replace (sameCardId x x) with true
      by (symmetry; apply sameCardId_eq; reflexivity).
    reflexivity.
  - destruct (sameCardId y x) eqn:E.
    + apply sameCardId_eq in E. exfalso. apply Hy. rewrite E.
      apply in_map. apply (nth_error_In _ _ H).
    + rewrite (IH Hl i x H). cbv zeta.
      destruct (Z.ltb_spec (Z.of_nat i) 0); lia.
Qed.

Lemma firstn_sorted (k : nat) (l : list CardData) :
  StronglySorted inOrder l -> StronglySorted inOrder (firstn k l).
Proof.
  intros H. revert k. induction H as [|c l Hl IH Hc]; intros [|k];
    cbn [firstn]; try constructor.
  - apply IH.
  - apply Forall_forall. intros x Hx.
    apply (proj1 (Forall_forall _ _) Hc).
    revert Hx. clear. revert l.
    induction k as [|k IHk]; intros [|y l] Hx; cbn in *; try tauto.
    destruct Hx as [Hx|Hx]; [left; exact Hx|right; apply IHk; exact Hx].
Qed.

Lemma nth_error_firstn_Some {A : Type} (k i : nat) (l : list A) (x : A) :
  nth_error (firstn k l) i = Some x -> nth_error l i = Some x /\ i < k.
Proof.
  revert i l. induction k as [|k IH]; intros i l H.
  - destruct i; discriminate H.
  - destruct l as [|y l]; [destruct i; discriminate H|].
    destruct i as [|i]; cbn in *; [split; [exact H|lia]|].
    destruct (IH i l H). split; [assumption|lia].
Qed.

Lemma at_of_nat {A : Type} (l : list A) (i : nat) :
  at_ l (Z.of_nat i) = nth_error l i.
Proof.
  unfold at_. destruct (Z.ltb_spec (Z.of_nat i) 0); [lia|].
  rewrite Nat2Z.id. reflexivity.
Qed.

Lemma at_Some {A : Type} (l : list A) (i : Z) (x : A) :
  at_ l i = Some x ->
  (0 <= i < Z.of_nat (List.length l))%Z /\ nth_error l (Z.to_nat i) = Some x.
Proof.
  unfold at_. destruct (Z.ltb_spec i 0) as [L|L]; [discriminate|]. intros H.
  split; [|exact H].
  assert (Z.to_nat i < List.length l)
    by (apply nth_error_Some; congruence).
  lia.
Qed.

(** X12. A click opens the card that was clicked: when the card ids of
    the selection are pairwise distinct and the displayed cards are a
    prefix of the selection in position order, a click on the card that a
    spread shows makes [HomePage] select an index at which [CardModal],
    which sorts the whole selection again, finds that same card; this
    holds for [ThreeCardSpread], which reports clicks by position, and for
    [CelticCrossSpread], which reports them by card. *)
Theorem click_opens_clicked_card (cards : list CardData) (k : nat)
    (index : Z) (card : CardData) :
  NoDup (map card_id cards) ->
  let displayedCards := firstn k (sortCards cards) in
  at_ (sortCards displayedCards) index = Some card ->
  threeCardClick displayedCards index = Some index
  /\ celticCrossClick displayedCards card = Some index
  /\ currentCard cards index = Some card.
Proof.
  intros N displayedCards H.
  assert (S : sortCards displayedCards = displayedCards).
  { apply sortCards_fixed, firstn_sorted, sortCards_sorted. }
  rewrite S in H.
  destruct (at_Some _ _ _ H) as [R Hn].
  assert (Nd : NoDup (map card_id displayedCards)).
  { unfold displayedCards. rewrite <- firstn_map. apply NoDup_firstn.
    apply (Permutation_NoDup
             (Permutation_map card_id
                (Permutation_sym (sortCards_perm cards))) N). }
  pose proof (findIndex_distinct displayedCards Nd _ _ Hn) as F.
  rewrite Z2Nat.id in F by lia.
  unfold threeCardClick, celticCrossClick, currentCard.
  rewrite S, H. cbv zeta. rewrite F.
  replace (Z.leb 0 index) with true by (symmetry; apply Z.leb_le; lia).
  split; [reflexivity|]. split; [reflexivity|].
  destruct (nth_error_firstn_Some _ _ _ _ Hn) as [Hc _].
  unfold at_. destruct (Z.ltb_spec index 0); [lia|exact Hc].
Qed.

Lemma click_opens_clicked_card_witness :
  let cards := map toCardData (cardListOf Samples.shuffledCards) in
  let displayedCards := firstn 2 (sortCards cards) in
  threeCardClick displayedCards 1 = Some 1%Z
  /\ celticCrossClick displayedCards (toCardData (Samples.card "The Moon" 1))
     = Some 1%Z
  /\ currentCard cards 1 = Some (toCardData (Samples.card "The Moon" 1)).
Proof.
  apply (click_opens_clicked_card
           (map toCardData (cardListOf Samples.shuffledCards)) 2 1
           (toCardData (Samples.card "The Moon" 1))).
  - repeat constructor; cbn; intuition discriminate.
  - reflexivity.
Defined.

Lemma threeCardClick_range (displayedCards : list CardData) (index i : Z) :
  threeCardClick displayedCards index = Some i ->
  (0 <= i < Z.of_nat (List.length displayedCards))%Z.
Proof.
  unfold threeCardClick.
  destruct (at_ (sortCards displayedCards) index) as [c|] eqn:E;
    [|discriminate].
  destruct (at_Some _ _ _ E) as [R _]. rewrite length_sortCards in R.
  cbv zeta.
  pose proof (findIndex_range (fun c0 => sameCardId c0 c) displayedCards).
  destruct (Z.leb_spec 0 (findIndex (fun c0 => sameCardId c0 c) displayedCards));
    intros [= <-]; lia.
Qed.

Lemma celticCrossClick_range (displayedCards : list CardData)
    (card : CardData) (i : Z) :
  celticCrossClick displayedCards card = Some i ->
  (0 <= i < Z.of_nat (List.length displayedCards))%Z.
Proof.
  unfold celticCrossClick. cbv zeta.
  pose proof (findIndex_range (fun c0 => sameCardId c0 card) displayedCards).
  destruct (Z.leb_spec 0 (findIndex (fun c0 => sameCardId c0 card)
                            displayedCards));
    [intros [= <-]; lia|discriminate].
Qed.

Lemma gesture_valid (cards displayedCards : list CardData) (g : Gesture)
    (sel : option Z) :
  List.length displayedCards <= List.length cards ->
  validSelection cards sel ->
  validSelection cards (gesture cards displayedCards g sel).
Proof.
  intros L V. destruct g as [index|card|key|a b|b]; cbn [gesture].
  - destruct (threeCardClick displayedCards index) as [i|] eqn:E; [|exact V].
    apply threeCardClick_range in E. cbn. lia.
  - destruct (celticCrossClick displayedCards card) as [i|] eqn:E; [|exact V].
    apply celticCrossClick_range in E. cbn. lia.
  - destruct sel as [i|]; [|exact V]. cbn in V.
    destruct (modalMounted cards (Some i)); [|exact V].
    unfold handleKeyDown. rewrite length_sortCards.
    destruct key; cbn [fold_left applyModalCall validSelection]; try exact I;
      try exact V.
    + destruct (Z.ltb_spec 0 i); cbn; lia.
    + destruct (Z.ltb_spec i (Z.of_nat (List.length cards) - 1)); cbn; lia.
  - destruct sel as [i|]; [|exact V]. cbn in V.
    destruct (currentCard cards i); [|exact V].
    destruct (modalMounted cards (Some i)); [|exact V].
    unfold onTouchEnd. rewrite length_sortCards.
    destruct a as [a|], b as [b|]; try exact V.
    destruct (negb (touched (Some a)) || negb (touched (Some b))); [exact V|].
    cbv zeta.
    destruct (Qlt_bool (inject_Z 50) (Qminus a b));
      destruct (Qlt_bool (Qminus a b) (inject_Z (-50)));
      cbn [andb];
      destruct (Z.ltb_spec i (Z.of_nat (List.length cards) - 1));
      destruct (Z.ltb_spec 0 i);
      cbn [app fold_left applyModalCall validSelection]; lia.
  - destruct sel as [i|]; [|exact V]. cbn in V.
    destruct (currentCard cards i); [|exact V].
    destruct (modalMounted cards (Some i)); [|exact V].
    unfold onClick. rewrite length_sortCards.
    destruct b; cbn [fold_left applyModalCall validSelection]; try exact I.
    + destruct (Z.ltb_spec 0 i); cbn; lia.
    + destruct (Z.ltb_spec i (Z.of_nat (List.length cards) - 1)); cbn; lia.
Qed.

(** X13. The card modal never runs out of cards: as long as the selection
    does not change and no more cards are displayed than were selected,
    every sequence of clicks on displayed cards, key presses and swipes
    leaves [selectedCardIndex] empty or at an index at which [CardModal]
    finds a card; the arrow keys and swipes stop at the first and at the
    last card. *)
Theorem selection_stays_valid (cards displayedCards : list CardData)
    (gestures : list Gesture) (selectedCardIndex : option Z) :
  List.length displayedCards <= List.length cards ->
  validSelection cards selectedCardIndex ->
  let sel := fold_left (fun sel g => gesture cards displayedCards g sel)
               gestures selectedCardIndex in
  validSelection cards sel
  /\ forall i : Z, sel = Some i -> currentCard cards i <> None.
Proof.
  intros L V sel.
  assert (V' : validSelection cards sel).
  { unfold sel. clear sel. revert selectedCardIndex V.
    induction gestures as [|g gestures IH]; intros s V; [exact V|].
    apply IH, gesture_valid; assumption. }
  split; [exact V'|].
  intros i E. rewrite E in V'. cbn in V'.
  unfold currentCard, at_. destruct (Z.ltb_spec i 0); [lia|].
  apply nth_error_Some. rewrite length_sortCards. lia.
Qed.

Lemma selection_stays_valid_witness :
  let cards := map toCardData (cardListOf Samples.threeCards) in
  let sel :=
    fold_left (fun sel g => gesture cards (firstn 2 cards) g sel)
      [ClickThreeCard 1; PressKey ArrowRight; PressKey ArrowRight;
       Swipe (Some (inject_Z 300)) (Some (inject_Z 100));
       ClickModal NextButton] None in
  validSelection cards sel
  /\ forall i : Z, sel = Some i -> currentCard cards i <> None.
Proof.
  refine (selection_stays_valid
            (map toCardData (cardListOf Samples.threeCards))
            (firstn 2 (map toCardData (cardListOf Samples.threeCards)))
            [ClickThreeCard 1; PressKey ArrowRight; PressKey ArrowRight;
             Swipe (Some (inject_Z 300)) (Some (inject_Z 100));
             ClickModal NextButton] None _ _).
  - simpl. lia.
  - exact I.
Defined.

End CardViewsProps.

(** ** The sidebar *)

Module SidebarProps.

Import JsText Sidebar ListProps.

(** Filtering the pending list keeps its ids distinct. *)
Lemma filter_ids_distinct (keep : PendingReadingItem -> bool)
    (prev : list PendingReadingItem) :
  NoDup (map id prev) -> NoDup (map id (filter keep prev)).
Proof.
  induction prev as [|item prev IH]; cbn; intros N; [exact N|].
  inversion N as [|? ? Hx Hl]; subst.
  destruct (keep item); cbn; [|apply IH; exact Hl].
  constructor; [|apply IH; exact Hl].
  intros Hin. apply Hx. apply in_map_iff in Hin.
  destruct Hin as [y [E Hy]]. apply filter_In in Hy.
  apply in_map_iff. exists y. tauto.
Qed.

Lemma existsb_id_false (pid : string) (prev : list PendingReadingItem) :
  existsb (fun item => String.eqb (id item) pid) prev = false <->
  ~ In pid (map id prev).
Proof.
  induction prev as [|x prev IH]; cbn; [tauto|].
  rewrite orb_false_iff, IH. split.
  - intros [E H] [F|F]; [|tauto]. rewrite F, String.eqb_refl in E.
    discriminate E.
  - intros H. split; [|tauto].
    destruct (String.eqb_spec (id x) pid); [tauto|reflexivity].
Qed.

Lemma handle_invariant (prev : list PendingReadingItem) (e : Event) :
  pendingInvariant prev -> pendingInvariant (handle prev e).
Proof.
  unfold pendingInvariant. intros [L N].
  assert (F : forall p, List.length (filter p prev) <= 10
                        /\ NoDup (map id (filter p prev))).
  { intros p. split; [pose proof (filter_length_le p prev); lia|].
    apply filter_ids_distinct, N. }
  assert (E : @List.length PendingReadingItem [] <= 10
              /\ NoDup (map id (@nil PendingReadingItem))).
  { split; [cbn; lia|constructor]. }
  destruct e as [[d|]|[d|]|[d|]|[r|]|[|]]; cbn [handle];
    try exact E; try (split; assumption); try apply F.
  - unfold handleReadingPending.
    destruct (existsb (fun item => String.eqb (id item) (pendingId d)) prev)
      eqn:X; [auto|]. cbv zeta.
    split; [rewrite length_firstn; lia|].
    rewrite <- firstn_map. apply NoDup_firstn. cbn [map id].
    constructor; [|exact N]. apply existsb_id_false, X.
  - unfold handleReadingSettled.
    destruct (given (settledPendingId d)); [apply F|].
    destruct (given (settledQuestion d)); [apply F|exact E].
  - unfold handleReadingSettled.
    destruct (given (settledPendingId d)); [apply F|].
    destruct (given (settledQuestion d)); [apply F|exact E].
Qed.

(** X14. The sidebar never lists more than ten pending readings and never
    lists a pending id twice, whatever [readingPending], [readingCreated]
    and [readingFailed] events arrive, whatever [loadReadings] receives
    and whenever the user signs in or out. *)
Theorem pending_list_bounded_and_distinct (events : list Event) :
  List.length (run events []) <= 10 /\ NoDup (map id (run events [])).
Proof.
  change (pendingInvariant (run events [])).
  assert (G : forall prev, pendingInvariant prev ->
                           pendingInvariant (run events prev)).
  { induction events as [|e events IH]; intros prev H; [exact H|].
    apply IH, handle_invariant, H. }
  apply G. split; [cbn; lia|constructor].
Qed.

Lemma filter_fresh (pid : string) (prev : list PendingReadingItem) :
  ~ In pid (map id prev) ->
  filter (fun item => negb (String.eqb (id item) pid)) prev = prev.
Proof.
  induction prev as [|x prev IH]; cbn; intros H; [reflexivity|].
  destruct (String.eqb_spec (id x) pid); [tauto|]. cbn.
  rewrite IH; tauto.
Qed.

(** X15. A pending reading leaves the sidebar as it came: when a
    [readingPending] event with a new, non-empty id is followed by the
    [readingCreated] or [readingFailed] event with that id, the pending
    list is the one before, cut to its nine newest items; with fewer than
    ten items before, it is unchanged. *)
Theorem pending_then_settled (prev : list PendingReadingItem)
    (detail : ReadingPendingEventDetail) (q : option string) :
  pendingId detail <> "" ->
  ~ In (pendingId detail) (map id prev) ->
  let settled := Some {| settledPendingId := Some (pendingId detail);
                         settledQuestion := q |} in
  handleReadingSettled settled (handleReadingPending (Some detail) prev)
  = firstn 9 prev
  /\ (List.length prev < 10 ->
      run [ReadingPending (Some detail); ReadingFailed settled] prev = prev
      /\ run [ReadingPending (Some detail); ReadingCreated settled] prev
         = prev).
Proof.
  intros Hne Hfresh settled.
  assert (E : handleReadingSettled settled
                (handleReadingPending (Some detail) prev) = firstn 9 prev).
  { unfold handleReadingPending.
    rewrite (proj2 (existsb_id_false _ _) Hfresh). cbv zeta.
    unfold settled, handleReadingSettled, given.
    cbn [settledPendingId].
    destruct (pendingId detail) as [|c s] eqn:P; [congruence|].
    cbn [Js.truthy]. rewrite firstn_cons. cbn [filter id].
    rewrite String.eqb_refl. cbn [negb].
    apply filter_fresh. intros Hin. apply Hfresh.
    rewrite <- firstn_map in Hin. apply (firstn_In _ _ _ Hin). }
  split; [exact E|].
  intros L. unfold run. cbn [fold_left handle]. rewrite E.
  rewrite firstn_all2 by lia. split; reflexivity.
Qed.

Lemma pending_then_settled_witness :
  let detail := {| pendingId := "pending-1"; pendingQuestion := "Will it rain";
                   createdAt := "2025-01-01"; sourcePage := Some "home" |} in
  let settled := Some {| settledPendingId := Some "pending-1";
                         settledQuestion := None |} in
  handleReadingSettled settled (handleReadingPending (Some detail) [])
  = firstn 9 []
  /\ (@List.length PendingReadingItem [] < 10 ->
      run [ReadingPending (Some detail); ReadingFailed settled] [] = []
      /\ run [ReadingPending (Some detail); ReadingCreated settled] [] = []).
Proof.
  refine (pending_then_settled []
            {| pendingId := "pending-1"; pendingQuestion := "Will it rain";
               createdAt := "2025-01-01"; sourcePage := Some "home" |}
            None _ _).
  - discriminate.
  - simpl. tauto.
Defined.

(** X16. The age that [formatDate] shows is the one its unit allows: for
    a valid date, [justNow] is shown below one minute (also for dates in
    the future), between 1 and 59 minutes up to the hour, between 1 and 23
    hours up to the day, between 1 and 6 days up to the week, and the plain
    date from seven days on. *)
Theorem formatDate_buckets (date now : Z) :
  let diffMs := (now - date)%Z in
  match formatDate (Some date) now with
  | JustNow => (diffMs < 60000)%Z
  | MinutesAgo n =>
      (60000 <= diffMs < 3600000)%Z /\ (1 <= n <= 59)%Z
      /\ (n * 60000 <= diffMs < (n + 1) * 60000)%Z
  | HoursAgo n =>
      (3600000 <= diffMs < 86400000)%Z /\ (1 <= n <= 23)%Z
      /\ (n * 3600000 <= diffMs < (n + 1) * 3600000)%Z
  | DaysAgo n =>
      (86400000 <= diffMs < 604800000)%Z /\ (1 <= n <= 6)%Z
      /\ (n * 86400000 <= diffMs < (n + 1) * 86400000)%Z
  | LocaleDate => (604800000 <= diffMs)%Z
  end.
Proof.
  intros diffMs. unfold formatDate. fold diffMs. cbv zeta.
  pose proof (Z.div_mod diffMs 60000 ltac:(lia)) as M.
  pose proof (Z.mod_pos_bound diffMs 60000 ltac:(lia)) as Mb.
  pose proof (Z.div_mod diffMs 3600000 ltac:(lia)) as H.
  pose proof (Z.mod_pos_bound diffMs 3600000 ltac:(lia)) as Hb.
  pose proof (Z.div_mod diffMs 86400000 ltac:(lia)) as D.
  pose proof (Z.mod_pos_bound diffMs 86400000 ltac:(lia)) as Db.
  destruct (Z.ltb_spec (diffMs / 60000) 1); [lia|].
  destruct (Z.ltb_spec (diffMs / 60000) 60); [lia|].
  destruct (Z.ltb_spec (diffMs / 3600000) 24); [lia|].
  destruct (Z.ltb_spec (diffMs / 86400000) 7); lia.
Qed.

End SidebarProps.

(** ** The window events of [handleSubmit] in the sidebar *)

Module ReadingEventsProps.

Import JsText Sidebar ReadingEvents ListProps.

Lemma handle_keeps_absent (pid : string) (prev : list PendingReadingItem)
    (e : Event) :
  announces pid e = false ->
  ~ In pid (map id prev) -> ~ In pid (map id (handle prev e)).
Proof.
  intros A H.
  assert (F : forall keep, ~ In pid (map id (filter keep prev))).
  { intros keep Hin. apply H. apply in_map_iff in Hin.
    destruct Hin as [x [E Hx]]. apply filter_In in Hx.
    apply in_map_iff. exists x. tauto. }
  destruct e as [[d|]|[d|]|[d|]|[r|]|[|]]; cbn [handle];
    try exact H; try (intros []).
  - unfold handleReadingPending.
    destruct (existsb (fun item => String.eqb (id item) (pendingId d)) prev);
      [exact H|]. cbv zeta. rewrite <- firstn_map. intros Hin.
    apply firstn_In in Hin. cbn [map id In] in Hin.
    destruct Hin as [Hin|Hin]; [|tauto].
    cbn [announces] in A. rewrite Hin, String.eqb_refl in A. discriminate A.
  - unfold handleReadingSettled.
    destruct (given (settledPendingId d)); [apply F|].
    destruct (given (settledQuestion d)); [apply F|intros []].
  - unfold handleReadingSettled.
    destruct (given (settledPendingId d)); [apply F|].
    destruct (given (settledQuestion d)); [apply F|intros []].
  - unfold readingsLoaded. apply F.
Qed.

Lemma settled_absent (pid : string) (o q : option string)
    (prev : list PendingReadingItem) :
  given o = Some pid ->
  ~ In pid
      (map id
         (handleReadingSettled
            (Some {| settledPendingId := o; settledQuestion := q |}) prev)).
Proof.
  intros G. unfold handleReadingSettled. cbn [settledPendingId].
  rewrite G. intros Hin. apply in_map_iff in Hin.
  destruct Hin as [x [E Hx]].
  apply filter_In in Hx. destruct Hx as [_ Hx].
  rewrite E, String.eqb_refl in Hx. discriminate Hx.
Qed.

(** X22. A reading that was settled is not listed as pending again: the
    pending id that [handleSubmit] makes is never empty, so once the
    sidebar has handled the [readingCreated] or [readingFailed] event of a
    submission (from the [complete] callback, from the [error] callback or
    after an exception), whatever it handled before, its list has no item
    with that id, and none comes back whatever events follow, as long as
    the id is not announced again. *)
Theorem settled_reading_stays_away (now random trimmedQuestion : string)
    (before later : list Event) (prev : list PendingReadingItem) :
  let pendingId := pendingIdOf now random in
  Forall (fun e => announces pendingId e = false) later ->
  forall settled : Event,
    In settled [readingCreated pendingId trimmedQuestion;
                readingFailed pendingId trimmedQuestion;
                readingThrew pendingId trimmedQuestion] ->
    ~ In pendingId (map id (run (before ++ settled :: later) prev)).
Proof.
  intros pendingId L settled S.
  assert (G : given (Some pendingId) = Some pendingId) by reflexivity.
  assert (K : forall l, ~ In pendingId (map id l) ->
                        ~ In pendingId (map id (run later l))).
  { induction L as [|e later A L IH]; intros l H; [exact H|].
    apply IH, handle_keeps_absent; assumption. }
  unfold run in *. rewrite fold_left_app. cbn [fold_left]. apply K.
  cbn [In] in S. destruct S as [<-|[<-|[<-|[]]]]; cbn [handle].
  - apply (settled_absent pendingId (Some pendingId) _ _ G).
  - apply (settled_absent pendingId (Some pendingId) _ _ G).
  - apply (settled_absent pendingId (given (Some pendingId)) _ _ G).
Qed.

Lemma settled_reading_stays_away_witness :
  let pendingId := pendingIdOf "1700000000000" "k3f9x2" in
  ~ In pendingId
      (map id
         (run ([readingPending pendingId "Will it rain" "2025-01-01"]
               ++ readingCreated pendingId "Will it rain"
               :: [readingPending "pending-2" "Shall I travel" "2025-01-02";
                   ReadingsLoaded (Some ["Will it rain"])]) [])).
Proof.
  refine (settled_reading_stays_away "1700000000000" "k3f9x2" "Will it rain"
            [readingPending (pendingIdOf "1700000000000" "k3f9x2")
               "Will it rain" "2025-01-01"]
            [readingPending "pending-2" "Shall I travel" "2025-01-02";
             ReadingsLoaded (Some ["Will it rain"])] [] _
            (readingCreated (pendingIdOf "1700000000000" "k3f9x2")
               "Will it rain") _).
  - repeat constructor.
  - left. reflexivity.
Defined.

End ReadingEventsProps.

(** ** The address of the server *)

Module ApiUrlProps.

Import ApiUrl.

Lemma allSlashes_slashes (s : string) :
  allSlashes s = true -> s = slashes (String.length s).
Proof.
  induction s as [|c s IH]; cbn; [reflexivity|].
  intros H. apply andb_true_iff in H. destruct H as [C A].
  apply Ascii.eqb_eq in C. rewrite C, <- IH by exact A. reflexivity.
Qed.

Lemma removeTrailingSlashes_spec (s : string) :
  exists n : nat,
    s = (removeTrailingSlashes s ++ slashes n)%string
    /\ endsWithSlash (removeTrailingSlashes s) = false.
Proof.
  induction s as [|c s [n [E F]]]; [exists 0; split; reflexivity|].
  cbn [removeTrailingSlashes].
  destruct (Ascii.eqb c slash && allSlashes s) eqn:X.
  - apply andb_true_iff in X. destruct X as [C A].
    apply Ascii.eqb_eq in C. exists (S (String.length s)).
    cbn. rewrite C, <- (allSlashes_slashes s A). split; reflexivity.
  - exists n. split; [cbn; rewrite <- E; reflexivity|].
    cbn [endsWithSlash].
    destruct (removeTrailingSlashes s) as [|d r] eqn:R; [|exact F].
    cbn in E. destruct (Ascii.eqb c slash) eqn:C; [|reflexivity].
    cbn in X. rewrite E in X.
    assert (A : forall k, allSlashes (slashes k) = true).
    { induction k as [|k IHk]; [reflexivity|]. cbn.
      rewrite IHk. unfold slash. reflexivity. }
    rewrite A in X. discriminate X.
Qed.

Lemma removeTrailingSlashes_fixed (s : string) :
  endsWithSlash s = false -> removeTrailingSlashes s = s.
Proof.
  induction s as [|c s IH]; [reflexivity|]. intros H.
  cbn [removeTrailingSlashes].
  destruct s as [|d s].
  - cbn in *. rewrite H. reflexivity.
  - change (endsWithSlash (String c (String d s)))
      with (endsWithSlash (String d s)) in H.
    rewrite (IH H).
    assert (A : allSlashes (String d s) = false).
    { clear IH. revert d H. induction s as [|e s IHs]; intros d H.
      - cbn in *. rewrite H. reflexivity.
      - change (endsWithSlash (String d (String e s)))
          with (endsWithSlash (String e s)) in H.
        change (allSlashes (String d (String e s)))
          with (Ascii.eqb d slash && allSlashes (String e s)).
        rewrite (IHs e H). apply andb_false_r. }
    rewrite A, andb_false_r. reflexivity.
Qed.

(** X17. The address of the server is the configured one without its
    trailing slashes, and nothing else of it is changed: [API_URL] does
    not end in a slash, the configured address is [API_URL] followed by
    slashes only, and the stream address is [API_URL] followed by the
    path, since removing the slashes a second time changes nothing. *)
Theorem api_url_without_trailing_slashes (env : option string) :
  endsWithSlash (API_URL env) = false
  /\ (exists n : nat, rawApiUrl env = (API_URL env ++ slashes n)%string)
  /\ streamUrl env = (API_URL env ++ "/api/tarot/reading/stream")%string.
Proof.
  destruct (removeTrailingSlashes_spec (rawApiUrl env)) as [n [E F]].
  split; [exact F|]. split; [exists n; exact E|].
  unfold streamUrl. cbv zeta.
  rewrite (removeTrailingSlashes_fixed (API_URL env) F). reflexivity.
Qed.

End ApiUrlProps.

(** ** Numbers as texts *)

Module JsNumberProps.

Import JsNumber.

Lemma digitChar_cases (d : Z) :
  (0 <= d < 10)%Z ->
  In (d, digitChar d)
    [(0%Z, "0"%char); (1%Z, "1"%char); (2%Z, "2"%char); (3%Z, "3"%char);
     (4%Z, "4"%char); (5%Z, "5"%char); (6%Z, "6"%char); (7%Z, "7"%char);
     (8%Z, "8"%char); (9%Z, "9"%char)].
Proof.
  intros H.
  assert (C : (d = 0 \/ d = 1 \/ d = 2 \/ d = 3 \/ d = 4 \/ d = 5 \/ d = 6
               \/ d = 7 \/ d = 8 \/ d = 9)%Z) by lia.
  repeat (destruct C as [C|C]; [subst d; cbn; tauto|]).
  subst d. cbn. tauto.
Qed.

Ltac digit_cases H :=
  let C := fresh "C" in
  pose proof (digitChar_cases _ H) as C; cbn [In] in C;
  repeat (destruct C as [C|C];
          [let E1 := fresh "E" in
           let E2 := fresh "E" in
           injection C as E1 E2; subst; try reflexivity|]);
  try contradiction.

Lemma digitValue_digitChar (d : Z) :
  (0 <= d < 10)%Z -> digitValue (digitChar d) = Some d.
Proof. intros H. digit_cases H. Qed.

(** Reading the digits that were written gives the number back. *)
Lemma digits_value (fuel : nat) :
  forall (n : Z) (acc : string) (v : option Z),
    (0 <= n < 2 ^ Z.of_nat (S fuel))%Z ->
    exists k : Z,
      parseDigits 10 (digits (S fuel) n acc) v
      = parseDigits 10 acc
          (Some (match v with Some x => x | None => 0 end * 10 ^ k + n)%Z)
      /\ (0 <= k)%Z.
Proof.
  assert (One : forall (n : Z) (acc : string) (v : option Z),
             (0 <= n < 10)%Z ->
             parseDigits 10 (String (digitChar (n mod 10)) acc) v
             = parseDigits 10 acc
                 (Some (match v with Some x => x | None => 0 end * 10 ^ 1
                        + n)%Z)).
  { intros n acc v L. cbn [parseDigits].
    rewrite Z.mod_small by lia. rewrite (digitValue_digitChar _ L).
    replace (Z.ltb n 10) with true by (symmetry; apply Z.ltb_lt; lia).
    f_equal. f_equal. destruct v; lia. }
  induction fuel as [|fuel IH]; intros n acc v H.
  - exists 1%Z. split; [|lia].
    assert (L : (0 <= n < 10)%Z) by (cbn in H; lia).
    replace (digits 1 n acc) with (String (digitChar (n mod 10)) acc)
      by (cbn [digits]; destruct (Z.ltb n 10); reflexivity).
    apply (One n acc v L).
  - change (digits (S (S fuel)) n acc)
      with (if Z.ltb n 10 then String (digitChar (n mod 10)) acc
            else digits (S fuel) (n / 10)
                   (String (digitChar (n mod 10)) acc)).
    pose proof (Z.mod_pos_bound n 10 ltac:(lia)) as Mb.
    pose proof (Z.div_mod n 10 ltac:(lia)) as M.
    destruct (Z.ltb_spec n 10) as [L|L].
    + exists 1%Z. split; [|lia]. apply One. lia.
    + assert (B : (0 <= n / 10 < 2 ^ Z.of_nat (S fuel))%Z).
      { rewrite (Nat2Z.inj_succ (S fuel)), Z.pow_succ_r in H by lia.
        split; [apply Z.div_pos; lia|].
        apply Z.div_lt_upper_bound; lia. }
      destruct (IH (n / 10)%Z (String (digitChar (n mod 10)) acc) v B)
        as [k [E K]].
      exists (k + 1)%Z. split; [|lia]. rewrite E. cbn [parseDigits].
      rewrite (digitValue_digitChar _ Mb).
      replace (Z.ltb (n mod 10) 10) with true
        by (symmetry; apply Z.ltb_lt; lia).
      f_equal. f_equal. rewrite Z.pow_add_r by lia. lia.
Qed.

Lemma digits_head (fuel : nat) :
  forall (n : Z) (acc : string),
    (acc = "" \/ exists d rest, (0 <= d < 10)%Z
                                /\ acc = String (digitChar d) rest) ->
    exists d rest,
      (0 <= d < 10)%Z
      /\ digits (S fuel) n acc = String (digitChar d) rest
      /\ (rest = "" \/ exists d' rest', (0 <= d' < 10)%Z
                                        /\ rest = String (digitChar d') rest').
Proof.
  induction fuel as [|fuel IH]; intros n acc A.
  - pose proof (Z.mod_pos_bound n 10 ltac:(lia)) as Mb.
    exists (n mod 10)%Z, acc. split; [exact Mb|]. split; [|exact A].
    cbn [digits]. destruct (Z.ltb n 10); reflexivity.
  - pose proof (Z.mod_pos_bound n 10 ltac:(lia)) as Mb.
    change (digits (S (S fuel)) n acc)
      with (if Z.ltb n 10 then String (digitChar (n mod 10)) acc
            else digits (S fuel) (n / 10)
                   (String (digitChar (n mod 10)) acc)).
    destruct (Z.ltb n 10).
    + exists (n mod 10)%Z, acc. auto.
    + apply IH. right. exists (n mod 10)%Z, acc. auto.
Qed.

Lemma log2_fuel (n : Z) :
  (0 <= n)%Z -> (0 <= n < 2 ^ Z.of_nat (S (Z.to_nat (Z.log2 n))))%Z.
Proof.
  intros H. split; [exact H|].
  rewrite Nat2Z.inj_succ, Z2Nat.id by apply Z.log2_nonneg.
  destruct (Z.eq_dec n 0) as [->|N]; [cbn; lia|].
  apply Z.log2_spec. lia.
Qed.

(** Reading a text that starts with a decimal digit and goes on with a
    digit, if it goes on. *)
Lemma parseInt_digits (d : Z) (rest : string) :
  (0 <= d < 10)%Z ->
  (rest = "" \/ exists d' rest', (0 <= d' < 10)%Z
                                 /\ rest = String (digitChar d') rest') ->
  parseInt (String (digitChar d) rest)
  = parseDigits 10 (String (digitChar d) rest) None
  /\ parseInt (String "-" (String (digitChar d) rest))
     = option_map (Z.mul (-1))
         (parseDigits 10 (String (digitChar d) rest) None)
  /\ Js.truthy (String (digitChar d) rest) = true.
Proof.
  intros D R.
  assert (X : (Js.startsWith (String (digitChar d) rest) "0x"
               || Js.startsWith (String (digitChar d) rest) "0X") = false).
  { destruct R as [->|[d' [rest' [D' ->]]]].
    - digit_cases D.
    - digit_cases D; digit_cases D'. }
  assert (W : Js.isWhiteSpace (digitChar d) = false) by digit_cases D.
  assert (M : Ascii.eqb (digitChar d) "-" = false) by digit_cases D.
  assert (P : Ascii.eqb (digitChar d) "+" = false) by digit_cases D.
  split; [|split; [|reflexivity]].
  - unfold parseInt. cbn [Js.trimStart]. rewrite W, M, P, X.
    destruct (parseDigits 10 (String (digitChar d) rest) None) as [v|];
      cbn [option_map]; [rewrite Z.mul_1_l|]; reflexivity.
  - unfold parseInt.
    change (Js.trimStart (String "-" (String (digitChar d) rest)))
      with (String "-" (String (digitChar d) rest)).
    cbv iota. rewrite Ascii.eqb_refl. cbv iota. rewrite X. reflexivity.
Qed.

Lemma toString_nonneg (n : Z) :
  (0 <= n)%Z ->
  parseInt (toString n) = Some n /\ Js.truthy (toString n) = true.
Proof.
  intros H. unfold toString.
  replace (Z.ltb n 0) with false by (symmetry; apply Z.ltb_ge; lia).
  destruct (digits_head (Z.to_nat (Z.log2 n)) n "" (or_introl eq_refl))
    as [d [rest [D [E R]]]].
  destruct (parseInt_digits d rest D R) as [P [_ T]].
  rewrite E, P, T. split; [|reflexivity]. rewrite <- E.
  destruct (digits_value _ n "" None (log2_fuel n H)) as [k [V _]].
  rewrite V. cbn [parseDigits]. f_equal; lia.
Qed.

Lemma toString_neg (n : Z) :
  (n < 0)%Z ->
  parseInt (toString n) = Some n /\ Js.truthy (toString n) = true.
Proof.
  intros H. unfold toString.
  replace (Z.ltb n 0) with true by (symmetry; apply Z.ltb_lt; lia).
  split; [|reflexivity].
  destruct (digits_head (Z.to_nat (Z.log2 (- n))) (- n) ""
              (or_introl eq_refl)) as [d [rest [D [E R]]]].
  destruct (parseInt_digits d rest D R) as [_ [P _]].
  rewrite E, P. rewrite <- E.
  destruct (digits_value _ (- n)%Z "" None (log2_fuel (- n) ltac:(lia)))
    as [k [V _]].
  rewrite V. cbn [parseDigits option_map]. f_equal; lia.
Qed.

(** [parseInt] reads back the integer that [toString] wrote. *)
Lemma parseInt_toString (n : Z) :
  parseInt (toString n) = Some n /\ Js.truthy (toString n) = true.
Proof.
  destruct (Z.lt_ge_cases n 0);
    [apply toString_neg|apply toString_nonneg]; assumption.
Qed.

Lemma gt_days (x : Z) :
  gt (Qdiv (inject_Z x) (inject_Z (1000 * 60 * 60 * 24))) (inject_Z 30)
  = Z.ltb 2592000000 x.
Proof.
  unfold gt, Qle_bool, Qdiv, Qmult, Qinv, inject_Z. cbn.
  destruct (Z.leb_spec (x * 1 * 1) 2592000000);
    destruct (Z.ltb_spec 2592000000 x); cbn; lia.
Qed.

End JsNumberProps.

(** ** The interceptors *)

Module AuthProps.

Import JsText Auth.

(** How the refresh flag, the queue and the waiting calls go together. *)
Lemma handle_refreshInvariant (c : Client) (e : Event) :
  refreshInvariant c -> refreshInvariant (fst (handle c e)).
Proof.
  unfold refreshInvariant. intros [T F].
  destruct e as [config now|config status now|i answer now]; cbn [handle fst].
  - unfold onFulfilled. destruct (negb (urlIncludes config "/refresh"));
      cbn; auto.
  - unfold onRejected. cbv zeta.
    destruct (refreshable status config); [|cbn; auto].
    destruct (isRefreshing c) eqn:R.
    + cbn. split; [intros _; apply T; reflexivity|discriminate].
    + destruct (F eq_refl) as [Q A].
      destruct (given (getItem (storage c) "refresh_token")) as [rt|];
        [destruct (expired (getItem (storage c) "last_activity") now)|];
        cbn; rewrite ?A; cbn; split; auto; discriminate.
  - unfold afterRefresh.
    destruct (nth_error (awaiting c) i) as [req|] eqn:N; [|cbn; auto].
    assert (A : HomePage.removeAt i (awaiting c) = []).
    { destruct (isRefreshing c).
      - specialize (T eq_refl).
        destruct (awaiting c) as [|x [|y l]]; try discriminate T.
        destruct i as [|[|i]]; try reflexivity; discriminate N.
      - destruct (F eq_refl) as [_ A]. rewrite A in N.
        destruct i; discriminate N. }
    rewrite A.
    destruct answer as [data|];
      [destruct (given (access_token data)),
         (given (refresh_token data))|];
      cbn; split; auto; discriminate.
Qed.

Lemma run_refreshInvariant (events : list Event) :
  forall c : Client, refreshInvariant c -> refreshInvariant (fst (run events c)).
Proof.
  induction events as [|e events IH]; intros c I; [exact I|].
  cbn [run]. pose proof (handle_refreshInvariant c e I) as I1.
  destruct (handle c e) as [c1 out1]. cbn [fst] in I1.
  specialize (IH c1 I1). destruct (run events c1) as [c2 out2].
  exact IH.
Qed.

(** X18. The interceptor never has two refresh calls running: after any
    sequence of responses and refresh answers, at most one call of the
    error handler waits for the refresh endpoint, and exactly one while
    [isRefreshing] is set; when [isRefreshing] is not set, no call waits
    and no request is queued. *)
Theorem single_refresh_in_flight (storage0 : Storage) (events : list Event) :
  let c := fst (run events (initial storage0)) in
  List.length (awaiting c) <= 1
  /\ (isRefreshing c = true -> List.length (awaiting c) = 1)
  /\ (isRefreshing c = false -> failedQueue c = [] /\ awaiting c = []).
Proof.
  intros c.
  assert (I : refreshInvariant c).
  { apply run_refreshInvariant. split; [discriminate|]. cbn. auto. }
  destruct I as [T F].
  split; [|split; assumption].
  destruct (isRefreshing c); [rewrite T by reflexivity; lia|].
  destruct (F eq_refl) as [_ A]. rewrite A. cbn. lia.
Qed.

Lemma settled_processQueue (error : option Error) (token : option string)
    (queue : list RequestConfig) :
  count_occ Bool.bool_dec (map isSettled (processQueue error token queue)) true
  = List.length queue.
Proof.
  induction queue as [|q queue IH]; [reflexivity|].
  cbn [processQueue map]. unfold processQueue in IH.
  assert (S1 : isSettled (settle error token q) = true).
  { unfold settle. destruct error; [reflexivity|].
    destruct (given token); reflexivity. }
  rewrite S1. cbn. rewrite IH. reflexivity.
Qed.

Lemma settledCount_app (a b : list Outcome) :
  settledCount (a ++ b) = settledCount a + settledCount b.
Proof.
  unfold settledCount. rewrite map_app, count_occ_app. reflexivity.
Qed.

Lemma settledCount_giveUp (c : Client) (awaiting' : list RequestConfig)
    (req : RequestConfig) (e1 e2 : Error) :
  settledCount (snd (giveUp c awaiting' req e1 e2))
  = List.length (failedQueue c) + 1.
Proof.
  unfold giveUp. cbn [snd]. rewrite settledCount_app.
  unfold settledCount at 1. rewrite settled_processQueue. reflexivity.
Qed.

Lemma length_removeAt {A : Type} (i : nat) (l : list A) (x : A) :
  nth_error l i = Some x -> List.length l = S (List.length (HomePage.removeAt i l)).
Proof.
  revert l. induction i as [|i IH]; intros [|y l] H; try discriminate H.
  - reflexivity.
  - cbn. rewrite (IH l H). reflexivity.
Qed.

Lemma handle_accounting (c : Client) (e : Event) :
  (if isResponseError e then 1 else 0)
  + List.length (failedQueue c) + List.length (awaiting c)
  = settledCount (snd (handle c e))
    + List.length (failedQueue (fst (handle c e)))
    + List.length (awaiting (fst (handle c e))).
Proof.
  destruct e as [config now|config status now|i answer now];
    cbn [handle fst snd isResponseError].
  - unfold onFulfilled. destruct (negb (urlIncludes config "/refresh"));
      reflexivity.
  - unfold onRejected. cbv zeta.
    destruct (refreshable status config); [|cbn; lia].
    destruct (isRefreshing c).
    + cbn. rewrite length_app. cbn. lia.
    + destruct (given (getItem (storage c) "refresh_token")) as [rt|];
        [destruct (expired (getItem (storage c) "last_activity") now)|];
        try (rewrite settledCount_giveUp; cbn; lia).
      cbn. rewrite length_app. cbn. lia.
  - unfold afterRefresh.
    destruct (nth_error (awaiting c) i) as [req|] eqn:N; [|cbn; lia].
    rewrite (length_removeAt _ _ _ N).
    destruct answer as [data|];
      [destruct (given (access_token data)),
         (given (refresh_token data))|];
      try (rewrite settledCount_giveUp; cbn; lia).
    cbn [fst snd failedQueue awaiting].
    match goal with
    | |- context [settledCount (?x :: ?l)] =>
        change (x :: l) with ([x] ++ l)
    end.
    rewrite settledCount_app.
    unfold settledCount at 2. rewrite settled_processQueue. cbn. lia.
Qed.

Lemma run_accounting (events : list Event) :
  forall c : Client,
    responseErrors events
    + List.length (failedQueue c) + List.length (awaiting c)
    = settledCount (snd (run events c))
      + List.length (failedQueue (fst (run events c)))
      + List.length (awaiting (fst (run events c))).
Proof.
  induction events as [|e events IH]; intros c; [cbn; lia|].
  cbn [run]. pose proof (handle_accounting c e) as H.
  destruct (handle c e) as [c1 out1]. cbn [fst snd] in H.
  specialize (IH c1). destruct (run events c1) as [c2 out2].
  cbn [fst snd] in *. rewrite settledCount_app.
  unfold responseErrors in *. cbn [map count_occ].
  destruct (isResponseError e); cbn in *.
  - destruct (Bool.bool_dec true true); [|congruence]. lia.
  - destruct (Bool.bool_dec false true); [congruence|]. lia.
Qed.

(** X19. No failed request is lost and none is answered twice: after any
    sequence of events, the error responses that reached the interceptor
    are as many as the requests it rejected or sent again, plus those in
    the queue, plus the one waiting for the refresh endpoint; hence, when
    no refresh is running, every failed request was rejected or sent
    again exactly once. *)
Theorem failed_requests_settled_once (storage0 : Storage)
    (events : list Event) :
  let c := fst (run events (initial storage0)) in
  let outcomes := snd (run events (initial storage0)) in
  responseErrors events
  = settledCount outcomes + List.length (failedQueue c)
    + List.length (awaiting c)
  /\ (isRefreshing c = false -> responseErrors events = settledCount outcomes).
Proof.
  intros c outcomes.
  pose proof (run_accounting events (initial storage0)) as A.
  cbn [initial failedQueue awaiting List.length] in A.
  fold c outcomes in A.
  split; [lia|]. intros R.
  assert (I : refreshInvariant c).
  { apply run_refreshInvariant. split; [discriminate|]. cbn. auto. }
  destruct (proj2 I R) as [Q W]. rewrite Q, W in A. cbn in A. lia.
Qed.

Lemma clearSession_signedOut (storage : Storage) :
  signedOut (clearSession storage).
Proof.
  intros key H. cbn in H.
  repeat (destruct H as [H|H]; [subst key; reflexivity|]).
  contradiction.
Qed.

Lemma signedOut_request (storage : Storage) (config : RequestConfig) :
  signedOut storage ->
  Authorization (requestInterceptor storage config) = None.
Proof.
  intros H. unfold requestInterceptor.
  rewrite (H "access_token") by (cbn; tauto). reflexivity.
Qed.

Lemma expired_toString (t0 now : Z) :
  expired (Some (JsNumber.toString t0)) now = Z.ltb 2592000000 (now - t0).
Proof.
  unfold expired, given.
  destruct (JsNumberProps.parseInt_toString t0) as [P T].
  rewrite T, P. cbv zeta. apply JsNumberProps.gt_days.
Qed.

(** X20. A session ends after thirty days without a response: when a
    response at time [t0] (not of the refresh endpoint) was the last one
    to record the activity, a later 401 at time [now] for a request that
    may be refreshed, with a refresh token stored and no refresh running,
    posts the refresh token if [now - t0] is at most 2592000000
    milliseconds; if it is more, no refresh is posted, the request is
    rejected with its own error, no session key is left in the storage
    and later requests carry no [Authorization] header.  [checkAuth]
    draws the same line. *)
Theorem session_expiry_threshold (c0 : Client) (config0 config : RequestConfig)
    (status : option Z) (refreshToken : string) (t0 now : Z) :
  urlIncludes config0 "/refresh" = false ->
  isRefreshing c0 = false ->
  refreshable status config = true ->
  given (getItem (storage c0) "refresh_token") = Some refreshToken ->
  let c1 := onFulfilled c0 config0 t0 in
  let result := onRejected c1 config status now in
  ((now - t0 <= 2592000000)%Z ->
   snd result = [RefreshPosted refreshToken]
   /\ storage (fst result) = storage c1
   /\ snd (checkAuth (storage c1) now) = FetchUser)
  /\ ((2592000000 < now - t0)%Z ->
      snd result
      = processQueue (Some SessionExpired) None (failedQueue c0)
        ++ [Rejected (setRetry config) (AxiosError status)]
      /\ signedOut (storage (fst result))
      /\ (forall next : RequestConfig,
            Authorization (requestInterceptor (storage (fst result)) next)
            = None)
      /\ snd (checkAuth (storage c1) now) = SessionEnded
      /\ signedOut (fst (checkAuth (storage c1) now))).
Proof.
  intros U R E G c1 result.
  assert (L : getItem (storage c1) "last_activity"
              = Some (JsNumber.toString t0)).
  { unfold c1, onFulfilled. rewrite U. reflexivity. }
  assert (G1 : given (getItem (storage c1) "refresh_token")
               = Some refreshToken).
  { unfold c1, onFulfilled. rewrite U. exact G. }
  assert (R1 : isRefreshing c1 = false).
  { unfold c1, onFulfilled. rewrite U. exact R. }
  assert (Q1 : failedQueue c1 = failedQueue c0).
  { unfold c1, onFulfilled. rewrite U. reflexivity. }
  assert (X := expired_toString t0 now).
  unfold result, onRejected, checkAuth. cbv zeta.
  rewrite E, R1, G1, L, X. split; intros H.
  - replace (Z.ltb 2592000000 (now - t0)) with false
      by (symmetry; apply Z.ltb_ge; lia).
    cbn [fst snd storage].
    split; [reflexivity|]. split; [reflexivity|].
    destruct (given (getItem (storage c1) "access_token")); reflexivity.
  - replace (Z.ltb 2592000000 (now - t0)) with true
      by (symmetry; apply Z.ltb_lt; lia).
    unfold giveUp. cbn [fst snd storage]. rewrite Q1.
    split; [reflexivity|].
    split; [apply clearSession_signedOut|].
    split; [intros next; apply signedOut_request, clearSession_signedOut|].
    split; [reflexivity|apply clearSession_signedOut].
Qed.


Lemma session_expiry_threshold_witness :
  let storage0 : Storage :=
    fun key => if String.eqb key "refresh_token" then Some "r1" else None in
  let config0 := {| url := Some "/api/auth/me"; _retry := false;
                    Authorization := None |} in
  let config := {| url := Some "/api/tarot/readings"; _retry := false;
                   Authorization := None |} in
  let c1 := onFulfilled (initial storage0) config0 1700000000000 in
  snd (onRejected c1 config (Some 401%Z) 1702592000001)
  = [Rejected (setRetry config) (AxiosError (Some 401%Z))]
  /\ snd (onRejected c1 config (Some 401%Z) 1702592000000)
     = [RefreshPosted "r1"].
Proof.
  pose proof (session_expiry_threshold
                (initial (fun key => if String.eqb key "refresh_token"
                                     then Some "r1" else None))
                {| url := Some "/api/auth/me"; _retry := false;
                   Authorization := None |}
                {| url := Some "/api/tarot/readings"; _retry := false;
                   Authorization := None |}
                (Some 401%Z) "r1" 1700000000000 1702592000001
                eq_refl eq_refl eq_refl eq_refl) as Late.
  pose proof (session_expiry_threshold
                (initial (fun key => if String.eqb key "refresh_token"
                                     then Some "r1" else None))
                {| url := Some "/api/auth/me"; _retry := false;
                   Authorization := None |}
                {| url := Some "/api/tarot/readings"; _retry := false;
                   Authorization := None |}
                (Some 401%Z) "r1" 1700000000000 1702592000000
                eq_refl eq_refl eq_refl eq_refl) as Early.
  cbv zeta in Late, Early. cbv zeta.
  split.
  - exact (proj1 (proj2 Late ltac:(lia))).
  - exact (proj1 (proj1 Early ltac:(lia))).
Defined.


End AuthProps.
